(** * Military surge detector: a shallow embedding and its properties

    The detector lives in [src/api/eia.js] (second document of that file):
    theater resolution, the rolling baseline, the per-cycle analysis with
    its alert life cycle, the lazy cleanup and the signal formatter.

    Numbers.  JavaScript numbers are IEEE-754 doubles.  Flight counts and
    millisecond timestamps are integers far below 2^53 and are modelled
    exactly as [Z].  Quotients (means, surge multiples), coordinates,
    distances and the confidence are modelled as exact rationals [Q];
    equalities between them are stated with [==].  The scenarios of the
    signal formatter are evaluated in binary64 as well ([Binary64]).

    Reference data that is not part of the source ([MILITARY_BASES_EXPANDED],
    the [MilitaryFlight] type) and the trigonometric [distanceKm] are
    parameters of the development.

    Strings.  A string is the sequence of the bytes of its UTF-8 encoding,
    so that an ASCII character is one element; concatenation, comparison,
    prefix and search, the operations the source uses, agree with those on
    UTF-16 code units.  [String.prototype.toUpperCase] follows the Unicode
    tables of the engine and is a parameter as well; the callsign
    patterns, which carry the flag [i], compare ASCII letters without
    regard to case and no other character with an ASCII one.

    Time.  Every [Date.now()] and [new Date()] of the source is one read of
    the wall clock; the n-th read of the process returns [wallClock n]. *)

From Stdlib Require Import ZArith QArith Qround List String Ascii Bool Lia.
From Stdlib Require Import DecimalString Qminmax Lqa Sorted.
From Stdlib Require PrimFloat.
From Stdlib Require Import Permutation.
From Stdlib Require DecimalZ DecimalPos.
Import ListNotations.

Local Open Scope string_scope.
Local Open Scope list_scope.
Local Open Scope Z_scope.

(** ** JavaScript [Map<string, V>]: insertion-ordered, one entry per key *)

Module JSMap.
Section Defs.
Context {V : Type}.

Definition t := list (string * V).

Definition empty : t := [].

Fixpoint get (k : string) (m : t) : option V :=
  match m with
  | [] => None
  | (k', v) :: m' => if String.eqb k k' then Some v else get k m'
  end.

Definition has (k : string) (m : t) : bool :=
  match get k m with Some _ => true | None => false end.

(* [set] keeps the position of an existing key and appends a new one. *)
Fixpoint set (k : string) (v : V) (m : t) : t :=
  match m with
  | [] => [(k, v)]
  | (k', v') :: m' =>
      if String.eqb k k' then (k', v) :: m' else (k', v') :: set k v m'
  end.

Fixpoint delete (k : string) (m : t) : t :=
  match m with
  | [] => []
  | (k', v') :: m' =>
      if String.eqb k k' then m' else (k', v') :: delete k m'
  end.

Definition keys (m : t) : list string := map fst m.
Definition values (m : t) : list V := map snd m.

(* The representation invariant of a JavaScript Map. *)
Definition wf (m : t) : Prop := NoDup (keys m).
End Defs.
Arguments t : clear implicits.
End JSMap.

(** ** Data model *)

Module MilitaryTheater.
Record t := mk {
  id : string;
  name : string;
  baseIds : list string;
  centerLat : Q;
  centerLon : Q;
}.
End MilitaryTheater.

(* An element of MILITARY_BASES_EXPANDED: the fields the detector reads. *)
Module MilitaryBase.
Record t := mk {
  id : string;
  name : string;
  lat : Q;
  lon : Q;
}.
End MilitaryBase.

(* A MilitaryFlight: the fields the detector reads.  [aircraftModel] is
   optional in the source. *)
Module MilitaryFlight.
Record t := mk {
  id : string;
  callsign : string;
  aircraftType : string;
  aircraftModel : option string;
  lat : Q;
  lon : Q;
}.
End MilitaryFlight.

Inductive SurgeType := airlift | fighter | reconnaissance.

Module SurgeAlert.
Record t := mk {
  id : string;
  theater : MilitaryTheater.t;
  type : SurgeType;
  currentCount : Z;
  baselineCount : Z;
  surgeMultiple : Q;
  aircraftTypes : JSMap.t Z;
  nearbyBases : list string;
  firstDetected : Z;
  lastUpdated : Z;
}.
End SurgeAlert.

Module TheaterActivity.
Record t := mk {
  theaterId : string;
  timestamp : Z;
  transportCount : Z;
  fighterCount : Z;
  reconCount : Z;
  totalMilitary : Z;
  flightIds : list string;
}.
End TheaterActivity.

Definition THEATERS : list MilitaryTheater.t :=
  [ MilitaryTheater.mk "middle-east" "Middle East / Persian Gulf"
      [ "al_udeid"; "ali_al_salem_air_base"; "camp_arifjan"; "camp_buehring";
        "kuwait_naval_base"; "naval_support_activity_bahrain"; "isa_air_base";
        "masirah_aira_base"; "rafo_thumrait"; "al_dhafra_air_base";
        "port_of_jebel_ali"; "fujairah_naval_base"; "prince_sultan_air_base";
        "ain_assad_air_base"; "camp_victory";
        "naval_support_facility_diego_garcia" ]
      27 50;
    MilitaryTheater.mk "europe-east" "Eastern Europe"
      [ "camp_bondsteel"; "aitos_logistics_center"; "bezmer";
        "graf_ignatievo" ]
      45 25;
    MilitaryTheater.mk "europe-west" "Western Europe"
      [ "ramstein"; "spangdahlem"; "usag_stuttgart"; "raf_lakenheath";
        "raf_mildenhall"; "aviano" ]
      50 8;
    MilitaryTheater.mk "pacific-west" "Western Pacific"
      [ "kadena_air_base"; "camp_fuji"; "fleet_activities_okinawa"; "yokota";
        "misawsa"; "osan_air_base"; "kunsan_ab";
        "us_army_garrison_humphreys"; "andersen_air_force_base" ]
      30 130;
    MilitaryTheater.mk "africa-horn" "Horn of Africa"
      [ "camp_lemonnier"; "contingency_location_garoua";
        "niger_air_base_201" ]
      10 40 ].

Definition SURGE_THRESHOLD : Q := 2.
Definition BASELINE_WINDOW_HOURS : Z := 48.
Definition BASELINE_MIN_SAMPLES : nat := 6.
(* Each pattern [/^P/i] by its text [P]. *)
Definition TRANSPORT_CALLSIGN_PATTERNS : list string :=
  [ "RCH"; "REACH"; "MOOSE"; "HERKY"; "EVAC"; "DUSTOFF" ].
Definition PROXIMITY_RADIUS_KM : Q := 150.
Definition CLEANUP_INTERVAL : Z := 60 * 60 * 1000.
Definition MAX_HISTORY_HOURS : Z := 72.

Definition getTheaterForBase (baseId : string) : option MilitaryTheater.t :=
  find (fun theater =>
          existsb (String.eqb baseId) (MilitaryTheater.baseIds theater))
       THEATERS.

(** ** Sets of strings in insertion order (JavaScript [Set<string>]) *)

Definition set_add (x : string) (s : list string) : list string :=
  if existsb (String.eqb x) s then s else s ++ [x].

(** ** Strings *)

Definition toUpperAscii (c : ascii) : ascii :=
  let n := nat_of_ascii c in
  if (97 <=? n)%nat && (n <=? 122)%nat then ascii_of_nat (n - 32) else c.

(* The canonical form under which a pattern with the flag [i], and without
   the flag [u], compares characters: a letter a-z becomes A-Z, and a
   character outside ASCII is never made equal to an ASCII one. *)
Fixpoint canonicalize (s : string) : string :=
  match s with
  | EmptyString => EmptyString
  | String c s' => String (toUpperAscii c) (canonicalize s')
  end.

(* [/^p/i.test(s)] for a pattern [p] of upper-case ASCII letters. *)
Definition RegExp_test (p s : string) : bool :=
  String.prefix p (canonicalize s).

(* A JavaScript string is falsy exactly when it is empty. *)
Definition truthy (s : string) : bool := negb (String.eqb s "").

(* A method of strings that takes no argument and returns a string. *)
Definition StringMethod : Type := string -> string.

(** ** Classification *)

Inductive Classification := transport | fighter_class | recon | other.

(** ** Proximity and theater resolution *)

Module NearbyBase.
Record t := mk {
  baseId : string;
  baseName : string;
  distance : Q;
}.
End NearbyBase.

(* [Array.prototype.sort] with the comparator [a.distance - b.distance]:
   a stable ascending sort. *)
Fixpoint insertByDistance (x : NearbyBase.t) (l : list NearbyBase.t)
  : list NearbyBase.t :=
  match l with
  | [] => [x]
  | y :: l' =>
      if Qle_bool (NearbyBase.distance x) (NearbyBase.distance y)
      then x :: y :: l'
      else y :: insertByDistance x l'
  end.

Definition sortByDistance (l : list NearbyBase.t) : list NearbyBase.t :=
  fold_right insertByDistance [] l.

(* The accumulators of the inner loop over one theater's flights. *)
Module Tally.
Record t := mk {
  transportCount : Z;
  fighterCount : Z;
  reconCount : Z;
  aircraftTypes : JSMap.t Z;
  nearbyBasesSet : list string;
}.
Definition zero : t := mk 0 0 0 JSMap.empty [].
End Tally.

(** ** Process-wide state

    [activeSurges] maps an alert key to a reference into [alertStore], the
    store of alert objects: the source mutates alert objects in place, and
    the lists it returns alias them. *)

Definition loc := nat.

Module Baseline.
Record t := mk {
  transport : Q;
  fighter : Q;
  recon : Q;
}.
End Baseline.

Module State.
Record t := mk {
  activityHistory : JSMap.t (list TheaterActivity.t);
  activeSurges : JSMap.t loc;
  alertStore : list SurgeAlert.t;
  lastCleanup : Z;
  clockReads : nat;
}.

Definition with_activityHistory (h : JSMap.t (list TheaterActivity.t))
  (s : t) : t :=
  mk h (activeSurges s) (alertStore s) (lastCleanup s) (clockReads s).
Definition with_activeSurges (a : JSMap.t loc) (s : t) : t :=
  mk (activityHistory s) a (alertStore s) (lastCleanup s) (clockReads s).
Definition with_alertStore (st : list SurgeAlert.t) (s : t) : t :=
  mk (activityHistory s) (activeSurges s) st (lastCleanup s) (clockReads s).
Definition with_lastCleanup (z : Z) (s : t) : t :=
  mk (activityHistory s) (activeSurges s) (alertStore s) z (clockReads s).
Definition with_clockReads (n : nat) (s : t) : t :=
  mk (activityHistory s) (activeSurges s) (alertStore s) (lastCleanup s) n.
End State.

(* Writing fields of the alert object at a reference. *)
Fixpoint store_update (l : loc) (f : SurgeAlert.t -> SurgeAlert.t)
  (store : list SurgeAlert.t) : list SurgeAlert.t :=
  match store, l with
  | [], _ => []
  | a :: rest, O => f a :: rest
  | a :: rest, S l' => a :: store_update l' f rest
  end.

(** ** A state monad for the code that reads and writes the state *)

Definition M (A : Type) : Type := State.t -> A * State.t.

Definition ret {A} (a : A) : M A := fun s => (a, s).

Definition bind {A B} (m : M A) (k : A -> M B) : M B :=
  fun s => let (a, s') := m s in k a s'.

Definition gets {A} (f : State.t -> A) : M A := fun s => (f s, s).

Definition modify (f : State.t -> State.t) : M unit := fun s => (tt, f s).

Notation "x <- m ;; k" := (bind m (fun x => k))
  (at level 61, m at next level, right associativity).
Notation "m ;;; k" := (bind m (fun _ => k))
  (at level 61, right associativity).

Fixpoint foldM {A B} (f : A -> B -> M A) (l : list B) (a : A) : M A :=
  match l with
  | [] => ret a
  | b :: l' => a' <- f a b ;; foldM f l' a'
  end.

(* [Math.max] and [Math.min] on two numbers. *)
Definition Math_max (a b : Q) : Q := if Qle_bool a b then b else a.
Definition Math_min (a b : Q) : Q := if Qle_bool a b then a else b.

(** ** Signal formatter

    The title and the description of the signal are display renderings
    (icon labels, [toFixed]) and are not part of the model. *)

Inductive Severity := critical | high | medium | low.

Module Signal.
Record t := mk {
  id : string;
  type : string;
  source : string;
  severity : Severity;
  confidence : Q;
  category : string;
  timestamp : Z;
  locationLat : Q;
  locationLon : Q;
  locationName : string;
  metaTheaterId : string;
  metaSurgeType : SurgeType;
  metaCurrentCount : Z;
  metaBaselineCount : Z;
  metaSurgeMultiple : Q;
  metaAircraftTypes : JSMap.t Z;
  metaNearbyBases : list string;
}.
End Signal.

Definition decimal (z : Z) : string := NilZero.string_of_int (Z.to_int z).

Definition severityOf (surgeMultiple : Q) : Severity :=
  if Qle_bool 4 surgeMultiple then critical
  else if Qle_bool 3 surgeMultiple then high
  else medium.

Definition confidenceOf (surgeMultiple : Q) : Q :=
  Math_min 0.95 (0.6 + (surgeMultiple - 2) * 0.1)%Q.

Definition surgeAlertToSignal (surge : SurgeAlert.t) : Signal.t :=
  let severity := severityOf (SurgeAlert.surgeMultiple surge) in
  let confidence := confidenceOf (SurgeAlert.surgeMultiple surge) in
  Signal.mk
    ("surge-" ++ SurgeAlert.id surge ++ "-"
       ++ decimal (SurgeAlert.firstDetected surge))%string
    "military_surge"
    "Military Flight Tracking"
    severity
    confidence
    "military"
    (SurgeAlert.firstDetected surge)
    (MilitaryTheater.centerLat (SurgeAlert.theater surge))
    (MilitaryTheater.centerLon (SurgeAlert.theater surge))
    (MilitaryTheater.name (SurgeAlert.theater surge))
    (MilitaryTheater.id (SurgeAlert.theater surge))
    (SurgeAlert.type surge)
    (SurgeAlert.currentCount surge)
    (SurgeAlert.baselineCount surge)
    (SurgeAlert.surgeMultiple surge)
    (SurgeAlert.aircraftTypes surge)
    (SurgeAlert.nearbyBases surge).

(** ** The formatter's arithmetic in binary64

    The same severity and confidence computations on IEEE-754 doubles, as
    JavaScript evaluates them, to check the scenarios of the specification
    against rounding. *)

Module Binary64.
Import PrimFloat.
Local Open Scope float_scope.
Local Set Warnings "-inexact-float".

Definition Math_min (a b : float) : float :=
  if is_nan a then a else if is_nan b then b
  else if ltb b a then b else a.

Definition severityOf (surgeMultiple : float) : Severity :=
  if leb 4 surgeMultiple then critical
  else if leb 3 surgeMultiple then high
  else medium.

Definition confidenceOf (surgeMultiple : float) : float :=
  Math_min 0.95 (0.6 + (surgeMultiple - 2) * 0.1).
End Binary64.

(** ** Sample reference data for the worked examples

    A base catalog and a clock are inputs of the detector.  The distance
    table holds haversine distances (Earth radius 6371 km), rounded to the
    kilometre, for the coordinate pairs the examples use; a pair that is
    not listed counts as half the Earth away. *)

Definition sampleDistances : list (Q * Q * Q * Q * Q) :=
  [ (49, 12, 27, 50, 4065); (49, 12, 45, 25, 1080); (49, 12, 50, 8, 309);
    (49, 12, 30, 130, 9301); (49, 12, 10, 40, 5054);
    (49, 12, 49.7, 11.9, 78); (49, 12, 42, 21, 1046); (49, 12, 43, 21, 962);
    (42.4, 21, 27, 50, 3132); (42.4, 21, 45, 25, 432);
    (42.4, 21, 50, 8, 1306); (42.4, 21, 30, 130, 9184);
    (42.4, 21, 10, 40, 4050);
    (42.4, 21, 49.7, 11.9, 1072); (42.4, 21, 42, 21, 44);
    (42.4, 21, 43, 21, 67);
    (-40, -100, 27, 50, 16901); (-40, -100, 45, 25, 15559);
    (-40, -100, 50, 8, 14470); (-40, -100, 30, 130, 15390);
    (-40, -100, 10, 40, 14855);
    (-40, -100, 49.7, 11.9, 14729); (-40, -100, 42, 21, 15159);
    (-40, -100, 43, 21, 15193) ]%Q.

Definition sampleDistanceKm (lat1 lon1 lat2 lon2 : Q) : Q :=
  match
    find (fun e =>
            let '(a, b, c, d, _) := e in
            Qeq_bool lat1 a && Qeq_bool lon1 b
            && Qeq_bool lat2 c && Qeq_bool lon2 d)
         sampleDistances
  with
  | Some (_, _, _, _, km) => km
  | None => 20000
  end.

(* One clock read per minute. *)
Definition sampleClock (n : nat) : Z := 1700000000000 + 60000 * Z.of_nat n.

(* A catalog with one base, which no theater lists. *)
Definition quietBases : list MilitaryBase.t :=
  [ MilitaryBase.mk "grafenwoehr" "Grafenwoehr" 49.7 11.9 ].

(* A catalog that places bases of two theaters 111 km apart. *)
Definition overlapBases : list MilitaryBase.t :=
  [ MilitaryBase.mk "camp_bondsteel" "Camp Bondsteel" 42 21;
    MilitaryBase.mk "aviano" "Aviano Air Base" 43 21 ].

Definition europeEast : MilitaryTheater.t :=
  MilitaryTheater.mk "europe-east" "Eastern Europe"
    [ "camp_bondsteel"; "aitos_logistics_center"; "bezmer";
      "graf_ignatievo" ]
    45 25.

Definition europeWest : MilitaryTheater.t :=
  MilitaryTheater.mk "europe-west" "Western Europe"
    [ "ramstein"; "spangdahlem"; "usag_stuttgart"; "raf_lakenheath";
      "raf_mildenhall"; "aviano" ]
    50 8.

Definition transportOverBavaria (id : string) : MilitaryFlight.t :=
  MilitaryFlight.mk id "RCH101" "transport" (Some "C-17") 49 12.

Definition sixTransports : list MilitaryFlight.t :=
  map transportOverBavaria [ "f1"; "f2"; "f3"; "f4"; "f5"; "f6" ].

Definition flightOverKosovo : MilitaryFlight.t :=
  MilitaryFlight.mk "k1" "VIPER11" "fighter" (Some "F-16") 42.4 21.

Definition flightOverSouthPacific : MilitaryFlight.t :=
  MilitaryFlight.mk "p1" "RCH202" "transport" None (-40) (-100).

(* An airlift alert of the european-east theater and a state that holds it,
   together with one history entry that is four days old. *)
Definition sampleAlert : SurgeAlert.t :=
  SurgeAlert.mk "airlift-europe-east" europeEast airlift 6 3 2
    [ ("C-17", 6) ] [ "Grafenwoehr" ] 1700000120000 1700000180000.

(* Twelve transports against a baseline of three. *)
Definition criticalAlert : SurgeAlert.t :=
  SurgeAlert.mk "airlift-europe-east" europeEast airlift 12 3 (12 / 3)
    [ ("C-17", 12) ] [ "Grafenwoehr" ] 1700000120000 1700000180000.

Definition oldActivity : TheaterActivity.t :=
  TheaterActivity.mk "europe-east" (1700000000000 - 345600000) 1 0 0 1 [ "x" ].

Definition sampleState : State.t :=
  State.mk [ ("europe-east", [ oldActivity ]) ]
           [ ("airlift-europe-east", 0%nat) ]
           [ sampleAlert ] 1700000000000 4.

(* One day later by the sample clock. *)
Definition laterState : State.t :=
  State.mk [ ("europe-east", [ oldActivity ]) ]
           [ ("airlift-europe-east", 0%nat) ]
           [ sampleAlert ] 1700000000000 1440.

Definition sixTransportsTally : Tally.t :=
  Tally.mk 6 0 0 [ ("C-17", 6) ] [ "Grafenwoehr" ].

(* Six recent samples of a busy theater, and a state that holds them. *)
Definition busyHistory : list TheaterActivity.t :=
  map (fun i => TheaterActivity.mk "europe-east" (1700000000000 + i) 4 1 0 5 [])
      [ 1; 2; 3; 4; 5; 6 ].

Definition busyState : State.t :=
  State.mk [ ("europe-east", busyHistory) ] [] [] 1700000000000 4.






Definition defaultBaseline : Baseline.t := Baseline.mk 3 2 1.

(* The baseline of a quiet theater: every category at its floor. *)
Definition floorBaseline : Baseline.t := Baseline.mk 2 1 1.

(** ** The EIA proxy

    The request handler of the first document of [src/api/eia.js].  A
    request is its method and the path name of its URL; the environment is
    the API key.  The upstream service is an input: [fetchSeries] gives,
    for the URL of a series, what the fetch and the parsing of its answer
    produce, including the value they fail with.  JSON values are kept
    abstract, with their truthiness.  A promise is modelled by the way it
    settles.  The text of the engine's TypeError, which the status 500
    answer quotes, is not modelled. *)

Fixpoint dropChars (n : nat) (s : string) : string :=
  match n, s with
  | O, _ => s
  | S n', String _ s' => dropChars n' s'
  | S _, EmptyString => EmptyString
  end.

(* [String.prototype.replace] with a string pattern and the empty
   replacement: the first occurrence of the pattern is removed. *)
Fixpoint removeFirst (pattern s : string) : string :=
  if String.prefix pattern s then dropChars (String.length pattern) s
  else match s with
       | EmptyString => EmptyString
       | String c s' => String c (removeFirst pattern s')
       end.

(* The [series] object of the petroleum branch: key and series id. *)
Definition PETROLEUM_SERIES : list (string * string) :=
  [ ("wti", "PET.RWTC.W"); ("brent", "PET.RBRTE.W");
    ("production", "PET.WCRFPUS2.W"); ("inventory", "PET.WCESTUS1.W") ].

Definition seriesUrl (apiKey seriesId : string) : string :=
  ("https://api.eia.gov/v2/seriesid/" ++ seriesId
   ++ "?api_key=" ++ apiKey ++ "&num=2")%string.

(* A value a promise is rejected with: [null] or [undefined], on which
   reading the property [message] throws a TypeError, or any other value,
   on which it does not. *)
Inductive Thrown := Nullish | NotNullish.

(* A settled promise: fulfilled with a value, or rejected (here always
   with a TypeError). *)
Inductive Settled (A : Type) :=
| Fulfilled (a : A)
| Rejected.

Arguments Fulfilled {A} a.
Arguments Rejected {A}.

(* [Promise.all]: rejected as soon as one of the promises is. *)
Fixpoint Promise_all {A : Type} (promises : list (Settled A))
  : Settled (list A) :=
  match promises with
  | [] => Fulfilled []
  | Rejected :: _ => Rejected
  | Fulfilled a :: rest =>
      match Promise_all rest with
      | Fulfilled values => Fulfilled (a :: values)
      | Rejected => Rejected
      end
  end.

Section EiaProxy.

Variable Json : Type.
Variable jsonTruthy : Json -> bool.

(* One element of the [data] array of an upstream answer. *)
Record Datum := mkDatum {
  datumValue : Json;
  datumPeriod : Json;
  datumUnit : Json;
}.

(* The fetch, or the parsing of its answer, failed with the value [e];
   the answer was not ok; or the answer carried these values. *)
Inductive FetchOutcome :=
| FetchThrew (e : Thrown)
| FetchNotOk
| FetchOk (values : list Datum).

Record SeriesData := mkSeriesData {
  current : Json;
  previous : Json;
  date : Json;
  unitOf : Json;
}.

Inductive EiaBody :=
| NotConfiguredBody
| NoBody
| HealthBody
| PetroleumBody (results : JSMap.t SeriesData)
| FetchErrorBody
| NotFoundBody.

Record EiaResponse := mkEiaResponse {
  status : Z;
  headers : list (string * string);
  body : EiaBody;
}.

Variable fetchSeries : string -> FetchOutcome.

(* The callback that fetches one series.  Its [catch] block reads
   [e.message], which throws again when [e] is [null] or [undefined]. *)
Definition fetchOne (apiKey : string) (entry : string * string)
  : Settled (option (string * SeriesData)) :=
  let '(key, seriesId) := entry in
  match fetchSeries (seriesUrl apiKey seriesId) with
  | FetchThrew Nullish => Rejected
  | FetchThrew NotNullish => Fulfilled None
  | FetchNotOk => Fulfilled None
  | FetchOk (v0 :: rest) =>
      Fulfilled
        (Some (key,
               mkSeriesData
                 (datumValue v0)
                 (match rest with
                  | v1 :: _ =>
                      if jsonTruthy (datumValue v1) then datumValue v1
                      else datumValue v0
                  | [] => datumValue v0
                  end)
                 (datumPeriod v0)
                 (datumUnit v0)))
  | FetchOk [] => Fulfilled None
  end.

(* What the callback hands to the loop below for an outcome of the fetch
   that does not reject it. *)
Definition entryOf (name : string) (outcome : FetchOutcome)
  : option (string * SeriesData) :=
  match outcome with
  | FetchOk (v0 :: rest) =>
      Some (name,
            mkSeriesData
              (datumValue v0)
              (match rest with
               | v1 :: _ =>
                   if jsonTruthy (datumValue v1) then datumValue v1
                   else datumValue v0
               | [] => datumValue v0
               end)
              (datumPeriod v0)
              (datumUnit v0))
  | _ => None
  end.

(* The loop that fills the results object. *)
Definition collectResults
  (fetchResults : list (option (string * SeriesData))) : JSMap.t SeriesData :=
  fold_left
    (fun results result =>
       match result with
       | Some (key, data) => JSMap.set key data results
       | None => results
       end)
    fetchResults JSMap.empty.

Definition eiaHandler (apiKey : option string) (method pathname : string)
  : EiaResponse :=
  let path := removeFirst "/api/eia" pathname in
  match apiKey with
  | Some key =>
      if truthy key then
        if String.eqb method "OPTIONS" then
          mkEiaResponse 204
            [ ("Access-Control-Allow-Origin", "*");
              ("Access-Control-Allow-Methods", "GET, OPTIONS");
              ("Access-Control-Allow-Headers", "Content-Type") ]
            NoBody
        else if String.eqb path "/health" || String.eqb path "" then
          mkEiaResponse 200 [ ("Access-Control-Allow-Origin", "*") ]
            HealthBody
        else if String.eqb path "/petroleum" then
          match Promise_all (map (fetchOne key) PETROLEUM_SERIES) with
          | Fulfilled fetchResults =>
              mkEiaResponse 200
                [ ("Access-Control-Allow-Origin", "*");
                  ("Cache-Control", "public, max-age=1800") ]
                (PetroleumBody (collectResults fetchResults))
          | Rejected =>
              mkEiaResponse 500 [ ("Access-Control-Allow-Origin", "*") ]
                FetchErrorBody
          end
        else
          mkEiaResponse 404 [ ("Access-Control-Allow-Origin", "*") ]
            NotFoundBody
      else
        mkEiaResponse 503 [ ("Access-Control-Allow-Origin", "*") ]
          NotConfiguredBody
  | None =>
      mkEiaResponse 503 [ ("Access-Control-Allow-Origin", "*") ]
        NotConfiguredBody
  end.

End EiaProxy.

(* [String.prototype.toUpperCase] on ASCII strings, which the callsigns of
   the examples are. *)
Definition asciiToUpperCase : string -> string := canonicalize.

(* A declared fighter that flies under an airlift callsign. *)
Definition fighterWithAirliftCallsign : MilitaryFlight.t :=
  MilitaryFlight.mk "r1" "rch471" "fighter" (Some "F-15") 49 12.

(* An upstream that answers the crude-oil series with two data points, the
   older of them 0, and fails with an error object on every other series. *)
Definition sampleUpstream (url : string) : FetchOutcome Z :=
  if String.eqb url (seriesUrl "k" "PET.RWTC.W")
  then FetchOk Z [ mkDatum Z 71 20240105 1; mkDatum Z 0 20231229 1 ]
  else FetchThrew Z NotNullish.

(* The same upstream, except that the fetch of the Brent series fails
   with [undefined]. *)
Definition brokenUpstream (url : string) : FetchOutcome Z :=
  if String.eqb url (seriesUrl "k" "PET.RBRTE.W")
  then FetchThrew Z Nullish
  else sampleUpstream url.

Definition nonZero (z : Z) : bool := negb (z =? 0).

Section Detector.

Variable MILITARY_BASES_EXPANDED : list MilitaryBase.t.
Variable distanceKm : Q -> Q -> Q -> Q -> Q.
Variable wallClock : nat -> Z.

(* [String.prototype.toUpperCase], which follows the Unicode tables of the
   engine. *)
Variable toUpperCase : StringMethod.

Definition isTransportFlight (flight : MilitaryFlight.t) : bool :=
  if String.eqb (MilitaryFlight.aircraftType flight) "transport"
     || String.eqb (MilitaryFlight.aircraftType flight) "tanker"
  then true
  else
    let callsign := toUpperCase (MilitaryFlight.callsign flight) in
    existsb (fun p => RegExp_test p callsign) TRANSPORT_CALLSIGN_PATTERNS.

Definition classifyFlight (flight : MilitaryFlight.t) : Classification :=
  if isTransportFlight flight then transport
  else if String.eqb (MilitaryFlight.aircraftType flight) "fighter"
  then fighter_class
  else if String.eqb (MilitaryFlight.aircraftType flight) "reconnaissance"
          || String.eqb (MilitaryFlight.aircraftType flight) "awacs"
  then recon
  else other.

Definition nearbyOf (lat lon : Q) (base : MilitaryBase.t) : NearbyBase.t :=
  NearbyBase.mk (MilitaryBase.id base) (MilitaryBase.name base)
    (distanceKm lat lon (MilitaryBase.lat base) (MilitaryBase.lon base)).

Definition findNearbyBases (lat lon : Q) : list NearbyBase.t :=
  let nearby :=
    filter (fun nb => Qle_bool (NearbyBase.distance nb) PROXIMITY_RADIUS_KM)
           (map (nearbyOf lat lon) MILITARY_BASES_EXPANDED) in
  sortByDistance nearby.

(* [dist < 1500] of the fallback loop. *)
Definition centerInRange (flight : MilitaryFlight.t)
  (theater : MilitaryTheater.t) : bool :=
  negb (Qle_bool 1500
          (distanceKm (MilitaryFlight.lat flight) (MilitaryFlight.lon flight)
             (MilitaryTheater.centerLat theater)
             (MilitaryTheater.centerLon theater))).

(* First loop of [getTheaterForFlight]: the first nearby base that has an
   owning theater decides. *)
Fixpoint firstOwnedTheater (nearbyBases : list NearbyBase.t)
  : option MilitaryTheater.t :=
  match nearbyBases with
  | [] => None
  | nb :: rest =>
      match getTheaterForBase (NearbyBase.baseId nb) with
      | Some theater => Some theater
      | None => firstOwnedTheater rest
      end
  end.

Definition getTheaterForFlight (flight : MilitaryFlight.t)
  : option MilitaryTheater.t :=
  let nearbyBases :=
    findNearbyBases (MilitaryFlight.lat flight) (MilitaryFlight.lon flight) in
  match firstOwnedTheater nearbyBases with
  | Some theater => Some theater
  | None => find (centerInRange flight) THEATERS
  end.

(** ** Per-cycle aggregation *)

(* The grouping loop: flights without a theater are skipped. *)
Definition groupFlight (theaterFlights : JSMap.t (list MilitaryFlight.t))
  (flight : MilitaryFlight.t) : JSMap.t (list MilitaryFlight.t) :=
  match getTheaterForFlight flight with
  | None => theaterFlights
  | Some theater =>
      let existing :=
        match JSMap.get (MilitaryTheater.id theater) theaterFlights with
        | Some l => l
        | None => []
        end in
      JSMap.set (MilitaryTheater.id theater) (existing ++ [flight])
        theaterFlights
  end.

Definition groupFlights (flights : list MilitaryFlight.t)
  : JSMap.t (list MilitaryFlight.t) :=
  fold_left groupFlight flights JSMap.empty.

Definition typeKeyOf (flight : MilitaryFlight.t) : string :=
  match MilitaryFlight.aircraftModel flight with
  | Some model =>
      if truthy model then model
      else if truthy (MilitaryFlight.aircraftType flight)
      then MilitaryFlight.aircraftType flight else "unknown"
  | None =>
      if truthy (MilitaryFlight.aircraftType flight)
      then MilitaryFlight.aircraftType flight else "unknown"
  end.

(* Body of the inner loop over the flights of one theater. *)
Definition tallyFlight (acc : Tally.t) (flight : MilitaryFlight.t) : Tally.t :=
  let classification := classifyFlight flight in
  let tc := match classification with
            | transport => Tally.transportCount acc + 1
            | _ => Tally.transportCount acc end in
  let fc := match classification with
            | fighter_class => Tally.fighterCount acc + 1
            | _ => Tally.fighterCount acc end in
  let rc := match classification with
            | recon => Tally.reconCount acc + 1
            | _ => Tally.reconCount acc end in
  let typeKey := typeKeyOf flight in
  let seen := match JSMap.get typeKey (Tally.aircraftTypes acc) with
              | Some n => n
              | None => 0
              end in
  let aircraftTypes := JSMap.set typeKey (seen + 1) (Tally.aircraftTypes acc) in
  let nearby :=
    findNearbyBases (MilitaryFlight.lat flight) (MilitaryFlight.lon flight) in
  let nearbyBasesSet :=
    fold_left (fun s nb => set_add (NearbyBase.baseName nb) s)
              (firstn 3 nearby) (Tally.nearbyBasesSet acc) in
  Tally.mk tc fc rc aircraftTypes nearbyBasesSet.

Definition tallyFlights (theaterFlightList : list MilitaryFlight.t) : Tally.t :=
  fold_left tallyFlight theaterFlightList Tally.zero.

(** ** Clock *)

Definition Date_now : M Z :=
  fun s => (wallClock (State.clockReads s),
            State.with_clockReads (S (State.clockReads s)) s).

(** ** Baseline estimator *)

Definition sumBy (f : TheaterActivity.t -> Z) (l : list TheaterActivity.t) : Z :=
  fold_left (fun sum h => sum + f h) l 0.

(* [calculateBaseline] once the history and the clock have been read. *)
Definition baselineOf (now : Z) (history : list TheaterActivity.t)
  : Baseline.t :=
  let cutoff := now - BASELINE_WINDOW_HOURS * 60 * 60 * 1000 in
  let relevant :=
    filter (fun h => cutoff <=? TheaterActivity.timestamp h) history in
  if (List.length relevant <? BASELINE_MIN_SAMPLES)%nat then
    Baseline.mk 3 2 1
  else
    let n := inject_Z (Z.of_nat (List.length relevant)) in
    let avgTransport :=
      (inject_Z (sumBy TheaterActivity.transportCount relevant) / n)%Q in
    let avgFighter :=
      (inject_Z (sumBy TheaterActivity.fighterCount relevant) / n)%Q in
    let avgRecon :=
      (inject_Z (sumBy TheaterActivity.reconCount relevant) / n)%Q in
    Baseline.mk (Math_max 2 avgTransport) (Math_max 1 avgFighter) (Math_max 1 avgRecon).

Definition historyOf (theaterId : string) (s : State.t)
  : list TheaterActivity.t :=
  match JSMap.get theaterId (State.activityHistory s) with
  | Some h => h
  | None => []
  end.

Definition calculateBaseline (theaterId : string) : M Baseline.t :=
  history <- gets (historyOf theaterId) ;;
  now <- Date_now ;;
  ret (baselineOf now history).

(** ** Cleanup *)

(* Body of the loop over [activityHistory]. *)
Definition pruneStep (cutoff : Z) (m : JSMap.t (list TheaterActivity.t))
  (e : string * list TheaterActivity.t) : JSMap.t (list TheaterActivity.t) :=
  let '(theaterId, history) := e in
  let filtered :=
    filter (fun h => cutoff <=? TheaterActivity.timestamp h) history in
  if (List.length filtered =? 0)%nat
  then JSMap.delete theaterId m
  else JSMap.set theaterId filtered m.

(* The loop visits every entry the map had when it started; the entry under
   visit is the only one the body deletes or rewrites. *)
Definition pruneHistory (cutoff : Z)
  (activityHistory : JSMap.t (list TheaterActivity.t))
  : JSMap.t (list TheaterActivity.t) :=
  fold_left (pruneStep cutoff) activityHistory activityHistory.

Definition isStale (now : Z) (store : list SurgeAlert.t) (surge : loc) : bool :=
  match nth_error store surge with
  | Some a => 2 * 60 * 60 * 1000 <? now - SurgeAlert.lastUpdated a
  | None => false
  end.

(* Body of the loop over [activeSurges]. *)
Definition evictStep (now : Z) (store : list SurgeAlert.t)
  (m : JSMap.t loc) (e : string * loc) : JSMap.t loc :=
  let '(surgeId, surge) := e in
  if isStale now store surge then JSMap.delete surgeId m else m.

Definition evictStale (now : Z) (store : list SurgeAlert.t)
  (activeSurges : JSMap.t loc) : JSMap.t loc :=
  fold_left (evictStep now store) activeSurges activeSurges.

Definition cleanupOldHistory : M unit :=
  now <- Date_now ;;
  lastCleanup <- gets State.lastCleanup ;;
  if now - lastCleanup <? CLEANUP_INTERVAL then ret tt
  else
    modify (State.with_lastCleanup now) ;;;
    let cutoff := now - MAX_HISTORY_HOURS * 60 * 60 * 1000 in
    modify (fun s =>
      State.with_activityHistory
        (pruneHistory cutoff (State.activityHistory s)) s) ;;;
    modify (fun s =>
      State.with_activeSurges
        (evictStale now (State.alertStore s) (State.activeSurges s)) s).

(** ** Surge detection and alert life cycle *)

(* [Math.round]: the nearest integer, halves rounded up. *)
Definition Math_round (x : Q) : Z := Qfloor (x + (1 # 2)).

Definition pushCapped (history : list TheaterActivity.t)
  (activity : TheaterActivity.t) : list TheaterActivity.t :=
  let history := history ++ [activity] in
  if (200 <? List.length history)%nat then tl history else history.

Definition recordActivity (theaterId : string) (activity : TheaterActivity.t)
  : M unit :=
  history <- gets (historyOf theaterId) ;;
  modify (fun s =>
    State.with_activityHistory
      (JSMap.set theaterId (pushCapped history activity)
         (State.activityHistory s)) s).

(* Allocation of a fresh alert object. *)
Definition newObject (alert : SurgeAlert.t) : M loc :=
  fun s => (List.length (State.alertStore s),
            State.with_alertStore (State.alertStore s ++ [alert]) s).

Definition refreshAirlift (transportCount : Z) (surgeMultiple : Q)
  (aircraftTypes : JSMap.t Z) (nearbyBases : list string) (lastUpdated : Z)
  (existing : SurgeAlert.t) : SurgeAlert.t :=
  SurgeAlert.mk
    (SurgeAlert.id existing) (SurgeAlert.theater existing)
    (SurgeAlert.type existing)
    transportCount
    (SurgeAlert.baselineCount existing)
    surgeMultiple aircraftTypes nearbyBases
    (SurgeAlert.firstDetected existing)
    lastUpdated.

Definition airliftTriggers (transportCount : Z) (baseline : Baseline.t) : bool :=
  Qle_bool (Baseline.transport baseline * SURGE_THRESHOLD)
           (inject_Z transportCount)
  && (5 <=? transportCount).

Definition fighterTriggers (fighterCount : Z) (baseline : Baseline.t) : bool :=
  Qle_bool (Baseline.fighter baseline * SURGE_THRESHOLD)
           (inject_Z fighterCount)
  && (4 <=? fighterCount).

(* The airlift block of the per-theater loop body. *)
Definition airliftSurge (theater : MilitaryTheater.t) (theaterId : string)
  (tally : Tally.t) (baseline : Baseline.t) (newAlerts : list loc)
  : M (list loc) :=
  let transportCount := Tally.transportCount tally in
  if airliftTriggers transportCount baseline then
    let surgeId := ("airlift-" ++ theaterId)%string in
    let surgeMultiple :=
      (inject_Z transportCount / Baseline.transport baseline)%Q in
    existing <- gets (fun s => JSMap.get surgeId (State.activeSurges s)) ;;
    match existing with
    | Some existing =>
        lastUpdated <- Date_now ;;
        modify (fun s =>
          State.with_alertStore
            (store_update existing
               (refreshAirlift transportCount surgeMultiple
                  (Tally.aircraftTypes tally) (Tally.nearbyBasesSet tally)
                  lastUpdated)
               (State.alertStore s)) s) ;;;
        ret newAlerts
    | None =>
        firstDetected <- Date_now ;;
        lastUpdated <- Date_now ;;
        alert <- newObject
          (SurgeAlert.mk surgeId theater airlift transportCount
             (Math_round (Baseline.transport baseline)) surgeMultiple
             (Tally.aircraftTypes tally) (Tally.nearbyBasesSet tally)
             firstDetected lastUpdated) ;;
        modify (fun s =>
          State.with_activeSurges
            (JSMap.set surgeId alert (State.activeSurges s)) s) ;;;
        ret (newAlerts ++ [alert])
    end
  else ret newAlerts.

(* The fighter block of the per-theater loop body. *)
Definition fighterSurge (theater : MilitaryTheater.t) (theaterId : string)
  (tally : Tally.t) (baseline : Baseline.t) (newAlerts : list loc)
  : M (list loc) :=
  let fighterCount := Tally.fighterCount tally in
  if fighterTriggers fighterCount baseline then
    let surgeId := ("fighter-" ++ theaterId)%string in
    let surgeMultiple :=
      (inject_Z fighterCount / Baseline.fighter baseline)%Q in
    present <- gets (fun s => JSMap.has surgeId (State.activeSurges s)) ;;
    if negb present then
      firstDetected <- Date_now ;;
      lastUpdated <- Date_now ;;
      alert <- newObject
        (SurgeAlert.mk surgeId theater fighter fighterCount
           (Math_round (Baseline.fighter baseline)) surgeMultiple
           (Tally.aircraftTypes tally) (Tally.nearbyBasesSet tally)
           firstDetected lastUpdated) ;;
      modify (fun s =>
        State.with_activeSurges
          (JSMap.set surgeId alert (State.activeSurges s)) s) ;;;
      ret (newAlerts ++ [alert])
    else ret newAlerts
  else ret newAlerts.

(* The [activity] snapshot of one theater in one cycle. *)
Definition activityOf (now : Z) (theaterId : string)
  (theaterFlightList : list MilitaryFlight.t) : TheaterActivity.t :=
  let tally := tallyFlights theaterFlightList in
  TheaterActivity.mk theaterId now
    (Tally.transportCount tally) (Tally.fighterCount tally)
    (Tally.reconCount tally)
    (Z.of_nat (List.length theaterFlightList))
    (map MilitaryFlight.id theaterFlightList).

(* Body of the loop over [theaterFlights]. *)
Definition analyzeTheater (now : Z) (newAlerts : list loc)
  (entry : string * list MilitaryFlight.t) : M (list loc) :=
  let '(theaterId, theaterFlightList) := entry in
  match find (fun t => String.eqb (MilitaryTheater.id t) theaterId) THEATERS with
  | None => ret newAlerts
  | Some theater =>
      let tally := tallyFlights theaterFlightList in
      let activity := activityOf now theaterId theaterFlightList in
      recordActivity theaterId activity ;;;
      baseline <- calculateBaseline theaterId ;;
      newAlerts <- airliftSurge theater theaterId tally baseline newAlerts ;;
      fighterSurge theater theaterId tally baseline newAlerts
  end.

Definition analyzeFlightsForSurge (flights : list MilitaryFlight.t)
  : M (list loc) :=
  cleanupOldHistory ;;;
  let theaterFlights := groupFlights flights in
  now <- Date_now ;;
  foldM (analyzeTheater now) theaterFlights [].

(* The queries return references to the stored alert objects. *)
Definition getActiveSurges (s : State.t) : list loc :=
  JSMap.values (State.activeSurges s).

Definition getTheaterActivity (theaterId : string) (s : State.t)
  : list TheaterActivity.t :=
  historyOf theaterId s.

Definition deref (s : State.t) (l : loc) : option SurgeAlert.t :=
  nth_error (State.alertStore s) l.

(* Module load: empty maps, [lastCleanup = Date.now()]. *)
Definition initialState : State.t :=
  State.mk JSMap.empty JSMap.empty [] (wallClock 0) 1.

(** ** Vocabulary of the specification *)

(* The arithmetic mean of one category over a list of samples. *)
Definition arithmeticMean (f : TheaterActivity.t -> Z)
  (samples : list TheaterActivity.t) : Q :=
  (inject_Z (fold_right Z.add 0%Z (map f samples))
   / inject_Z (Z.of_nat (List.length samples)))%Q.

(* The samples of a history that fall in the trailing 48-hour window. *)
Definition inBaselineWindow (now : Z) (history : list TheaterActivity.t)
  : list TheaterActivity.t :=
  filter (fun h => now - 172800000 <=? TheaterActivity.timestamp h) history.

(* The states the process can be in: module load, then any number of
   analysis cycles (cleanup is also a step of its own). *)
Inductive Reachable : State.t -> Prop :=
| reach_init : Reachable initialState
| reach_analyze s flights :
    Reachable s -> Reachable (snd (analyzeFlightsForSurge flights s))
| reach_cleanup s :
    Reachable s -> Reachable (snd (cleanupOldHistory s)).

(* The key under which an alert is registered, from its type and theater. *)
Definition keyOf (a : SurgeAlert.t) : option string :=
  match SurgeAlert.type a with
  | airlift =>
      Some ("airlift-" ++ MilitaryTheater.id (SurgeAlert.theater a))%string
  | fighter =>
      Some ("fighter-" ++ MilitaryTheater.id (SurgeAlert.theater a))%string
  | reconnaissance => None
  end.

(* Every registered reference points to an alert object that carries the
   key it is registered under; both maps are well-formed Maps. *)
Definition Inv (s : State.t) : Prop :=
  JSMap.wf (State.activeSurges s) /\
  JSMap.wf (State.activityHistory s) /\
  forall k l, JSMap.get k (State.activeSurges s) = Some l ->
    exists a, deref s l = Some a /\ keyOf a = Some k /\ SurgeAlert.id a = k.

(* What one analysis cycle, or a part of it, does to the alert state when
   it goes from [(newAlerts, s)] to [(newAlerts', s')]: objects are only
   added, the returned list grows by exactly the added objects, existing
   registrations stay and every added object is registered. *)
Definition Grows (x y : list loc * State.t) : Prop :=
  let n := List.length (State.alertStore (snd x)) in
  let n' := List.length (State.alertStore (snd y)) in
  State.lastCleanup (snd y) = State.lastCleanup (snd x) /\
  (n <= n')%nat /\
  fst y = fst x ++ seq n (n' - n) /\
  (forall k l, JSMap.get k (State.activeSurges (snd x)) = Some l ->
               JSMap.get k (State.activeSurges (snd y)) = Some l) /\
  (forall l, (n <= l < n')%nat ->
             exists k, JSMap.get k (State.activeSurges (snd y)) = Some l).

Definition knownTheater (theaterId : string) : bool :=
  match find (fun t => String.eqb (MilitaryTheater.id t) theaterId)
          THEATERS with
  | Some _ => true
  | None => false
  end.

(* A part of a cycle keeps the invariant and leaves every fighter alert
   object as it is. *)
Definition Stable (x y : list loc * State.t) : Prop :=
  Inv (snd x) ->
  Inv (snd y) /\
  forall l a, deref (snd x) l = Some a -> SurgeAlert.type a = fighter ->
              deref (snd y) l = Some a.

Definition HistBound (s : State.t) : Prop :=
  forall theaterId, (List.length (historyOf theaterId s) <= 200)%nat.

(* At most one active alert per (type, theater): two positions of the
   active-alert query that hold alerts of the same type and theater are the
   same position. *)
Definition AtMostOnePerKey (s : State.t) : Prop :=
  forall i j li lj ai aj,
    nth_error (getActiveSurges s) i = Some li ->
    nth_error (getActiveSurges s) j = Some lj ->
    deref s li = Some ai -> deref s lj = Some aj ->
    SurgeAlert.type ai = SurgeAlert.type aj ->
    MilitaryTheater.id (SurgeAlert.theater ai)
      = MilitaryTheater.id (SurgeAlert.theater aj) ->
    i = j.

(* The capped append of the specification: append, and drop the oldest
   entry when the history was already full. *)
Definition appendCapped (history : list TheaterActivity.t)
  (snapshot : TheaterActivity.t) : list TheaterActivity.t :=
  if (List.length history <? 200)%nat then history ++ [snapshot]
  else tl (history ++ [snapshot]).

(* Vocabulary of the theater-resolution claims. *)
Definition distanceTo (flight : MilitaryFlight.t) (base : MilitaryBase.t) : Q :=
  distanceKm (MilitaryFlight.lat flight) (MilitaryFlight.lon flight)
    (MilitaryBase.lat base) (MilitaryBase.lon base).

Definition centerDistance (flight : MilitaryFlight.t)
  (theater : MilitaryTheater.t) : Q :=
  distanceKm (MilitaryFlight.lat flight) (MilitaryFlight.lon flight)
    (MilitaryTheater.centerLat theater) (MilitaryTheater.centerLon theater).

(* The base is in the catalog and within the 150 km radius of the flight. *)
Definition nearBase (flight : MilitaryFlight.t) (base : MilitaryBase.t)
  : Prop :=
  In base MILITARY_BASES_EXPANDED /\ (distanceTo flight base <= 150)%Q.

(* The base belongs to the theater. *)
Definition belongsTo (base : MilitaryBase.t) (theater : MilitaryTheater.t)
  : Prop :=
  In theater THEATERS
  /\ In (MilitaryBase.id base) (MilitaryTheater.baseIds theater).

Definition byDistance (a b : NearbyBase.t) : Prop :=
  (NearbyBase.distance a <= NearbyBase.distance b)%Q.

(** ** Vocabulary of the further properties *)

(* The flight resolves to the theater with this id. *)
Definition resolvesTo (theaterId : string) (flight : MilitaryFlight.t) : bool :=
  match getTheaterForFlight flight with
  | Some theater => String.eqb (MilitaryTheater.id theater) theaterId
  | None => false
  end.

(* The catalog entries within the proximity radius, in catalog order. *)
Definition basesInRadius (lat lon : Q) : list NearbyBase.t :=
  filter (fun nb => Qle_bool (NearbyBase.distance nb) 150)
         (map (nearbyOf lat lon) MILITARY_BASES_EXPANDED).

(* The string begins with one of the airlift prefixes, in whatever case
   its ASCII letters are. *)
Definition matchesAirliftCallsign (s : string) : Prop :=
  exists p lead rest,
    In p TRANSPORT_CALLSIGN_PATTERNS /\
    s = (lead ++ rest)%string /\ canonicalize lead = p.

Definition sameClass (a b : Classification) : bool :=
  match a, b with
  | transport, transport | fighter_class, fighter_class
  | recon, recon | other, other => true
  | _, _ => false
  end.

(* The number of flights of a list with a given classification, and with a
   given histogram key. *)
Definition countOf (c : Classification) (flights : list MilitaryFlight.t) : Z :=
  Z.of_nat
    (List.length (filter (fun f => sameClass (classifyFlight f) c) flights)).

Definition countKey (typeKey : string) (flights : list MilitaryFlight.t) : Z :=
  Z.of_nat
    (List.length (filter (fun f => String.eqb (typeKeyOf f) typeKey) flights)).

Definition histogramTotal (m : JSMap.t Z) : Z :=
  fold_right Z.add 0 (JSMap.values m).

(* The tiers of the formatter in ascending order. *)
Definition severityRank (s : Severity) : Z :=
  match s with
  | low => 0
  | medium => 1
  | high => 2
  | critical => 3
  end.

Fixpoint hasChar (c : ascii) (s : string) : bool :=
  match s with
  | EmptyString => false
  | String c' s' => Ascii.eqb c c' || hasChar c s'
  end.

(* What holds of every alert object the detector ever creates. *)
Definition AlertSound (a : SurgeAlert.t) : Prop :=
  In (SurgeAlert.theater a) THEATERS /\
  (2 <= SurgeAlert.surgeMultiple a)%Q /\
  ((SurgeAlert.type a = airlift /\
    SurgeAlert.id a
    = ("airlift-" ++ MilitaryTheater.id (SurgeAlert.theater a))%string /\
    5 <= SurgeAlert.currentCount a /\ 2 <= SurgeAlert.baselineCount a)
   \/
   (SurgeAlert.type a = fighter /\
    SurgeAlert.id a
    = ("fighter-" ++ MilitaryTheater.id (SurgeAlert.theater a))%string /\
    4 <= SurgeAlert.currentCount a /\ 1 <= SurgeAlert.baselineCount a)).

Definition StoreSound (s : State.t) : Prop :=
  Forall AlertSound (State.alertStore s).

Definition KeepsSound (x y : list loc * State.t) : Prop :=
  StoreSound (snd x) -> StoreSound (snd y).

(* The wall clock never goes back. *)
Definition monotoneClock : Prop :=
  forall i j, (i <= j)%nat -> wallClock i <= wallClock j.

(* The value is one of the first [n] clock readings of the process. *)
Definition readBefore (n : nat) (t : Z) : Prop :=
  exists i, (i < n)%nat /\ t = wallClock i.

Definition byTimestamp (a b : TheaterActivity.t) : Prop :=
  TheaterActivity.timestamp a <= TheaterActivity.timestamp b.

(* Every history is in timestamp order and stamped with one of the first
   [n] clock readings. *)
Definition HistTimed (n : nat) (s : State.t) : Prop :=
  forall theaterId,
    StronglySorted byTimestamp (historyOf theaterId s) /\
    Forall (fun h => readBefore n (TheaterActivity.timestamp h))
           (historyOf theaterId s).

(* Every alert object was first detected at a clock reading that is not
   later, in reading order, than the reading of its last update. *)
Definition AlertTimed (n : nat) (a : SurgeAlert.t) : Prop :=
  exists i j, (i <= j)%nat /\ (j < n)%nat /\
              SurgeAlert.firstDetected a = wallClock i /\
              SurgeAlert.lastUpdated a = wallClock j.

Definition StoreTimed (x y : list loc * State.t) : Prop :=
  (State.clockReads (snd x) <= State.clockReads (snd y))%nat /\
  (Forall (AlertTimed (State.clockReads (snd x))) (State.alertStore (snd x)) ->
   Forall (AlertTimed (State.clockReads (snd y))) (State.alertStore (snd y))).

(* The object at [l] is registered under no key. *)
Definition unregistered (s : State.t) (l : loc) : Prop :=
  forall k, JSMap.get k (State.activeSurges s) <> Some l.

(* A part of a cycle leaves every unregistered alert object unregistered
   and as it is. *)
Definition Frozen (x y : list loc * State.t) : Prop :=
  forall l a, deref (snd x) l = Some a -> unregistered (snd x) l ->
              deref (snd y) l = Some a /\ unregistered (snd y) l.

(* The ten keys an alert can be registered under. *)
Definition alertKeys : list string :=
  map (fun t => ("airlift-" ++ MilitaryTheater.id t)%string) THEATERS
  ++ map (fun t => ("fighter-" ++ MilitaryTheater.id t)%string) THEATERS.

Definition HistKeys (s : State.t) : Prop :=
  forall k, In k (JSMap.keys (State.activityHistory s)) ->
            In k (map MilitaryTheater.id THEATERS).

Definition KeepsHistKeys (x y : list loc * State.t) : Prop :=
  HistKeys (snd x) -> HistKeys (snd y).

(** * Properties *)

(** ** Facts about [JSMap] *)

Section JSMapFacts.
Context {V : Type}.
Implicit Types (m : JSMap.t V) (k : string) (v : V).

Lemma JSMap_get_set_eq k v m : JSMap.get k (JSMap.set k v m) = Some v.
Proof.
  induction m as [|[k' v'] m IH]; simpl.
  - now rewrite String.eqb_refl.
  - destruct (String.eqb k k') eqn:E; simpl; rewrite E; auto.
Qed.

Lemma JSMap_get_set_neq k k' v m :
  k <> k' -> JSMap.get k' (JSMap.set k v m) = JSMap.get k' m.
Proof.
  intros Hne. induction m as [|[k0 v0] m IH]; simpl.
  - destruct (String.eqb k' k) eqn:E; auto.
    apply String.eqb_eq in E. congruence.
  - destruct (String.eqb k k0) eqn:E; simpl.
    + apply String.eqb_eq in E. subst k0.
      destruct (String.eqb k' k) eqn:E'; auto.
      apply String.eqb_eq in E'. congruence.
    + now rewrite IH.
Qed.

Lemma JSMap_get_delete_neq k k' m :
  k <> k' -> JSMap.get k' (JSMap.delete k m) = JSMap.get k' m.
Proof.
  intros Hne. induction m as [|[k0 v0] m IH]; simpl; auto.
  destruct (String.eqb k k0) eqn:E; simpl.
  - apply String.eqb_eq in E. subst k0.
    destruct (String.eqb k' k) eqn:E'; auto.
    apply String.eqb_eq in E'. congruence.
  - now rewrite IH.
Qed.

Lemma JSMap_get_None k m :
  JSMap.get k m = None <-> ~ In k (JSMap.keys m).
Proof.
  induction m as [|[k0 v0] m IH]; simpl.
  - tauto.
  - destruct (String.eqb k k0) eqn:E.
    + apply String.eqb_eq in E. subst. split; [discriminate | tauto].
    + apply String.eqb_neq in E. rewrite IH. split.
      * intros H [H'|H']; [congruence | tauto].
      * tauto.
Qed.

Lemma JSMap_get_Some_In k v m :
  JSMap.get k m = Some v -> In (k, v) m.
Proof.
  induction m as [|[k0 v0] m IH]; simpl; [discriminate|].
  destruct (String.eqb k k0) eqn:E.
  - apply String.eqb_eq in E. intros [= ->]. subst. now left.
  - auto.
Qed.

Lemma JSMap_In_get k v m :
  JSMap.wf m -> In (k, v) m -> JSMap.get k m = Some v.
Proof.
  unfold JSMap.wf.
  induction m as [|[k0 v0] m IH]; simpl; [tauto|].
  intros Hnd [H|H].
  - injection H as -> ->. now rewrite String.eqb_refl.
  - inversion Hnd as [|? ? Hnotin Hnd']; subst.
    destruct (String.eqb k k0) eqn:E; auto.
    apply String.eqb_eq in E. subst k0. exfalso. apply Hnotin.
    change (In (fst (k, v)) (map fst m)). now apply in_map.
Qed.

Lemma JSMap_keys_delete_incl k k' m :
  In k' (JSMap.keys (JSMap.delete k m)) -> In k' (JSMap.keys m).
Proof.
  induction m as [|[k0 v0] m IH]; simpl; auto.
  destruct (String.eqb k k0); simpl; tauto.
Qed.

Lemma JSMap_wf_delete k m : JSMap.wf m -> JSMap.wf (JSMap.delete k m).
Proof.
  unfold JSMap.wf.
  induction m as [|[k0 v0] m IH]; simpl; auto.
  intros Hnd. inversion Hnd as [|? ? Hnotin Hnd']; subst.
  destruct (String.eqb k k0); simpl; auto.
  constructor; auto.
  intros Hin. apply Hnotin. eapply JSMap_keys_delete_incl; eauto.
Qed.

Lemma JSMap_get_delete_eq k m :
  JSMap.wf m -> JSMap.get k (JSMap.delete k m) = None.
Proof.
  unfold JSMap.wf.
  induction m as [|[k0 v0] m IH]; simpl; auto.
  intros Hnd. inversion Hnd as [|? ? Hnotin Hnd']; subst.
  destruct (String.eqb k k0) eqn:E; simpl.
  - apply String.eqb_eq in E. subst k0. now apply JSMap_get_None.
  - rewrite E. auto.
Qed.

Lemma JSMap_keys_set k v m :
  JSMap.keys (JSMap.set k v m) =
  if JSMap.has k m then JSMap.keys m else JSMap.keys m ++ [k].
Proof.
  unfold JSMap.has.
  induction m as [|[k0 v0] m IH]; simpl; auto.
  destruct (String.eqb k k0) eqn:E; simpl; auto.
  rewrite IH. now destruct (JSMap.get k m).
Qed.

Lemma JSMap_wf_set k v m : JSMap.wf m -> JSMap.wf (JSMap.set k v m).
Proof.
  unfold JSMap.wf. intros Hnd. rewrite JSMap_keys_set.
  unfold JSMap.has. destruct (JSMap.get k m) eqn:E; auto.
  apply JSMap_get_None in E.
  apply NoDup_rev in Hnd.
  rewrite <- (rev_involutive (JSMap.keys m ++ [k])).
  apply NoDup_rev. rewrite rev_app_distr. simpl.
  constructor; auto. now rewrite <- in_rev.
Qed.

Lemma JSMap_has_true k m :
  JSMap.has k m = true <-> exists v, JSMap.get k m = Some v.
Proof.
  unfold JSMap.has. destruct (JSMap.get k m).
  - split; eauto.
  - split; [discriminate | intros [? ?]; discriminate].
Qed.
End JSMapFacts.

(** ** Numbers *)

Lemma Math_max_lower (a b : Q) : (a <= Math_max a b)%Q.
Proof.
  unfold Math_max. destruct (Qle_bool a b) eqn:E.
  - now apply Qle_bool_iff.
  - apply Qle_refl.
Qed.

Lemma Math_max_Qmax (a b : Q) : (Math_max a b == Qmax a b)%Q.
Proof.
  unfold Math_max. destruct (Qle_bool a b) eqn:E.
  - apply Qle_bool_iff in E. symmetry. now apply Q.max_r.
  - symmetry. apply Q.max_l. apply Qlt_le_weak. apply Qnot_le_lt.
    intros H. apply Qle_bool_iff in H. congruence.
Qed.

Lemma Math_min_Qmin (a b : Q) : (Math_min a b == Qmin a b)%Q.
Proof.
  unfold Math_min. destruct (Qle_bool a b) eqn:E.
  - apply Qle_bool_iff in E. symmetry. now apply Q.min_l.
  - symmetry. apply Q.min_r. apply Qlt_le_weak. apply Qnot_le_lt.
    intros H. apply Qle_bool_iff in H. congruence.
Qed.

Lemma sumBy_acc (f : TheaterActivity.t -> Z) (l : list TheaterActivity.t)
  (acc : Z) :
  fold_left (fun sum h => sum + f h) l acc
  = acc + fold_right Z.add 0 (map f l).
Proof.
  revert acc. induction l as [|h l IH]; intros acc; simpl.
  - lia.
  - rewrite IH. lia.
Qed.

Lemma sumBy_sum (f : TheaterActivity.t -> Z) (l : list TheaterActivity.t) :
  sumBy f l = fold_right Z.add 0 (map f l).
Proof. unfold sumBy. now rewrite sumBy_acc. Qed.

(** ** The signal formatter *)

(** C9: the formatter is a function of the alert alone; it assigns severity
    critical when surgeMultiple >= 4, high when surgeMultiple >= 3 (and
    below 4), medium otherwise, and confidence
    min(0.95, 0.6 + (surgeMultiple - 2) * 0.1); a multiple of 2 gives
    medium and 0.6, a multiple of 4 gives critical and 0.8. *)
Theorem surgeAlertToSignal_severity_confidence (surge : SurgeAlert.t) :
  let m := SurgeAlert.surgeMultiple surge in
  let signal := surgeAlertToSignal surge in
  ((4 <= m)%Q -> Signal.severity signal = critical) /\
  ((3 <= m)%Q -> (m < 4)%Q -> Signal.severity signal = high) /\
  ((m < 3)%Q -> Signal.severity signal = medium) /\
  (Signal.confidence signal == Qmin 0.95 (0.6 + (m - 2) * 0.1))%Q /\
  ((m == 2)%Q ->
     Signal.severity signal = medium /\ (Signal.confidence signal == 0.6)%Q) /\
  ((m == 4)%Q ->
     Signal.severity signal = critical /\ (Signal.confidence signal == 0.8)%Q).
Proof.
  intros m signal. subst signal. simpl. fold m.
  assert (Hsev4 : (4 <= m)%Q -> severityOf m = critical).
  { intros H. unfold severityOf. apply Qle_bool_iff in H. now rewrite H. }
  assert (Hsev2 : (m < 3)%Q -> severityOf m = medium).
  { intros H. unfold severityOf.
    destruct (Qle_bool 4 m) eqn:E4.
    - apply Qle_bool_iff in E4. lra.
    - destruct (Qle_bool 3 m) eqn:E3; auto.
      apply Qle_bool_iff in E3. lra. }
  assert (Hconf : (confidenceOf m == Qmin 0.95 (0.6 + (m - 2) * 0.1))%Q).
  { unfold confidenceOf. apply Math_min_Qmin. }
  repeat split; auto.
  - intros H3 H4. unfold severityOf.
    destruct (Qle_bool 4 m) eqn:E4.
    + apply Qle_bool_iff in E4. lra.
    + apply Qle_bool_iff in H3. now rewrite H3.
  - apply Hsev2. lra.
  - rewrite Hconf. rewrite Q.min_r; lra.
  - apply Hsev4. lra.
  - rewrite Hconf. rewrite Q.min_r; lra.
Qed.

(** ** The baseline estimator *)

Lemma calculateBaseline_run (theaterId : string) (s : State.t) :
  calculateBaseline theaterId s
  = (baselineOf (wallClock (State.clockReads s)) (historyOf theaterId s),
     State.with_clockReads (S (State.clockReads s)) s).
Proof. reflexivity. Qed.

Lemma baselineOf_floor (now : Z) (history : list TheaterActivity.t) :
  (2 <= Baseline.transport (baselineOf now history))%Q /\
  (1 <= Baseline.fighter (baselineOf now history))%Q /\
  (1 <= Baseline.recon (baselineOf now history))%Q.
Proof.
  unfold baselineOf.
  destruct (Nat.ltb _ _); simpl.
  - repeat split; lra.
  - repeat split; apply Math_max_lower.
Qed.

(** C2: the baseline of a theater is computed from the samples of its
    history in the trailing 48-hour window: with fewer than 6 of them it is
    the default (3, 2, 1); otherwise it is, per category, the arithmetic
    mean over those samples floored at 2, 1 and 1.  In both cases the
    result is at least (2, 1, 1). *)
Theorem calculateBaseline_spec (theaterId : string) (s : State.t) :
  let now := wallClock (State.clockReads s) in
  let window := inBaselineWindow now (getTheaterActivity theaterId s) in
  let b := fst (calculateBaseline theaterId s) in
  ((List.length window < 6)%nat -> b = Baseline.mk 3 2 1) /\
  ((6 <= List.length window)%nat ->
     (Baseline.transport b
      == Qmax 2 (arithmeticMean TheaterActivity.transportCount window))%Q /\
     (Baseline.fighter b
      == Qmax 1 (arithmeticMean TheaterActivity.fighterCount window))%Q /\
     (Baseline.recon b
      == Qmax 1 (arithmeticMean TheaterActivity.reconCount window))%Q) /\
  ((2 <= Baseline.transport b)%Q /\ (1 <= Baseline.fighter b)%Q /\
   (1 <= Baseline.recon b)%Q).
Proof.
  intros now window b. subst b. rewrite calculateBaseline_run. simpl fst.
  fold now. split; [|split].
  - intros Hlt. unfold baselineOf.
    change (filter _ (historyOf theaterId s)) with window.
    apply Nat.ltb_lt in Hlt. unfold BASELINE_MIN_SAMPLES. now rewrite Hlt.
  - intros Hge. unfold baselineOf.
    change (filter _ (historyOf theaterId s)) with window.
    apply Nat.ltb_ge in Hge. unfold BASELINE_MIN_SAMPLES. rewrite Hge.
    simpl. rewrite !sumBy_sum. repeat split; apply Math_max_Qmax.
  - apply baselineOf_floor.
Qed.

(** ** The store of alert objects *)

Lemma store_update_length (l : loc) f (store : list SurgeAlert.t) :
  List.length (store_update l f store) = List.length store.
Proof.
  revert l. induction store as [|a store IH]; intros [|l]; simpl; auto.
Qed.

Lemma store_update_same (l : loc) f (store : list SurgeAlert.t) a :
  nth_error store l = Some a ->
  nth_error (store_update l f store) l = Some (f a).
Proof.
  revert l. induction store as [|a0 store IH]; intros [|l]; simpl;
    try discriminate.
  - now intros [= ->].
  - apply IH.
Qed.

Lemma store_update_other (l l' : loc) f (store : list SurgeAlert.t) :
  l <> l' -> nth_error (store_update l f store) l' = nth_error store l'.
Proof.
  revert l l'. induction store as [|a0 store IH]; intros [|l] [|l'] Hne;
    simpl; auto; try congruence.
Qed.

Lemma store_update_dangling (l : loc) f (store : list SurgeAlert.t) :
  nth_error store l = None -> store_update l f store = store.
Proof.
  revert l. induction store as [|a0 store IH]; intros [|l]; simpl; auto;
    try discriminate.
  intros H. now rewrite IH.
Qed.

Lemma nth_error_snoc_old {A} (l : list A) (x : A) (n : nat) :
  (n < List.length l)%nat -> nth_error (l ++ [x]) n = nth_error l n.
Proof. intros H. now rewrite nth_error_app1. Qed.

Lemma nth_error_snoc_new {A} (l : list A) (x : A) :
  nth_error (l ++ [x]) (List.length l) = Some x.
Proof. rewrite nth_error_app2, Nat.sub_diag by lia. reflexivity. Qed.

(** ** The two surge blocks, path by path *)

Section Blocks.
Variables (theater : MilitaryTheater.t) (theaterId : string)
          (tally : Tally.t) (baseline : Baseline.t)
          (newAlerts : list loc) (s : State.t).

Lemma airliftSurge_idle :
  airliftTriggers (Tally.transportCount tally) baseline = false ->
  airliftSurge theater theaterId tally baseline newAlerts s = (newAlerts, s).
Proof. intros H. unfold airliftSurge. now rewrite H. Qed.

Lemma airliftSurge_refresh (existing : loc) :
  airliftTriggers (Tally.transportCount tally) baseline = true ->
  JSMap.get ("airlift-" ++ theaterId)%string (State.activeSurges s)
    = Some existing ->
  airliftSurge theater theaterId tally baseline newAlerts s
  = (newAlerts,
     State.mk (State.activityHistory s) (State.activeSurges s)
       (store_update existing
          (refreshAirlift (Tally.transportCount tally)
             (inject_Z (Tally.transportCount tally)
              / Baseline.transport baseline)%Q
             (Tally.aircraftTypes tally) (Tally.nearbyBasesSet tally)
             (wallClock (State.clockReads s)))
          (State.alertStore s))
       (State.lastCleanup s) (S (State.clockReads s))).
Proof.
  intros H Hget. unfold airliftSurge. rewrite H.
  unfold bind, gets. rewrite Hget. reflexivity.
Qed.

Lemma airliftSurge_create :
  airliftTriggers (Tally.transportCount tally) baseline = true ->
  JSMap.get ("airlift-" ++ theaterId)%string (State.activeSurges s) = None ->
  airliftSurge theater theaterId tally baseline newAlerts s
  = (newAlerts ++ [List.length (State.alertStore s)],
     State.mk (State.activityHistory s)
       (JSMap.set ("airlift-" ++ theaterId)%string
          (List.length (State.alertStore s)) (State.activeSurges s))
       (State.alertStore s
        ++ [SurgeAlert.mk ("airlift-" ++ theaterId)%string theater airlift
              (Tally.transportCount tally)
              (Math_round (Baseline.transport baseline))
              (inject_Z (Tally.transportCount tally)
               / Baseline.transport baseline)%Q
              (Tally.aircraftTypes tally) (Tally.nearbyBasesSet tally)
              (wallClock (State.clockReads s))
              (wallClock (S (State.clockReads s)))])
       (State.lastCleanup s) (S (S (State.clockReads s)))).
Proof.
  intros H Hget. unfold airliftSurge. rewrite H.
  unfold bind, gets. rewrite Hget. reflexivity.
Qed.

Lemma fighterSurge_idle :
  fighterTriggers (Tally.fighterCount tally) baseline = false ->
  fighterSurge theater theaterId tally baseline newAlerts s = (newAlerts, s).
Proof. intros H. unfold fighterSurge. now rewrite H. Qed.

Lemma fighterSurge_present (existing : loc) :
  JSMap.get ("fighter-" ++ theaterId)%string (State.activeSurges s)
    = Some existing ->
  fighterSurge theater theaterId tally baseline newAlerts s = (newAlerts, s).
Proof.
  intros Hget. unfold fighterSurge.
  destruct (fighterTriggers _ _); auto.
  unfold bind, gets, JSMap.has. now rewrite Hget.
Qed.

Lemma fighterSurge_create :
  fighterTriggers (Tally.fighterCount tally) baseline = true ->
  JSMap.get ("fighter-" ++ theaterId)%string (State.activeSurges s) = None ->
  fighterSurge theater theaterId tally baseline newAlerts s
  = (newAlerts ++ [List.length (State.alertStore s)],
     State.mk (State.activityHistory s)
       (JSMap.set ("fighter-" ++ theaterId)%string
          (List.length (State.alertStore s)) (State.activeSurges s))
       (State.alertStore s
        ++ [SurgeAlert.mk ("fighter-" ++ theaterId)%string theater fighter
              (Tally.fighterCount tally)
              (Math_round (Baseline.fighter baseline))
              (inject_Z (Tally.fighterCount tally)
               / Baseline.fighter baseline)%Q
              (Tally.aircraftTypes tally) (Tally.nearbyBasesSet tally)
              (wallClock (State.clockReads s))
              (wallClock (S (State.clockReads s)))])
       (State.lastCleanup s) (S (S (State.clockReads s)))).
Proof.
  intros H Hget. unfold fighterSurge. rewrite H.
  unfold bind, gets, JSMap.has. rewrite Hget. reflexivity.
Qed.
End Blocks.

Lemma airliftTriggers_iff (transportCount : Z) (baseline : Baseline.t) :
  airliftTriggers transportCount baseline = true <->
  (Baseline.transport baseline * 2 <= inject_Z transportCount)%Q
  /\ 5 <= transportCount.
Proof.
  unfold airliftTriggers, SURGE_THRESHOLD.
  rewrite andb_true_iff, Qle_bool_iff, Z.leb_le. tauto.
Qed.

Lemma fighterTriggers_iff (fighterCount : Z) (baseline : Baseline.t) :
  fighterTriggers fighterCount baseline = true <->
  (Baseline.fighter baseline * 2 <= inject_Z fighterCount)%Q
  /\ 4 <= fighterCount.
Proof.
  unfold fighterTriggers, SURGE_THRESHOLD.
  rewrite andb_true_iff, Qle_bool_iff, Z.leb_le. tauto.
Qed.

(** C10: when the airlift block refreshes an existing alert, the alert's
    id, theater, type, first-detected time and baselineCount keep their
    values; currentCount, surgeMultiple, aircraftTypes, nearbyBases and
    lastUpdated are rewritten, the new multiple being the count divided by
    the baseline of the current cycle. *)
Theorem airlift_refresh_frame
  (theater : MilitaryTheater.t) (theaterId : string) (tally : Tally.t)
  (baseline : Baseline.t) (newAlerts : list loc) (s : State.t)
  (existing : loc) (old : SurgeAlert.t) :
  airliftTriggers (Tally.transportCount tally) baseline = true ->
  JSMap.get ("airlift-" ++ theaterId)%string (State.activeSurges s)
    = Some existing ->
  deref s existing = Some old ->
  let s' := snd (airliftSurge theater theaterId tally baseline newAlerts s) in
  exists new,
    deref s' existing = Some new /\
    SurgeAlert.id new = SurgeAlert.id old /\
    SurgeAlert.theater new = SurgeAlert.theater old /\
    SurgeAlert.type new = SurgeAlert.type old /\
    SurgeAlert.firstDetected new = SurgeAlert.firstDetected old /\
    SurgeAlert.baselineCount new = SurgeAlert.baselineCount old /\
    SurgeAlert.currentCount new = Tally.transportCount tally /\
    SurgeAlert.surgeMultiple new
      = (inject_Z (Tally.transportCount tally)
         / Baseline.transport baseline)%Q /\
    SurgeAlert.aircraftTypes new = Tally.aircraftTypes tally /\
    SurgeAlert.nearbyBases new = Tally.nearbyBasesSet tally /\
    SurgeAlert.lastUpdated new = wallClock (State.clockReads s).
Proof.
  intros Htrig Hget Hold s'. subst s'.
  rewrite (airliftSurge_refresh _ _ _ _ _ _ existing Htrig Hget).
  unfold deref in *. simpl.
  eexists. split.
  - apply store_update_same. exact Hold.
  - simpl. repeat split; reflexivity.
Qed.

(** ** Loops *)

Lemma foldM_rel {A B} (f : A -> B -> M A)
  (R : A * State.t -> A * State.t -> Prop) (l : list B) :
  (forall x, R x x) ->
  (forall x y z, R x y -> R y z -> R x z) ->
  (forall a b s, In b l -> R (a, s) (f a b s)) ->
  forall a s, R (a, s) (foldM f l a s).
Proof.
  intros Hrefl Htrans. induction l as [|b l IH]; intros Hstep a s; simpl.
  - apply Hrefl.
  - unfold bind. destruct (f a b s) as [a' s'] eqn:E.
    apply Htrans with (y := (a', s')).
    + rewrite <- E. apply Hstep. now left.
    + apply IH. intros a0 b0 s0 Hin. apply Hstep. now right.
Qed.

Lemma Grows_refl x : Grows x x.
Proof.
  unfold Grows. rewrite Nat.sub_diag. simpl. rewrite app_nil_r.
  repeat split; auto. intros l Hl. lia.
Qed.

Lemma Grows_trans x y z : Grows x y -> Grows y z -> Grows x z.
Proof.
  unfold Grows. intros (Hc1 & Hn1 & Ha1 & Hk1 & Hr1) (Hc2 & Hn2 & Ha2 & Hk2 & Hr2).
  repeat split.
  - congruence.
  - lia.
  - rewrite Ha2, Ha1, <- app_assoc. f_equal.
    replace (List.length (State.alertStore (snd z))
             - List.length (State.alertStore (snd x)))%nat
      with ((List.length (State.alertStore (snd y))
             - List.length (State.alertStore (snd x)))
            + (List.length (State.alertStore (snd z))
               - List.length (State.alertStore (snd y))))%nat by lia.
    rewrite seq_app. f_equal. f_equal. lia.
  - auto.
  - intros l Hl.
    destruct (Nat.lt_ge_cases l (List.length (State.alertStore (snd y)))).
    + destruct (Hr1 l) as [k Hk]; [lia|]. exists k. auto.
    + apply Hr2. lia.
Qed.

(* A step that leaves the alert state alone. *)
Lemma Grows_same (a : list loc) (s s' : State.t) :
  State.activeSurges s' = State.activeSurges s ->
  List.length (State.alertStore s') = List.length (State.alertStore s) ->
  State.lastCleanup s' = State.lastCleanup s ->
  Grows (a, s) (a, s').
Proof.
  intros Hs Ha Hc. unfold Grows. simpl. rewrite Hs, Ha, Hc, Nat.sub_diag.
  simpl. rewrite app_nil_r. repeat split; auto. intros l Hl. lia.
Qed.

Lemma Grows_register (a : list loc) (s : State.t) (k : string)
  (alert : SurgeAlert.t) (n : nat) :
  JSMap.get k (State.activeSurges s) = None ->
  Grows (a, s)
    (a ++ [List.length (State.alertStore s)],
     State.mk (State.activityHistory s)
       (JSMap.set k (List.length (State.alertStore s)) (State.activeSurges s))
       (State.alertStore s ++ [alert]) (State.lastCleanup s) n).
Proof.
  intros Hnone. unfold Grows. simpl. rewrite length_app. simpl.
  replace (List.length (State.alertStore s) + 1
           - List.length (State.alertStore s))%nat with 1%nat by lia.
  simpl. repeat split; auto.
  - lia.
  - intros k' l Hget. rewrite JSMap_get_set_neq; auto. congruence.
  - intros l Hl. exists k.
    replace l with (List.length (State.alertStore s)) by lia.
    apply JSMap_get_set_eq.
Qed.

Lemma airliftSurge_Grows theater theaterId tally baseline a s :
  Grows (a, s) (airliftSurge theater theaterId tally baseline a s).
Proof.
  destruct (airliftTriggers (Tally.transportCount tally) baseline) eqn:Htrig.
  - destruct (JSMap.get ("airlift-" ++ theaterId)%string
                (State.activeSurges s)) as [existing|] eqn:Hget.
    + rewrite (airliftSurge_refresh _ _ _ _ _ _ existing Htrig Hget).
      apply Grows_same; simpl; auto. apply store_update_length.
    + rewrite (airliftSurge_create _ _ _ _ _ _ Htrig Hget).
      now apply Grows_register.
  - rewrite airliftSurge_idle by auto. apply Grows_refl.
Qed.

Lemma fighterSurge_Grows theater theaterId tally baseline a s :
  Grows (a, s) (fighterSurge theater theaterId tally baseline a s).
Proof.
  destruct (JSMap.get ("fighter-" ++ theaterId)%string
              (State.activeSurges s)) as [existing|] eqn:Hget.
  - rewrite (fighterSurge_present _ _ _ _ _ _ existing Hget).
    apply Grows_refl.
  - destruct (fighterTriggers (Tally.fighterCount tally) baseline) eqn:Htrig.
    + rewrite (fighterSurge_create _ _ _ _ _ _ Htrig Hget).
      now apply Grows_register.
    + rewrite fighterSurge_idle by auto. apply Grows_refl.
Qed.

(* The loop body, once the theater has been looked up. *)
Lemma analyzeTheater_run now a theaterId theaterFlightList s theater :
  find (fun t => String.eqb (MilitaryTheater.id t) theaterId) THEATERS
    = Some theater ->
  let tally := tallyFlights theaterFlightList in
  let activity := activityOf now theaterId theaterFlightList in
  let s1 := snd (recordActivity theaterId activity s) in
  let baseline := fst (calculateBaseline theaterId s1) in
  let s2 := snd (calculateBaseline theaterId s1) in
  let r := airliftSurge theater theaterId tally baseline a s2 in
  analyzeTheater now a (theaterId, theaterFlightList) s
  = fighterSurge theater theaterId tally baseline (fst r) (snd r).
Proof.
  intros Hfind tally activity s1 baseline s2 r.
  subst r s2 baseline s1.
  unfold analyzeTheater. rewrite Hfind.
  fold tally. fold activity.
  unfold bind.
  destruct (recordActivity theaterId activity s) as [[] s1]. simpl.
  now destruct (airliftSurge _ _ _ _ _ _).
Qed.

Lemma analyzeTheater_Grows now a entry s :
  Grows (a, s) (analyzeTheater now a entry s).
Proof.
  destruct entry as [theaterId theaterFlightList].
  destruct (find (fun t => String.eqb (MilitaryTheater.id t) theaterId)
              THEATERS) as [theater|] eqn:Hfind.
  - rewrite (analyzeTheater_run _ _ _ _ _ _ Hfind).
    cbv zeta.
    match goal with
    | |- Grows _ (fighterSurge _ _ _ ?b (fst ?r) (snd ?r)) =>
        apply Grows_trans with (y := r);
        [ | rewrite (surjective_pairing r) at 1; apply fighterSurge_Grows ]
    end.
    match goal with
    | |- Grows _ (airliftSurge _ _ _ _ _ ?s2) =>
        apply Grows_trans with (y := (a, s2));
        [ apply Grows_same; reflexivity | apply airliftSurge_Grows ]
    end.
  - unfold analyzeTheater. rewrite Hfind. apply Grows_refl.
Qed.

Lemma cleanupOldHistory_alertStore s :
  State.alertStore (snd (cleanupOldHistory s)) = State.alertStore s.
Proof.
  unfold cleanupOldHistory, bind, Date_now, gets, modify, ret. simpl.
  now destruct (_ <? _).
Qed.

(* The cycle after its cleanup: one more clock read, then the loop. *)
Lemma analyzeFlightsForSurge_run flights s :
  let s0 := snd (cleanupOldHistory s) in
  analyzeFlightsForSurge flights s
  = foldM (analyzeTheater (wallClock (State.clockReads s0)))
      (groupFlights flights) []
      (State.with_clockReads (S (State.clockReads s0)) s0).
Proof.
  simpl. unfold analyzeFlightsForSurge. unfold bind at 1.
  destruct (cleanupOldHistory s) as [[] s0]. reflexivity.
Qed.

Lemma analyzeFlightsForSurge_Grows flights s :
  Grows ([], State.with_clockReads
               (S (State.clockReads (snd (cleanupOldHistory s))))
               (snd (cleanupOldHistory s)))
        (analyzeFlightsForSurge flights s).
Proof.
  rewrite analyzeFlightsForSurge_run. cbv zeta.
  apply foldM_rel.
  - apply Grows_refl.
  - apply Grows_trans.
  - intros a b s0 _. apply analyzeTheater_Grows.
Qed.


(** ** Cleanup *)

Lemma pruneHistory_fold cutoff m :
  pruneHistory cutoff m = fold_left (pruneStep cutoff) m m.
Proof. reflexivity. Qed.

Lemma pruneStep_wf cutoff m e : JSMap.wf m -> JSMap.wf (pruneStep cutoff m e).
Proof.
  destruct e as [k h]. simpl. intros Hwf.
  destruct (_ =? _)%nat; [now apply JSMap_wf_delete | now apply JSMap_wf_set].
Qed.

Lemma prune_fold_wf cutoff es m :
  JSMap.wf m -> JSMap.wf (fold_left (pruneStep cutoff) es m).
Proof.
  revert m. induction es as [|e es IH]; intros m Hwf; simpl; auto.
  apply IH. now apply pruneStep_wf.
Qed.

Lemma prune_fold_get cutoff es m k :
  JSMap.wf m -> NoDup (JSMap.keys es) ->
  JSMap.get k (fold_left (pruneStep cutoff) es m)
  = match JSMap.get k es with
    | Some h =>
        let filtered :=
          filter (fun h => cutoff <=? TheaterActivity.timestamp h) h in
        if (List.length filtered =? 0)%nat then None else Some filtered
    | None => JSMap.get k m
    end.
Proof.
  revert m. induction es as [|[k0 h0] es IH]; intros m Hwf Hnd;
    cbn [fold_left JSMap.get]; auto.
  inversion Hnd as [|? ? Hnotin Hnd']; subst.
  rewrite IH by (auto using pruneStep_wf).
  destruct (String.eqb k k0) eqn:E.
  - apply String.eqb_eq in E. subst k0.
    apply JSMap_get_None in Hnotin. rewrite Hnotin. simpl.
    destruct (_ =? _)%nat.
    + now apply JSMap_get_delete_eq.
    + apply JSMap_get_set_eq.
  - apply String.eqb_neq in E.
    destruct (JSMap.get k es); auto. simpl.
    destruct (_ =? _)%nat.
    + apply JSMap_get_delete_neq. congruence.
    + apply JSMap_get_set_neq. congruence.
Qed.

Lemma evictStale_fold now store m :
  evictStale now store m = fold_left (evictStep now store) m m.
Proof. reflexivity. Qed.

Lemma evict_fold_wf now store es m :
  JSMap.wf m -> JSMap.wf (fold_left (evictStep now store) es m).
Proof.
  revert m. induction es as [|[k l] es IH]; intros m Hwf; simpl; auto.
  apply IH. destruct (isStale now store l); auto using JSMap_wf_delete.
Qed.

Lemma evict_fold_get now store es m k :
  JSMap.wf m -> NoDup (JSMap.keys es) ->
  JSMap.get k (fold_left (evictStep now store) es m)
  = match JSMap.get k es with
    | Some l => if isStale now store l then None else JSMap.get k m
    | None => JSMap.get k m
    end.
Proof.
  revert m. induction es as [|[k0 l0] es IH]; intros m Hwf Hnd; simpl; auto.
  inversion Hnd as [|? ? Hnotin Hnd']; subst.
  assert (Hwf' : JSMap.wf (if isStale now store l0
                           then JSMap.delete k0 m else m))
    by (destruct (isStale now store l0); auto using JSMap_wf_delete).
  rewrite IH by auto.
  destruct (String.eqb k k0) eqn:E.
  - apply String.eqb_eq in E. subst k0.
    apply JSMap_get_None in Hnotin. rewrite Hnotin.
    destruct (isStale now store l0); auto.
    now apply JSMap_get_delete_eq.
  - apply String.eqb_neq in E.
    assert (Hsame : JSMap.get k (if isStale now store l0
                                 then JSMap.delete k0 m else m)
                    = JSMap.get k m).
    { destruct (isStale now store l0); auto.
      apply JSMap_get_delete_neq. congruence. }
    rewrite Hsame. reflexivity.
Qed.

Lemma evictStale_get now store m k :
  JSMap.wf m ->
  JSMap.get k (evictStale now store m)
  = match JSMap.get k m with
    | Some l => if isStale now store l then None else Some l
    | None => None
    end.
Proof.
  intros Hwf. rewrite evictStale_fold, evict_fold_get by auto.
  destruct (JSMap.get k m); auto.
Qed.

Lemma pruneHistory_get cutoff m k :
  JSMap.wf m ->
  JSMap.get k (pruneHistory cutoff m)
  = match JSMap.get k m with
    | Some h =>
        let filtered :=
          filter (fun h => cutoff <=? TheaterActivity.timestamp h) h in
        if (List.length filtered =? 0)%nat then None else Some filtered
    | None => None
    end.
Proof.
  intros Hwf. rewrite pruneHistory_fold, prune_fold_get by auto.
  destruct (JSMap.get k m); auto.
Qed.

(* The two ways [cleanupOldHistory] can go. *)
Lemma cleanupOldHistory_skip s :
  wallClock (State.clockReads s) - State.lastCleanup s < CLEANUP_INTERVAL ->
  cleanupOldHistory s = (tt, State.with_clockReads (S (State.clockReads s)) s).
Proof.
  intros H. unfold cleanupOldHistory, bind, Date_now, gets. simpl.
  apply Z.ltb_lt in H. now rewrite H.
Qed.

Lemma cleanupOldHistory_go s :
  CLEANUP_INTERVAL <= wallClock (State.clockReads s) - State.lastCleanup s ->
  cleanupOldHistory s
  = (tt,
     State.mk
       (pruneHistory
          (wallClock (State.clockReads s) - MAX_HISTORY_HOURS * 60 * 60 * 1000)
          (State.activityHistory s))
       (evictStale (wallClock (State.clockReads s)) (State.alertStore s)
          (State.activeSurges s))
       (State.alertStore s)
       (wallClock (State.clockReads s))
       (S (State.clockReads s))).
Proof.
  intros H. unfold cleanupOldHistory, bind, Date_now, gets. simpl.
  apply Z.ltb_ge in H. now rewrite H.
Qed.

Lemma analyzeFlightsForSurge_lastCleanup flights s :
  State.lastCleanup (snd (analyzeFlightsForSurge flights s))
  = State.lastCleanup (snd (cleanupOldHistory s)).
Proof.
  pose proof (analyzeFlightsForSurge_Grows flights s) as G.
  unfold Grows in G. simpl in G. tauto.
Qed.

Lemma isStale_false_iff now store l :
  isStale now store l = false <->
  forall a, nth_error store l = Some a ->
            now - SurgeAlert.lastUpdated a <= 7200000.
Proof.
  unfold isStale. destruct (nth_error store l) as [a|].
  - rewrite Z.ltb_ge. split.
    + intros H a' [= <-]. lia.
    + intros H. specialize (H a eq_refl). lia.
  - split; [discriminate | reflexivity].
Qed.

Lemma In_values_get {V} (m : JSMap.t V) (v : V) :
  JSMap.wf m -> In v (JSMap.values m) -> exists k, JSMap.get k m = Some v.
Proof.
  intros Hwf Hin. unfold JSMap.values in Hin. apply in_map_iff in Hin.
  destruct Hin as ([k v'] & Heq & Hin). simpl in Heq. subst v'.
  exists k. now apply JSMap_In_get.
Qed.

(** C6: cleanup runs only when at least one hour has passed since the
    previous cleanup; otherwise the state is left as it is.  When it runs
    it records the time, keeps of every theater's history exactly the
    entries not older than 72 hours and deletes the theater's entry when
    none is left, and keeps exactly the alerts whose last update is at most
    2 hours old, so that no older alert is returned by the active-alert
    query.  After a cycle whose cleanup ran, the cleanup of a cycle that
    starts less than an hour later does not run. *)
Theorem cleanupOldHistory_spec (s : State.t) (flights : list MilitaryFlight.t) :
  JSMap.wf (State.activityHistory s) ->
  JSMap.wf (State.activeSurges s) ->
  let now := wallClock (State.clockReads s) in
  let s' := snd (cleanupOldHistory s) in
  let recent h := filter (fun a => now - 259200000 <=? TheaterActivity.timestamp a) h in
  (now - State.lastCleanup s < 3600000 ->
     s' = State.with_clockReads (S (State.clockReads s)) s) /\
  (3600000 <= now - State.lastCleanup s ->
     State.lastCleanup s' = now /\
     (forall theaterId,
        JSMap.get theaterId (State.activityHistory s')
        = match JSMap.get theaterId (State.activityHistory s) with
          | Some h => match recent h with [] => None | kept => Some kept end
          | None => None
          end) /\
     (forall theaterId,
        getTheaterActivity theaterId s'
        = recent (getTheaterActivity theaterId s)) /\
     (forall k l,
        JSMap.get k (State.activeSurges s') = Some l <->
        JSMap.get k (State.activeSurges s) = Some l /\
        forall a, deref s l = Some a ->
                  now - SurgeAlert.lastUpdated a <= 7200000) /\
     (forall l a,
        In l (getActiveSurges s') -> deref s' l = Some a ->
        now - SurgeAlert.lastUpdated a <= 7200000)) /\
  (3600000 <= now - State.lastCleanup s ->
   let s1 := snd (analyzeFlightsForSurge flights s) in
   wallClock (State.clockReads s1) - now < 3600000 ->
   cleanupOldHistory s1
   = (tt, State.with_clockReads (S (State.clockReads s1)) s1)).
Proof.
  intros Hwfh Hwfa now s' recent.
  assert (Hget_h : 3600000 <= now - State.lastCleanup s ->
    forall theaterId,
      JSMap.get theaterId (State.activityHistory s')
      = match JSMap.get theaterId (State.activityHistory s) with
        | Some h => match recent h with [] => None | kept => Some kept end
        | None => None
        end).
  { intros Hgo theaterId. subst s'.
    rewrite cleanupOldHistory_go by exact Hgo. simpl.
    rewrite pruneHistory_get by auto.
    destruct (JSMap.get theaterId (State.activityHistory s)) as [h|]; auto.
    cbv zeta. fold now.
    change (filter _ h) with (recent h).
    now destruct (recent h). }
  assert (Hget_a : 3600000 <= now - State.lastCleanup s ->
    forall k l,
      JSMap.get k (State.activeSurges s') = Some l <->
      JSMap.get k (State.activeSurges s) = Some l /\
      forall a, deref s l = Some a ->
                now - SurgeAlert.lastUpdated a <= 7200000).
  { intros Hgo k l. subst s'.
    rewrite cleanupOldHistory_go by exact Hgo. simpl.
    rewrite evictStale_get by auto. fold now.
    destruct (JSMap.get k (State.activeSurges s)) as [l0|].
    - destruct (isStale now (State.alertStore s) l0) eqn:E.
      + split; [discriminate|]. intros [[= ->] H].
        apply isStale_false_iff in H. congruence.
      + split.
        * intros [= ->]. split; auto. now apply isStale_false_iff.
        * tauto.
    - split; [discriminate | tauto]. }
  split; [|split].
  - intros Hskip. subst s'. now rewrite cleanupOldHistory_skip.
  - intros Hgo. split; [|split; [|split; [|split]]].
    + subst s'. now rewrite cleanupOldHistory_go.
    + now apply Hget_h.
    + intros theaterId. unfold getTheaterActivity, historyOf.
      rewrite Hget_h by auto.
      destruct (JSMap.get theaterId (State.activityHistory s)) as [h|]; auto.
      now destruct (recent h).
    + now apply Hget_a.
    + intros l a Hin Hderef.
      assert (Hwf' : JSMap.wf (State.activeSurges s')).
      { subst s'. rewrite cleanupOldHistory_go by exact Hgo. simpl.
        rewrite evictStale_fold. now apply evict_fold_wf. }
      destruct (In_values_get _ _ Hwf' Hin) as [k Hk].
      apply Hget_a in Hk; auto. destruct Hk as [_ Hage]. apply Hage.
      unfold deref in *. subst s'.
      now rewrite cleanupOldHistory_alertStore in Hderef.
  - intros Hgo s1 Hsoon. apply cleanupOldHistory_skip.
    subst s1. rewrite analyzeFlightsForSurge_lastCleanup.
    rewrite cleanupOldHistory_go by exact Hgo. simpl. exact Hsoon.
Qed.

(** ** Activity history *)

Lemma pushCapped_length history activity :
  (List.length history <= 200)%nat ->
  (List.length (pushCapped history activity) <= 200)%nat.
Proof.
  intros H. unfold pushCapped.
  destruct (200 <? _)%nat eqn:E.
  - destruct history as [|h0 history]; simpl in *.
    + lia.
    + rewrite length_app in *. simpl in *. lia.
  - apply Nat.ltb_ge in E. exact E.
Qed.

Lemma recordActivity_run theaterId activity s :
  recordActivity theaterId activity s
  = (tt, State.with_activityHistory
           (JSMap.set theaterId
              (pushCapped (historyOf theaterId s) activity)
              (State.activityHistory s)) s).
Proof. reflexivity. Qed.

Lemma airliftSurge_activityHistory theater theaterId tally baseline a s :
  State.activityHistory (snd (airliftSurge theater theaterId tally baseline a s))
  = State.activityHistory s.
Proof.
  destruct (airliftTriggers (Tally.transportCount tally) baseline) eqn:Htrig.
  - destruct (JSMap.get ("airlift-" ++ theaterId)%string
                (State.activeSurges s)) as [existing|] eqn:Hget.
    + now rewrite (airliftSurge_refresh _ _ _ _ _ _ existing Htrig Hget).
    + now rewrite (airliftSurge_create _ _ _ _ _ _ Htrig Hget).
  - now rewrite airliftSurge_idle.
Qed.

Lemma fighterSurge_activityHistory theater theaterId tally baseline a s :
  State.activityHistory (snd (fighterSurge theater theaterId tally baseline a s))
  = State.activityHistory s.
Proof.
  destruct (JSMap.get ("fighter-" ++ theaterId)%string
              (State.activeSurges s)) as [existing|] eqn:Hget.
  - now rewrite (fighterSurge_present _ _ _ _ _ _ existing Hget).
  - destruct (fighterTriggers (Tally.fighterCount tally) baseline) eqn:Htrig.
    + now rewrite (fighterSurge_create _ _ _ _ _ _ Htrig Hget).
    + now rewrite fighterSurge_idle.
Qed.

(* What the loop body does to the history map. *)
Lemma analyzeTheater_activityHistory now a theaterId theaterFlightList s :
  State.activityHistory
    (snd (analyzeTheater now a (theaterId, theaterFlightList) s))
  = match find (fun t => String.eqb (MilitaryTheater.id t) theaterId)
            THEATERS with
    | Some _ =>
        JSMap.set theaterId
          (pushCapped (historyOf theaterId s)
             (activityOf now theaterId theaterFlightList))
          (State.activityHistory s)
    | None => State.activityHistory s
    end.
Proof.
  destruct (find _ THEATERS) as [theater|] eqn:Hfind.
  - rewrite (analyzeTheater_run _ _ _ _ _ _ Hfind). cbv zeta.
    rewrite fighterSurge_activityHistory, airliftSurge_activityHistory.
    reflexivity.
  - unfold analyzeTheater. now rewrite Hfind.
Qed.

Lemma historyOf_set theaterId h m s k :
  State.activityHistory s = JSMap.set theaterId h m ->
  historyOf k s
  = if String.eqb k theaterId then h
    else match JSMap.get k m with Some h' => h' | None => [] end.
Proof.
  intros Heq. unfold historyOf. rewrite Heq.
  destruct (String.eqb k theaterId) eqn:E.
  - apply String.eqb_eq in E. subst. now rewrite JSMap_get_set_eq.
  - apply String.eqb_neq in E. rewrite JSMap_get_set_neq; auto.
Qed.

Lemma loop_history now es :
  NoDup (JSMap.keys es) ->
  (forall k, In k (JSMap.keys es) -> knownTheater k = true) ->
  forall a s k,
    historyOf k (snd (foldM (analyzeTheater now) es a s))
    = match JSMap.get k es with
      | Some fl => pushCapped (historyOf k s) (activityOf now k fl)
      | None => historyOf k s
      end.
Proof.
  induction es as [|[k0 fl0] es IH]; intros Hnd Hknown a s k;
    cbn [foldM JSMap.get]; auto.
  inversion Hnd as [|? ? Hnotin Hnd']; subst.
  unfold bind.
  destruct (analyzeTheater now a (k0, fl0) s) as [a1 s1] eqn:E1.
  rewrite IH by (auto; intros; apply Hknown; now right).
  assert (Hs1 : State.activityHistory s1
                = JSMap.set k0
                    (pushCapped (historyOf k0 s) (activityOf now k0 fl0))
                    (State.activityHistory s)).
  { replace s1 with (snd (analyzeTheater now a (k0, fl0) s))
      by now rewrite E1.
    rewrite analyzeTheater_activityHistory.
    specialize (Hknown k0 (or_introl eq_refl)). unfold knownTheater in Hknown.
    now destruct (find _ THEATERS). }
  rewrite (historyOf_set _ _ _ _ k Hs1).
  destruct (String.eqb k k0) eqn:E.
  - apply String.eqb_eq in E. subst k0.
    apply JSMap_get_None in Hnotin. now rewrite Hnotin.
  - reflexivity.
Qed.

(** ** Grouping *)

Lemma fold_left_inv {A B} (f : A -> B -> A) (P : A -> Prop) (l : list B) :
  (forall a b, P a -> P (f a b)) -> forall a, P a -> P (fold_left f l a).
Proof.
  intros Hstep. induction l as [|b l IH]; intros a Ha; simpl; auto.
Qed.

Lemma firstOwnedTheater_Some nearbyBases theater :
  firstOwnedTheater nearbyBases = Some theater ->
  exists nb, In nb nearbyBases
             /\ getTheaterForBase (NearbyBase.baseId nb) = Some theater.
Proof.
  induction nearbyBases as [|nb rest IH]; simpl; [discriminate|].
  destruct (getTheaterForBase (NearbyBase.baseId nb)) as [t|] eqn:E.
  - intros [= <-]. exists nb. auto.
  - intros H. destruct (IH H) as (nb' & Hin & Hnb'). exists nb'. auto.
Qed.

Lemma getTheaterForFlight_In flight theater :
  getTheaterForFlight flight = Some theater -> In theater THEATERS.
Proof.
  unfold getTheaterForFlight.
  destruct (firstOwnedTheater _) as [t|] eqn:E.
  - intros [= <-]. apply firstOwnedTheater_Some in E.
    destruct E as (nb & _ & Hnb). unfold getTheaterForBase in Hnb.
    now apply find_some in Hnb.
  - intros H. now apply find_some in H.
Qed.

Lemma knownTheater_In theater :
  In theater THEATERS -> knownTheater (MilitaryTheater.id theater) = true.
Proof.
  intros Hin. unfold knownTheater.
  destruct (find _ THEATERS) eqn:E; auto.
  pose proof (find_none _ _ E _ Hin) as H. simpl in H.
  now rewrite String.eqb_refl in H.
Qed.

Lemma groupFlights_wf flights : JSMap.wf (groupFlights flights).
Proof.
  unfold groupFlights. apply fold_left_inv.
  - intros m flight Hwf. unfold groupFlight.
    destruct (getTheaterForFlight flight); auto using JSMap_wf_set.
  - constructor.
Qed.

Lemma groupFlights_known flights k :
  In k (JSMap.keys (groupFlights flights)) -> knownTheater k = true.
Proof.
  revert k. unfold groupFlights.
  apply (fold_left_inv groupFlight
           (fun m => forall k, In k (JSMap.keys m) -> knownTheater k = true)).
  - intros m flight Hm k. unfold groupFlight.
    destruct (getTheaterForFlight flight) as [theater|] eqn:E; auto.
    rewrite JSMap_keys_set. destruct (JSMap.has _ m); auto.
    rewrite in_app_iff. intros [H|[<-|[]]]; auto.
    apply knownTheater_In. eapply getTheaterForFlight_In; eauto.
  - intros k [].
Qed.

(* Every flight of a group resolves to the theater of the group. *)
Lemma groupFlights_members flights k group flight :
  JSMap.get k (groupFlights flights) = Some group -> In flight group ->
  exists theater, getTheaterForFlight flight = Some theater
                  /\ MilitaryTheater.id theater = k.
Proof.
  revert k group flight. unfold groupFlights.
  apply (fold_left_inv groupFlight
           (fun m => forall k group flight,
              JSMap.get k m = Some group -> In flight group ->
              exists theater, getTheaterForFlight flight = Some theater
                              /\ MilitaryTheater.id theater = k)).
  - intros m f Hm k group flight. unfold groupFlight.
    destruct (getTheaterForFlight f) as [theater|] eqn:E; [|apply Hm].
    destruct (String.eqb_spec (MilitaryTheater.id theater) k) as [Heq|Hne].
    + rewrite Heq, JSMap_get_set_eq. intros [= <-] Hin.
      apply in_app_iff in Hin. destruct Hin as [Hin|[<-|[]]].
      * destruct (JSMap.get k m) eqn:G; [eapply Hm; eauto | destruct Hin].
      * eauto.
    + rewrite JSMap_get_set_neq by auto. apply Hm.
  - intros k group flight H. discriminate.
Qed.

(** ** The airlift life cycle *)


(** ** The invariant of the alert state *)

Lemma Stable_refl x : Stable x x.
Proof. unfold Stable. auto. Qed.

Lemma Stable_trans x y z : Stable x y -> Stable y z -> Stable x z.
Proof.
  unfold Stable. intros Hxy Hyz HI.
  destruct (Hxy HI) as [HIy Hfy]. destruct (Hyz HIy) as [HIz Hfz].
  split; auto.
Qed.

(* A step that leaves registrations and alert objects alone. *)
Lemma Stable_frame (a a' : list loc) (s s' : State.t) :
  State.activeSurges s' = State.activeSurges s ->
  State.alertStore s' = State.alertStore s ->
  (JSMap.wf (State.activityHistory s) ->
   JSMap.wf (State.activityHistory s')) ->
  Stable (a, s) (a', s').
Proof.
  intros Hs Ha Hh. unfold Stable, Inv, deref. simpl.
  rewrite Hs, Ha. intros (Hwf & Hwfh & Hreg). repeat split; auto.
Qed.

Lemma keyOf_airlift_not_fighter a theaterId :
  keyOf a = Some ("airlift-" ++ theaterId)%string ->
  SurgeAlert.type a <> fighter.
Proof.
  unfold keyOf. intros H Hty. rewrite Hty in H. simpl in H. discriminate.
Qed.

Lemma keyOf_refreshAirlift tc m types bases t a :
  keyOf (refreshAirlift tc m types bases t a) = keyOf a.
Proof. reflexivity. Qed.

Lemma Stable_register (a a' : list loc) (s : State.t) (k : string)
  (alert : SurgeAlert.t) (n : nat) :
  JSMap.get k (State.activeSurges s) = None ->
  keyOf alert = Some k -> SurgeAlert.id alert = k ->
  Stable (a, s)
    (a',
     State.mk (State.activityHistory s)
       (JSMap.set k (List.length (State.alertStore s)) (State.activeSurges s))
       (State.alertStore s ++ [alert]) (State.lastCleanup s) n).
Proof.
  intros Hnone Hkey Hid. unfold Stable, Inv, deref. simpl.
  intros (Hwf & Hwfh & Hreg). repeat split; auto using JSMap_wf_set.
  - intros k' l Hget.
    destruct (String.eqb_spec k k') as [<-|Hne].
    + rewrite JSMap_get_set_eq in Hget. injection Hget as <-.
      exists alert. split; auto. apply nth_error_snoc_new.
    + rewrite JSMap_get_set_neq in Hget by auto.
      destruct (Hreg _ _ Hget) as (a0 & Ha0 & Hrest).
      exists a0. split; auto.
      rewrite nth_error_snoc_old; auto.
      apply nth_error_Some. congruence.
  - intros l a0 Ha0 _. rewrite nth_error_snoc_old; auto.
    apply nth_error_Some. congruence.
Qed.

Lemma airliftSurge_Stable theater theaterId tally baseline a s :
  MilitaryTheater.id theater = theaterId ->
  Stable (a, s) (airliftSurge theater theaterId tally baseline a s).
Proof.
  intros Hid.
  destruct (airliftTriggers (Tally.transportCount tally) baseline) eqn:Htrig.
  - destruct (JSMap.get ("airlift-" ++ theaterId)%string
                (State.activeSurges s)) as [existing|] eqn:Hget.
    + rewrite (airliftSurge_refresh _ _ _ _ _ _ existing Htrig Hget).
      unfold Stable, Inv, deref. simpl. intros (Hwf & Hwfh & Hreg).
      destruct (Hreg _ _ Hget) as (old & Hold & Hkold & _).
      repeat split; auto.
      * intros k l Hk. destruct (Hreg _ _ Hk) as (a0 & Ha0 & Hk0 & Hid0).
        destruct (Nat.eq_dec existing l) as [<-|Hne].
        -- rewrite (store_update_same _ _ _ _ Hold).
           eexists. split; [reflexivity|].
           assert (a0 = old) by congruence. subst a0.
           rewrite keyOf_refreshAirlift. auto.
        -- rewrite store_update_other by auto. eauto.
      * intros l a0 Ha0 Hty. rewrite store_update_other; auto.
        intros <-. assert (a0 = old) by congruence. subst a0.
        now apply keyOf_airlift_not_fighter in Hkold.
    + rewrite (airliftSurge_create _ _ _ _ _ _ Htrig Hget).
      apply Stable_register; auto. unfold keyOf. simpl. now rewrite Hid.
  - rewrite airliftSurge_idle by auto. apply Stable_refl.
Qed.

Lemma fighterSurge_Stable theater theaterId tally baseline a s :
  MilitaryTheater.id theater = theaterId ->
  Stable (a, s) (fighterSurge theater theaterId tally baseline a s).
Proof.
  intros Hid.
  destruct (JSMap.get ("fighter-" ++ theaterId)%string
              (State.activeSurges s)) as [existing|] eqn:Hget.
  - rewrite (fighterSurge_present _ _ _ _ _ _ existing Hget).
    apply Stable_refl.
  - destruct (fighterTriggers (Tally.fighterCount tally) baseline) eqn:Htrig.
    + rewrite (fighterSurge_create _ _ _ _ _ _ Htrig Hget).
      apply Stable_register; auto. unfold keyOf. simpl. now rewrite Hid.
    + rewrite fighterSurge_idle by auto. apply Stable_refl.
Qed.

Lemma find_theater_id theaterId theater :
  find (fun t => String.eqb (MilitaryTheater.id t) theaterId) THEATERS
    = Some theater ->
  MilitaryTheater.id theater = theaterId.
Proof.
  intros H. apply find_some in H. destruct H as [_ H].
  now apply String.eqb_eq in H.
Qed.

Lemma analyzeTheater_Stable now a entry s :
  Stable (a, s) (analyzeTheater now a entry s).
Proof.
  destruct entry as [theaterId theaterFlightList].
  destruct (find (fun t => String.eqb (MilitaryTheater.id t) theaterId)
              THEATERS) as [theater|] eqn:Hfind.
  - pose proof (find_theater_id _ _ Hfind) as Hid.
    rewrite (analyzeTheater_run _ _ _ _ _ _ Hfind).
    cbv zeta.
    match goal with
    | |- Stable _ (fighterSurge _ _ _ ?b (fst ?r) (snd ?r)) =>
        apply Stable_trans with (y := r);
        [ | rewrite (surjective_pairing r) at 1;
            now apply fighterSurge_Stable ]
    end.
    match goal with
    | |- Stable _ (airliftSurge _ _ _ _ _ ?s2) =>
        apply Stable_trans with (y := (a, s2));
        [ | now apply airliftSurge_Stable ]
    end.
    apply Stable_frame; try reflexivity.
    simpl. apply JSMap_wf_set.
  - unfold analyzeTheater. rewrite Hfind. apply Stable_refl.
Qed.

Lemma cleanupOldHistory_Stable a s :
  Stable (a, s) (a, snd (cleanupOldHistory s)).
Proof.
  destruct (Z.lt_ge_cases (wallClock (State.clockReads s)
                           - State.lastCleanup s) CLEANUP_INTERVAL)
    as [Hskip|Hgo].
  - rewrite cleanupOldHistory_skip by auto. simpl.
    apply Stable_frame; auto.
  - rewrite cleanupOldHistory_go by auto.
    unfold Stable, Inv, deref. simpl. intros (Hwf & Hwfh & Hreg).
    repeat split; auto.
    + rewrite evictStale_fold. now apply evict_fold_wf.
    + rewrite pruneHistory_fold. now apply prune_fold_wf.
    + intros k l Hk. rewrite evictStale_get in Hk by auto.
      destruct (JSMap.get k (State.activeSurges s)) as [l0|] eqn:E;
        [|discriminate].
      destruct (isStale _ _ l0); [discriminate|].
      injection Hk as <-. now apply Hreg.
Qed.

Lemma analyzeFlightsForSurge_Stable flights s :
  Stable ([], s) (analyzeFlightsForSurge flights s).
Proof.
  apply Stable_trans with (y := ([], snd (cleanupOldHistory s)));
    [apply cleanupOldHistory_Stable|].
  rewrite analyzeFlightsForSurge_run. cbv zeta.
  eapply Stable_trans;
    [apply Stable_frame with (a' := [])
       (s' := State.with_clockReads
                (S (State.clockReads (snd (cleanupOldHistory s))))
                (snd (cleanupOldHistory s))); auto|].
  apply foldM_rel.
  - apply Stable_refl.
  - apply Stable_trans.
  - intros a b s0 _. apply analyzeTheater_Stable.
Qed.

Lemma Inv_initialState : Inv initialState.
Proof.
  unfold Inv, initialState. simpl. repeat split; try constructor.
  intros k l H. discriminate.
Qed.

Lemma Reachable_Inv s : Reachable s -> Inv s.
Proof.
  induction 1 as [|s flights _ IH|s _ IH].
  - apply Inv_initialState.
  - now apply (analyzeFlightsForSurge_Stable flights s).
  - now apply (cleanupOldHistory_Stable [] s).
Qed.

Lemma Inv_AtMostOnePerKey s : Inv s -> AtMostOnePerKey s.
Proof.
  intros (Hwf & _ & Hreg) i j li lj ai aj Hi Hj Hai Haj Hty Hth.
  unfold getActiveSurges, JSMap.values in Hi, Hj.
  rewrite nth_error_map in Hi, Hj.
  destruct (nth_error (State.activeSurges s) i) as [[ki li']|] eqn:Ei;
    [|discriminate].
  destruct (nth_error (State.activeSurges s) j) as [[kj lj']|] eqn:Ej;
    [|discriminate].
  simpl in Hi, Hj. injection Hi as ->. injection Hj as ->.
  assert (Gi : JSMap.get ki (State.activeSurges s) = Some li)
    by (apply JSMap_In_get; eauto using nth_error_In).
  assert (Gj : JSMap.get kj (State.activeSurges s) = Some lj)
    by (apply JSMap_In_get; eauto using nth_error_In).
  destruct (Hreg _ _ Gi) as (ai' & Hai' & Hki & _).
  destruct (Hreg _ _ Gj) as (aj' & Haj' & Hkj & _).
  assert (ai' = ai) by congruence. assert (aj' = aj) by congruence.
  subst ai' aj'.
  assert (Hk : ki = kj).
  { unfold keyOf in Hki, Hkj. rewrite Hty, Hth in Hki. congruence. }
  subst kj.
  assert (Hni : nth_error (JSMap.keys (State.activeSurges s)) i = Some ki)
    by (unfold JSMap.keys; rewrite nth_error_map, Ei; reflexivity).
  assert (Hnj : nth_error (JSMap.keys (State.activeSurges s)) j = Some ki)
    by (unfold JSMap.keys; rewrite nth_error_map, Ej; reflexivity).
  unfold JSMap.wf in Hwf. rewrite NoDup_nth_error in Hwf.
  apply Hwf; [|congruence].
  apply nth_error_Some. congruence.
Qed.

Lemma airliftSurge_refresh_Inv theater theaterId tally baseline a s existing :
  airliftTriggers (Tally.transportCount tally) baseline = true ->
  JSMap.get ("airlift-" ++ theaterId)%string (State.activeSurges s)
    = Some existing ->
  Inv s ->
  Inv (snd (airliftSurge theater theaterId tally baseline a s)).
Proof.
  intros Htrig Hget.
  rewrite (airliftSurge_refresh _ _ _ _ _ _ existing Htrig Hget).
  unfold Inv, deref. simpl. intros (Hwf & Hwfh & Hreg).
  destruct (Hreg _ _ Hget) as (old & Hold & Hkold & _).
  repeat split; auto.
  intros k l Hk. destruct (Hreg _ _ Hk) as (a0 & Ha0 & Hk0 & Hid0).
  destruct (Nat.eq_dec existing l) as [<-|Hne].
  - rewrite (store_update_same _ _ _ _ Hold).
    eexists. split; [reflexivity|].
    assert (a0 = old) by congruence. subst a0.
    rewrite keyOf_refreshAirlift. auto.
  - rewrite store_update_other by auto. eauto.
Qed.

(** C7: in every reachable state the active-alert map holds at most one
    alert per (surge type, theater id); an analysis cycle and a cleanup
    lead again to such a state (the queries do not change the state).
    When the airlift condition triggers for a theater that already has an
    airlift alert, the alert object registered under the key is updated
    in place: it gets the count, multiple, histogram and nearby bases of
    the cycle and the current time as last-updated time, and keeps its id,
    theater, type, baseline count and first-detected time; no other object
    changes, the registrations stay as they are, no alert object is added
    and none is returned, so no duplicate arises.  Over a whole cycle, an
    alert that is registered when the loop starts is still the object
    registered under its key when the cycle ends, and is not among the
    returned alerts. *)
Theorem one_alert_per_key (s : State.t) :
  Reachable s ->
  AtMostOnePerKey s /\
  (forall flights,
     AtMostOnePerKey (snd (analyzeFlightsForSurge flights s))) /\
  AtMostOnePerKey (snd (cleanupOldHistory s)) /\
  (forall theater theaterId tally baseline newAlerts existing,
     airliftTriggers (Tally.transportCount tally) baseline = true ->
     JSMap.get ("airlift-" ++ theaterId)%string (State.activeSurges s)
       = Some existing ->
     let r := airliftSurge theater theaterId tally baseline newAlerts s in
     let s' := snd r in
     (exists old,
        deref s existing = Some old /\
        SurgeAlert.id old = ("airlift-" ++ theaterId)%string /\
        deref s' existing
        = Some (SurgeAlert.mk (SurgeAlert.id old) (SurgeAlert.theater old)
                  (SurgeAlert.type old) (Tally.transportCount tally)
                  (SurgeAlert.baselineCount old)
                  (inject_Z (Tally.transportCount tally)
                   / Baseline.transport baseline)%Q
                  (Tally.aircraftTypes tally) (Tally.nearbyBasesSet tally)
                  (SurgeAlert.firstDetected old)
                  (wallClock (State.clockReads s)))) /\
     (forall l, l <> existing -> deref s' l = deref s l) /\
     fst r = newAlerts /\
     State.activeSurges s' = State.activeSurges s /\
     getActiveSurges s' = getActiveSurges s /\
     List.length (State.alertStore s') = List.length (State.alertStore s) /\
     AtMostOnePerKey s') /\
  (forall flights k l,
     JSMap.get k (State.activeSurges (snd (cleanupOldHistory s))) = Some l ->
     JSMap.get k (State.activeSurges (snd (analyzeFlightsForSurge flights s)))
       = Some l /\
     ~ In l (fst (analyzeFlightsForSurge flights s))).
Proof.
  intros Hreach. split; [|split; [|split; [|split]]].
  - apply Inv_AtMostOnePerKey. now apply Reachable_Inv.
  - intros flights. apply Inv_AtMostOnePerKey, Reachable_Inv.
    now constructor.
  - apply Inv_AtMostOnePerKey, Reachable_Inv. now constructor.
  - intros theater theaterId tally baseline newAlerts existing Htrig Hget
      r s'.
    pose proof (Reachable_Inv _ Hreach) as HI.
    assert (HI' : Inv s')
      by (subst s' r;
          now apply (airliftSurge_refresh_Inv _ _ _ _ _ _ existing)).
    destruct HI as (_ & _ & Hreg).
    destruct (Hreg _ _ Hget) as (old & Hold & _ & Hid).
    subst s' r.
    rewrite (airliftSurge_refresh _ _ _ _ _ _ existing Htrig Hget) in *.
    unfold getActiveSurges, deref in *. simpl in *.
    split; [|repeat split].
    + exists old. repeat split; auto.
      now rewrite (store_update_same _ _ _ _ Hold).
    + intros l Hl. apply store_update_other. congruence.
    + apply store_update_length.
    + now apply Inv_AtMostOnePerKey.
  - intros flights k l Hget.
    pose proof (analyzeFlightsForSurge_Grows flights s) as G.
    unfold Grows in G. simpl in G.
    rewrite cleanupOldHistory_alertStore in G.
    destruct G as (_ & Hn & Hout & Hkeep & _).
    split; [now apply Hkeep|].
    rewrite Hout. rewrite in_seq.
    destruct (Reachable_Inv _ (reach_cleanup _ Hreach)) as (_ & _ & Hreg).
    destruct (Hreg _ _ Hget) as (a & Ha & _).
    unfold deref in Ha. rewrite cleanupOldHistory_alertStore in Ha.
    assert (l < List.length (State.alertStore s))%nat
      by (apply nth_error_Some; congruence).
    lia.
Qed.

(** ** Fighter alerts are left alone *)




(** ** The history stays bounded *)

Lemma pushCapped_appendCapped history snapshot :
  pushCapped history snapshot = appendCapped history snapshot.
Proof.
  unfold pushCapped, appendCapped. rewrite length_app. simpl.
  destruct (List.length history <? 200)%nat eqn:E.
  - apply Nat.ltb_lt in E.
    destruct (200 <? _)%nat eqn:E'; auto. apply Nat.ltb_lt in E'. lia.
  - apply Nat.ltb_ge in E.
    destruct (200 <? _)%nat eqn:E'; auto. apply Nat.ltb_ge in E'. lia.
Qed.

Lemma filter_length_le {A} (f : A -> bool) (l : list A) :
  (List.length (filter f l) <= List.length l)%nat.
Proof.
  induction l as [|x l IH]; simpl; auto. destruct (f x); simpl; lia.
Qed.

Lemma cleanupOldHistory_historyOf s theaterId :
  JSMap.wf (State.activityHistory s) ->
  (List.length (historyOf theaterId (snd (cleanupOldHistory s)))
   <= List.length (historyOf theaterId s))%nat.
Proof.
  intros Hwf.
  destruct (Z.lt_ge_cases (wallClock (State.clockReads s)
                           - State.lastCleanup s) CLEANUP_INTERVAL)
    as [Hskip|Hgo].
  - rewrite cleanupOldHistory_skip by auto. simpl. unfold historyOf. simpl.
    lia.
  - rewrite cleanupOldHistory_go by auto. unfold historyOf. simpl.
    rewrite pruneHistory_get by auto.
    destruct (JSMap.get theaterId (State.activityHistory s)) as [h|];
      simpl; auto.
    destruct (_ =? _)%nat; simpl; [lia | apply filter_length_le].
Qed.

(* The history of a theater after a cycle, from the history after the
   cleanup of that cycle. *)
Lemma analyzeFlightsForSurge_history flights s theaterId :
  let s0 := snd (cleanupOldHistory s) in
  historyOf theaterId (snd (analyzeFlightsForSurge flights s))
  = match JSMap.get theaterId (groupFlights flights) with
    | Some fl =>
        pushCapped (historyOf theaterId s0)
          (activityOf (wallClock (State.clockReads s0)) theaterId fl)
    | None => historyOf theaterId s0
    end.
Proof.
  intros s0. rewrite analyzeFlightsForSurge_run. cbv zeta. fold s0.
  rewrite loop_history.
  - reflexivity.
  - apply groupFlights_wf.
  - apply groupFlights_known.
Qed.

Lemma Reachable_HistBound s : Reachable s -> HistBound s.
Proof.
  induction 1 as [|s flights Hreach IH|s Hreach IH]; intros theaterId.
  - simpl. lia.
  - rewrite analyzeFlightsForSurge_history.
    assert (H0 : (List.length
                    (historyOf theaterId (snd (cleanupOldHistory s)))
                  <= 200)%nat).
    { etransitivity; [apply cleanupOldHistory_historyOf | apply IH].
      now apply Reachable_Inv in Hreach as (_ & Hwfh & _). }
    destruct (JSMap.get theaterId (groupFlights flights)); auto.
    now apply pushCapped_length.
  - etransitivity; [apply cleanupOldHistory_historyOf | apply IH].
    now apply Reachable_Inv in Hreach as (_ & Hwfh & _).
Qed.

(** C8: after any sequence of analysis calls the history of a theater has
    at most 200 entries.  A cycle appends, for a theater with activity,
    exactly one snapshot stamped with the time of the cycle to the history
    left by the cleanup, dropping the oldest entry when the history was
    already full; the history of a theater without activity is not
    changed by the loop. *)
Theorem history_capped (s : State.t) (flights : list MilitaryFlight.t)
  (theaterId : string) :
  Reachable s ->
  let s0 := snd (cleanupOldHistory s) in
  let now := wallClock (State.clockReads s0) in
  let s' := snd (analyzeFlightsForSurge flights s) in
  let before := getTheaterActivity theaterId s0 in
  (List.length (getTheaterActivity theaterId s) <= 200)%nat /\
  (List.length (getTheaterActivity theaterId s') <= 200)%nat /\
  match JSMap.get theaterId (groupFlights flights) with
  | Some theaterFlightList =>
      let snapshot := activityOf now theaterId theaterFlightList in
      TheaterActivity.timestamp snapshot = now /\
      TheaterActivity.theaterId snapshot = theaterId /\
      getTheaterActivity theaterId s' = appendCapped before snapshot
  | None => getTheaterActivity theaterId s' = before
  end.
Proof.
  intros Hreach s0 now s' before.
  split; [now apply Reachable_HistBound|].
  split; [apply Reachable_HistBound; now constructor|].
  unfold getTheaterActivity in *. subst s'.
  rewrite analyzeFlightsForSurge_history. fold s0. fold now.
  destruct (JSMap.get theaterId (groupFlights flights)); auto.
  cbv zeta. repeat split. apply pushCapped_appendCapped.
Qed.

(** ** Theater resolution *)

Lemma insertByDistance_In x l y :
  In y (insertByDistance x l) <-> y = x \/ In y l.
Proof.
  induction l as [|z l IH]; simpl.
  - intuition.
  - destruct (Qle_bool _ _); simpl; [intuition|]. rewrite IH. intuition.
Qed.

Lemma sortByDistance_In l y : In y (sortByDistance l) <-> In y l.
Proof.
  induction l as [|x l IH]; simpl; [tauto|].
  rewrite insertByDistance_In, IH. intuition.
Qed.

Lemma insertByDistance_sorted x l :
  StronglySorted byDistance l ->
  StronglySorted byDistance (insertByDistance x l).
Proof.
  induction l as [|y l IH]; intros Hs; simpl.
  - constructor; constructor.
  - inversion Hs as [|? ? Hs' Hall]; subst.
    destruct (Qle_bool (NearbyBase.distance x) (NearbyBase.distance y)) eqn:E.
    + apply Qle_bool_iff in E. constructor; auto.
      constructor; auto.
      eapply Forall_impl; [|exact Hall].
      intros z Hz. unfold byDistance in *. eapply Qle_trans; eauto.
    + constructor; auto.
      apply Forall_forall. intros z Hz.
      apply insertByDistance_In in Hz. destruct Hz as [->|Hz].
      * unfold byDistance. apply Qlt_le_weak, Qnot_le_lt.
        intros H. apply Qle_bool_iff in H. congruence.
      * rewrite Forall_forall in Hall. auto.
Qed.

Lemma sortByDistance_sorted l : StronglySorted byDistance (sortByDistance l).
Proof.
  induction l as [|x l IH]; simpl.
  - constructor.
  - now apply insertByDistance_sorted.
Qed.

Lemma findNearbyBases_In lat lon nb :
  In nb (findNearbyBases lat lon) <->
  exists base, In base MILITARY_BASES_EXPANDED
               /\ nb = nearbyOf lat lon base
               /\ (NearbyBase.distance nb <= 150)%Q.
Proof.
  unfold findNearbyBases. rewrite sortByDistance_In, filter_In, in_map_iff.
  unfold PROXIMITY_RADIUS_KM. rewrite Qle_bool_iff. split.
  - intros [(base & <- & Hin) Hd]. eauto.
  - intros (base & Hin & -> & Hd). eauto.
Qed.

(* On a list sorted by distance the first loop picks an owned base that is
   at least as close as every other owned base of the list. *)
Lemma firstOwnedTheater_closest l theater :
  StronglySorted byDistance l ->
  firstOwnedTheater l = Some theater ->
  exists nb, In nb l
    /\ getTheaterForBase (NearbyBase.baseId nb) = Some theater
    /\ forall nb', In nb' l ->
         getTheaterForBase (NearbyBase.baseId nb') <> None ->
         byDistance nb nb'.
Proof.
  induction l as [|x l IH]; intros Hs; simpl; [discriminate|].
  inversion Hs as [|? ? Hs' Hall]; subst.
  destruct (getTheaterForBase (NearbyBase.baseId x)) as [t|] eqn:E.
  - intros [= <-]. exists x. repeat split; auto.
    intros nb' [<-|Hin] _.
    + unfold byDistance. apply Qle_refl.
    + rewrite Forall_forall in Hall. auto.
  - intros H. destruct (IH Hs' H) as (nb & Hin & Hown & Hmin).
    exists nb. repeat split; auto.
    intros nb' [<-|Hin'] Hne; [congruence | auto].
Qed.

Lemma firstOwnedTheater_exists l nb :
  In nb l -> getTheaterForBase (NearbyBase.baseId nb) <> None ->
  exists theater, firstOwnedTheater l = Some theater.
Proof.
  induction l as [|x l IH]; simpl; [tauto|].
  intros [<-|Hin] Hne.
  - destruct (getTheaterForBase (NearbyBase.baseId x)); [eauto|congruence].
  - destruct (getTheaterForBase (NearbyBase.baseId x)); eauto.
Qed.

Lemma firstOwnedTheater_None l :
  (forall nb, In nb l -> getTheaterForBase (NearbyBase.baseId nb) = None) ->
  firstOwnedTheater l = None.
Proof.
  induction l as [|x l IH]; intros H; simpl; auto.
  rewrite (H x) by now left. apply IH. intros nb Hin. apply H. now right.
Qed.

(* The base identifiers of the theaters are pairwise disjoint, so the
   theater that owns a base is the one [getTheaterForBase] finds. *)
Lemma getTheaterForBase_belongsTo base theater :
  getTheaterForBase (MilitaryBase.id base) = Some theater <->
  belongsTo base theater.
Proof.
  unfold belongsTo, getTheaterForBase. split.
  - intros H. apply find_some in H. destruct H as [Hin Hex]. split; auto.
    apply existsb_exists in Hex. destruct Hex as (x & Hx & Heq).
    apply String.eqb_eq in Heq. now subst.
  - intros [Hin Hid]. generalize dependent (MilitaryBase.id base).
    intros baseId Hid. unfold THEATERS in Hin. simpl in Hin.
    repeat (destruct Hin as [<-|Hin]);
      try (simpl in Hid;
           repeat (destruct Hid as [<-|Hid]; [reflexivity|]);
           destruct Hid).
    destruct Hin.
Qed.

Lemma find_first {A} (f : A -> bool) (l : list A) (x : A) :
  find f l = Some x ->
  exists l1 l2, l = l1 ++ x :: l2 /\ f x = true
                /\ forall y, In y l1 -> f y = false.
Proof.
  induction l as [|a l IH]; simpl; [discriminate|].
  destruct (f a) eqn:E.
  - intros [= <-]. exists [], l. repeat split; auto. intros y [].
  - intros H. destruct (IH H) as (l1 & l2 & -> & Hx & Hl1).
    exists (a :: l1), l2. repeat split; auto.
    intros y [<-|Hy]; auto.
Qed.

Lemma centerInRange_iff flight theater :
  centerInRange flight theater = true <->
  (centerDistance flight theater < 1500)%Q.
Proof.
  unfold centerInRange, centerDistance. rewrite negb_true_iff. split.
  - intros H. apply Qnot_le_lt. intros Hle. apply Qle_bool_iff in Hle.
    congruence.
  - intros H. destruct (Qle_bool _ _) eqn:E; auto.
    apply Qle_bool_iff in E. apply Qlt_not_le in H. contradiction.
Qed.

Lemma nearBase_findNearbyBases flight base :
  nearBase flight base ->
  In (nearbyOf (MilitaryFlight.lat flight) (MilitaryFlight.lon flight) base)
     (findNearbyBases (MilitaryFlight.lat flight) (MilitaryFlight.lon flight)).
Proof.
  intros [Hin Hd]. apply findNearbyBases_In. exists base. auto.
Qed.

(** C3 (amended): for a flight within 150 km of at least one base that
    belongs to a theater, theater resolution returns the theater that owns
    the closest such base, whatever the distances to the theater centers;
    it returns T whenever every theater-owned base within 150 km of the
    flight belongs to T. *)
Theorem getTheaterForFlight_nearest_owned_base (flight : MilitaryFlight.t) :
  (exists base theater, nearBase flight base /\ belongsTo base theater) ->
  exists base theater,
    getTheaterForFlight flight = Some theater /\
    nearBase flight base /\ belongsTo base theater /\
    (forall base' theater',
       nearBase flight base' -> belongsTo base' theater' ->
       (distanceTo flight base <= distanceTo flight base')%Q) /\
    (forall T,
       (forall base' theater',
          nearBase flight base' -> belongsTo base' theater' ->
          theater' = T) ->
       getTheaterForFlight flight = Some T).
Proof.
  intros (base0 & theater0 & Hnear0 & Hown0).
  set (l := findNearbyBases (MilitaryFlight.lat flight)
              (MilitaryFlight.lon flight)).
  assert (Hex : exists theater, firstOwnedTheater l = Some theater).
  { apply firstOwnedTheater_exists
      with (nb := nearbyOf (MilitaryFlight.lat flight)
                    (MilitaryFlight.lon flight) base0).
    - now apply nearBase_findNearbyBases.
    - simpl. apply getTheaterForBase_belongsTo in Hown0. congruence. }
  destruct Hex as [theater Hfirst].
  destruct (firstOwnedTheater_closest l theater
              (sortByDistance_sorted _) Hfirst)
    as (nb & Hin & Hown & Hmin).
  apply findNearbyBases_In in Hin.
  destruct Hin as (base & Hbase & -> & Hd). simpl in Hown, Hd.
  assert (Hres : getTheaterForFlight flight = Some theater).
  { unfold getTheaterForFlight. fold l. now rewrite Hfirst. }
  assert (Hnear : nearBase flight base) by (split; auto).
  assert (Hbel : belongsTo base theater)
    by now apply getTheaterForBase_belongsTo.
  exists base, theater. repeat split; auto; try apply Hnear; try apply Hbel.
  - intros base' theater' Hnear' Hown'.
    specialize (Hmin _ (nearBase_findNearbyBases _ _ Hnear')).
    unfold byDistance in Hmin. simpl in Hmin. apply Hmin.
    apply getTheaterForBase_belongsTo in Hown'. congruence.
  - intros T HT. rewrite Hres. f_equal. eapply HT; eauto.
Qed.

(** C4 (amended): for a flight for which no base within 150 km belongs to
    a theater, theater resolution is the search of the theater registry, in
    registry order, for the first theater whose center is less than 1500 km
    away: it returns one when some center is that close, and the one it
    returns comes before every other such theater in the registry.  When
    every center is at 1500 km or more it returns no theater, and the
    flight is in no group of the cycle's aggregation. *)
Theorem getTheaterForFlight_center_fallback (flight : MilitaryFlight.t) :
  (forall base theater, nearBase flight base -> ~ belongsTo base theater) ->
  getTheaterForFlight flight = find (centerInRange flight) THEATERS /\
  ((exists theater, In theater THEATERS
                    /\ (centerDistance flight theater < 1500)%Q) ->
   exists theater, getTheaterForFlight flight = Some theater) /\
  (forall theater,
     getTheaterForFlight flight = Some theater ->
     (centerDistance flight theater < 1500)%Q /\
     exists earlier later,
       THEATERS = earlier ++ theater :: later /\
       forall t, In t earlier -> (1500 <= centerDistance flight t)%Q) /\
  ((forall theater, In theater THEATERS ->
                    (1500 <= centerDistance flight theater)%Q) ->
   getTheaterForFlight flight = None /\
   forall flights k group,
     JSMap.get k (groupFlights flights) = Some group -> ~ In flight group).
Proof.
  intros Hnone.
  assert (Hres : getTheaterForFlight flight
                 = find (centerInRange flight) THEATERS).
  { unfold getTheaterForFlight. rewrite firstOwnedTheater_None; auto.
    intros nb Hin. apply findNearbyBases_In in Hin.
    destruct Hin as (base & Hbase & -> & Hd). simpl in *.
    destruct (getTheaterForBase (MilitaryBase.id base)) as [t|] eqn:E; auto.
    apply getTheaterForBase_belongsTo in E.
    exfalso. apply (Hnone base t); auto. split; auto. }
  split; [exact Hres|]. rewrite Hres. split; [|split].
  - intros (theater & Hin & Hd).
    destruct (find (centerInRange flight) THEATERS) eqn:E; eauto.
    pose proof (find_none _ _ E _ Hin) as H.
    apply centerInRange_iff in Hd. congruence.
  - intros theater Hfind.
    destruct (find_first _ _ _ Hfind) as (l1 & l2 & Heq & Hx & Hl1).
    split; [now apply centerInRange_iff|].
    exists l1, l2. split; auto.
    intros t Ht. specialize (Hl1 t Ht).
    apply Qnot_lt_le. intros Hlt. apply centerInRange_iff in Hlt. congruence.
  - intros Hfar.
    assert (Hfind : find (centerInRange flight) THEATERS = None).
    { destruct (find (centerInRange flight) THEATERS) as [t|] eqn:E; auto.
      apply find_some in E. destruct E as [Hin Hr].
      apply centerInRange_iff in Hr. apply Qlt_not_le in Hr.
      exfalso. auto. }
    split; auto.
    intros flights k group Hget Hin.
    destruct (groupFlights_members _ _ _ _ Hget Hin) as (t & Ht & _).
    congruence.
Qed.

(** * Further properties *)

(** ** Proximity search *)

Lemma insertByDistance_perm x l :
  Permutation (insertByDistance x l) (x :: l).
Proof.
  induction l as [|y l IH]; simpl; auto.
  destruct (Qle_bool _ _); auto.
  rewrite IH. apply perm_swap.
Qed.

Lemma sortByDistance_perm l : Permutation (sortByDistance l) l.
Proof.
  induction l as [|x l IH]; simpl; auto.
  rewrite insertByDistance_perm. now constructor.
Qed.

(** X1: the proximity search returns the catalog bases within 150 km of
    the position, each as often as the catalog lists it and no other,
    ordered by ascending distance. *)
Theorem findNearbyBases_sorted_complete (lat lon : Q) :
  StronglySorted byDistance (findNearbyBases lat lon) /\
  Permutation (findNearbyBases lat lon) (basesInRadius lat lon) /\
  (forall nb, In nb (findNearbyBases lat lon) ->
     (NearbyBase.distance nb <= 150)%Q) /\
  (forall base,
     In base MILITARY_BASES_EXPANDED ->
     (distanceKm lat lon (MilitaryBase.lat base) (MilitaryBase.lon base)
      <= 150)%Q ->
     In (nearbyOf lat lon base) (findNearbyBases lat lon)) /\
  (List.length (findNearbyBases lat lon)
   <= List.length MILITARY_BASES_EXPANDED)%nat.
Proof.
  split; [apply sortByDistance_sorted|].
  split; [apply sortByDistance_perm|].
  split; [|split].
  - intros nb Hin. apply findNearbyBases_In in Hin.
    now destruct Hin as (_ & _ & _ & Hd).
  - intros base Hin Hd. apply findNearbyBases_In. exists base. auto.
  - unfold findNearbyBases.
    rewrite (Permutation_length (sortByDistance_perm _)).
    etransitivity; [apply filter_length_le|]. now rewrite length_map.
Qed.

(** ** The theater registry *)

Lemma THEATERS_ids_NoDup : NoDup (map MilitaryTheater.id THEATERS).
Proof.
  simpl. repeat (constructor; [simpl; intuition discriminate|]). constructor.
Qed.

Lemma find_by_id theater :
  In theater THEATERS ->
  find (fun t => String.eqb (MilitaryTheater.id t) (MilitaryTheater.id theater))
       THEATERS = Some theater.
Proof.
  unfold THEATERS. simpl.
  intros H. repeat (destruct H as [<-|H]; [reflexivity|]). destruct H.
Qed.

(** X2: [getTheaterForBase] returns a theater exactly when that theater of
    the registry lists the base id, and no theater when none lists it; no
    base id is listed by two theaters of the registry, so the owner does
    not depend on the order of the registry. *)
Theorem getTheaterForBase_owner (baseId : string) :
  (forall theater,
     getTheaterForBase baseId = Some theater <->
     In theater THEATERS /\ In baseId (MilitaryTheater.baseIds theater)) /\
  (getTheaterForBase baseId = None <->
     forall theater, In theater THEATERS ->
                     ~ In baseId (MilitaryTheater.baseIds theater)) /\
  (forall t1 t2,
     In t1 THEATERS -> In t2 THEATERS ->
     In baseId (MilitaryTheater.baseIds t1) ->
     In baseId (MilitaryTheater.baseIds t2) -> t1 = t2).
Proof.
  assert (Hiff : forall theater,
            getTheaterForBase baseId = Some theater <->
            In theater THEATERS
            /\ In baseId (MilitaryTheater.baseIds theater)).
  { intros theater.
    apply (getTheaterForBase_belongsTo (MilitaryBase.mk baseId "" 0 0)). }
  split; [exact Hiff|]. split.
  - split.
    + intros Hnone theater Hin Hlist.
      assert (H : getTheaterForBase baseId = Some theater)
        by (apply Hiff; auto).
      congruence.
    + intros Hno. destruct (getTheaterForBase baseId) as [t|] eqn:E; auto.
      destruct (proj1 (Hiff t) eq_refl) as [Hin Hlist].
      exfalso. eapply Hno; eauto.
  - intros t1 t2 H1 H2 L1 L2.
    assert (E1 : getTheaterForBase baseId = Some t1) by (apply Hiff; auto).
    assert (E2 : getTheaterForBase baseId = Some t2) by (apply Hiff; auto).
    congruence.
Qed.

(** ** Grouping *)

Lemma groupFlight_get m flight k :
  JSMap.get k (groupFlight m flight)
  = if resolvesTo k flight
    then Some (match JSMap.get k m with Some l => l | None => [] end
               ++ [flight])
    else JSMap.get k m.
Proof.
  unfold groupFlight, resolvesTo.
  destruct (getTheaterForFlight flight) as [theater|]; auto.
  destruct (String.eqb_spec (MilitaryTheater.id theater) k) as [->|Hne].
  - apply JSMap_get_set_eq.
  - now apply JSMap_get_set_neq.
Qed.

Lemma groupFlights_fold_get flights m k :
  JSMap.get k (fold_left groupFlight flights m)
  = match JSMap.get k m, filter (resolvesTo k) flights with
    | Some l0, l => Some (l0 ++ l)
    | None, [] => None
    | None, l => Some l
    end.
Proof.
  revert m. induction flights as [|f flights IH]; intros m; simpl.
  - destruct (JSMap.get k m); auto. now rewrite app_nil_r.
  - rewrite IH, groupFlight_get.
    destruct (resolvesTo k f); auto.
    destruct (JSMap.get k m) as [l0|]; simpl.
    + now rewrite <- app_assoc.
    + reflexivity.
Qed.

(** X3: the grouping loop puts into the group of a theater exactly the
    flights that resolve to it, in input order; a theater to which no
    flight resolves has no group, and no group is empty.  A flight that
    resolves to no theater is in no group. *)
Theorem groupFlights_partition (flights : list MilitaryFlight.t)
  (theaterId : string) :
  JSMap.wf (groupFlights flights) /\
  JSMap.get theaterId (groupFlights flights)
  = match filter (resolvesTo theaterId) flights with
    | [] => None
    | group => Some group
    end /\
  JSMap.get theaterId (groupFlights flights) <> Some [].
Proof.
  assert (Hget : JSMap.get theaterId (groupFlights flights)
                 = match filter (resolvesTo theaterId) flights with
                   | [] => None
                   | group => Some group
                   end).
  { unfold groupFlights. rewrite groupFlights_fold_get. reflexivity. }
  split; [apply groupFlights_wf|]. split; [exact Hget|].
  rewrite Hget. destruct (filter _ flights); discriminate.
Qed.

(** X4: every group of the grouping loop is keyed by the id of a theater
    of the registry, the registry lookup by that id succeeds and returns
    the very theater each flight of the group resolved to; the loop body
    therefore never skips a group. *)
Theorem grouped_theater_is_found (flights : list MilitaryFlight.t)
  (theaterId : string) (group : list MilitaryFlight.t) :
  JSMap.get theaterId (groupFlights flights) = Some group ->
  exists theater,
    In theater THEATERS /\
    MilitaryTheater.id theater = theaterId /\
    find (fun t => String.eqb (MilitaryTheater.id t) theaterId) THEATERS
      = Some theater /\
    forall flight, In flight group ->
                   getTheaterForFlight flight = Some theater.
Proof.
  intros Hget.
  assert (Hknown : knownTheater theaterId = true).
  { apply (groupFlights_known flights). apply JSMap_get_Some_In in Hget.
    change theaterId with (fst (theaterId, group)).
    unfold JSMap.keys. now apply in_map. }
  unfold knownTheater in Hknown.
  destruct (find _ THEATERS) as [theater|] eqn:Hfind; [|discriminate].
  pose proof (find_theater_id _ _ Hfind) as Hid.
  pose proof (find_some _ _ Hfind) as [Hin _].
  exists theater. repeat split; auto.
  intros flight Hfl.
  destruct (groupFlights_members _ _ _ _ Hget Hfl) as (t & Ht & Htid).
  rewrite Ht. f_equal.
  pose proof (getTheaterForFlight_In _ _ Ht) as Htin.
  pose proof (find_by_id t Htin) as Hft.
  rewrite Htid, Hfind in Hft. congruence.
Qed.

(** ** Classification *)

Lemma canonicalize_app a b :
  canonicalize (a ++ b)%string = (canonicalize a ++ canonicalize b)%string.
Proof. induction a as [|c a IH]; simpl; auto. now rewrite IH. Qed.

Lemma prefix_app p r : String.prefix p (p ++ r)%string = true.
Proof.
  induction p as [|c p IH]; simpl.
  - now destruct r.
  - destruct (ascii_dec c c); [exact IH | congruence].
Qed.

Lemma prefix_canonicalize p s :
  String.prefix p (canonicalize s) = true ->
  exists lead rest, s = (lead ++ rest)%string /\ canonicalize lead = p.
Proof.
  revert s. induction p as [|c p IH]; intros s H.
  - exists EmptyString, s. auto.
  - destruct s as [|d s]; simpl in H; [discriminate|].
    destruct (ascii_dec c (toUpperAscii d)) as [->|]; [|discriminate].
    destruct (IH s H) as (lead & rest & -> & <-).
    exists (String d lead), rest. auto.
Qed.

Lemma RegExp_test_iff p s :
  RegExp_test p s = true <->
  exists lead rest, s = (lead ++ rest)%string /\ canonicalize lead = p.
Proof.
  unfold RegExp_test. split.
  - apply prefix_canonicalize.
  - intros (lead & rest & -> & <-).
    rewrite canonicalize_app. apply prefix_app.
Qed.

Lemma isTransportFlight_iff flight :
  isTransportFlight flight = true <->
  MilitaryFlight.aircraftType flight = "transport"
  \/ MilitaryFlight.aircraftType flight = "tanker"
  \/ matchesAirliftCallsign (toUpperCase (MilitaryFlight.callsign flight)).
Proof.
  unfold isTransportFlight, matchesAirliftCallsign.
  destruct (String.eqb_spec (MilitaryFlight.aircraftType flight) "transport")
    as [Ht|Ht]; [simpl; tauto|].
  destruct (String.eqb_spec (MilitaryFlight.aircraftType flight) "tanker")
    as [Hk|Hk]; [simpl; tauto|].
  cbn [orb]. rewrite existsb_exists. split.
  - intros (p & Hp & Htest). apply RegExp_test_iff in Htest.
    destruct Htest as (lead & rest & Hs & Hlead). right. right.
    exists p, lead, rest. auto.
  - intros [H|[H|(p & lead & rest & Hp & Hs & Hlead)]]; try contradiction.
    exists p. split; auto. apply RegExp_test_iff. eauto.
Qed.

(** X5: a flight is classified transport exactly when its declared type
    is transport or tanker, or its callsign, upper-cased by the engine,
    begins with one of the airlift prefixes, compared without regard to
    the case of ASCII letters; it is classified fighter exactly when it is
    declared a fighter and its callsign does not match, and recon exactly
    when it is declared reconnaissance or awacs and its callsign does not
    match.  So a matching callsign overrides every declared type.  When
    upper-casing changes the callsign in the case of ASCII letters only,
    as it does for every ASCII callsign, a callsign that itself begins
    with an airlift prefix in any letter case makes the flight a
    transport. *)
Theorem classifyFlight_callsign (flight : MilitaryFlight.t) :
  let declared := MilitaryFlight.aircraftType flight in
  let callsign := MilitaryFlight.callsign flight in
  let matches := matchesAirliftCallsign (toUpperCase callsign) in
  (classifyFlight flight = transport <->
     declared = "transport" \/ declared = "tanker" \/ matches) /\
  (classifyFlight flight = fighter_class <->
     declared = "fighter" /\ ~ matches) /\
  (classifyFlight flight = recon <->
     (declared = "reconnaissance" \/ declared = "awacs") /\ ~ matches) /\
  (canonicalize (toUpperCase callsign) = canonicalize callsign ->
   forall p lead rest,
     In p TRANSPORT_CALLSIGN_PATTERNS ->
     callsign = (lead ++ rest)%string ->
     canonicalize lead = p ->
     classifyFlight flight = transport).
Proof.
  intros declared callsign matches.
  pose proof (isTransportFlight_iff flight) as Hiff.
  fold declared callsign matches in Hiff.
  assert (Htr : classifyFlight flight = transport <->
                isTransportFlight flight = true).
  { unfold classifyFlight.
    destruct (isTransportFlight flight); [tauto|].
    destruct (String.eqb _ "fighter"); [split; discriminate|].
    destruct (_ || _); split; discriminate. }
  split; [|split; [|split]].
  - now rewrite Htr.
  - unfold classifyFlight. fold declared.
    destruct (isTransportFlight flight) eqn:E.
    + split; [discriminate|]. intros [Hd Hn]. exfalso.
      destruct (proj1 Hiff eq_refl) as [H|[H|H]];
        [congruence | congruence | exact (Hn H)].
    + assert (Hn : ~ matches)
        by (intros Hm; assert (false = true) by (apply Hiff; tauto);
            discriminate).
      destruct (String.eqb_spec declared "fighter") as [Hd|Hd];
        [tauto|].
      destruct (_ || _); split; try discriminate; tauto.
  - unfold classifyFlight. fold declared.
    destruct (isTransportFlight flight) eqn:E.
    + split; [discriminate|]. intros [Hd Hn]. exfalso.
      destruct (proj1 Hiff eq_refl) as [H|[H|H]];
        [destruct Hd; congruence | destruct Hd; congruence | exact (Hn H)].
    + assert (Hn : ~ matches)
        by (intros Hm; assert (false = true) by (apply Hiff; tauto);
            discriminate).
      destruct (String.eqb_spec declared "fighter") as [Hd|Hd].
      * split; [discriminate|]. intros [[H|H] _]; congruence.
      * destruct (String.eqb_spec declared "reconnaissance") as [Hr|Hr];
          [cbn [orb]; tauto|].
        destruct (String.eqb_spec declared "awacs") as [Ha|Ha];
          cbn [orb]; [tauto|].
        split; [discriminate | tauto].
  - intros Hcase p lead rest Hp Hcs Hlead.
    apply Htr, Hiff. right. right.
    unfold matchesAirliftCallsign.
    assert (Htest : RegExp_test p (toUpperCase callsign) = true).
    { unfold RegExp_test. rewrite Hcase, Hcs, canonicalize_app, Hlead.
      apply prefix_app. }
    apply RegExp_test_iff in Htest.
    destruct Htest as (lead' & rest' & Hs & Hl).
    exists p, lead', rest'. auto.
Qed.

(** ** The tally of one theater *)

Lemma countOf_cons c f flights :
  countOf c (f :: flights)
  = (if sameClass (classifyFlight f) c then 1 else 0) + countOf c flights.
Proof.
  unfold countOf. cbn [filter].
  destruct (sameClass _ _); cbn [List.length]; lia.
Qed.

Lemma countKey_cons k f flights :
  countKey k (f :: flights)
  = (if String.eqb (typeKeyOf f) k then 1 else 0) + countKey k flights.
Proof.
  unfold countKey. cbn [filter].
  destruct (String.eqb _ _); cbn [List.length]; lia.
Qed.

Lemma tally_fold_counts flights acc :
  let t := fold_left tallyFlight flights acc in
  Tally.transportCount t
    = Tally.transportCount acc + countOf transport flights /\
  Tally.fighterCount t
    = Tally.fighterCount acc + countOf fighter_class flights /\
  Tally.reconCount t = Tally.reconCount acc + countOf recon flights.
Proof.
  revert acc. induction flights as [|f flights IH]; intros acc.
  - unfold countOf. simpl. lia.
  - cbn [fold_left]. cbv zeta in IH |- *.
    destruct (IH (tallyFlight acc f)) as (Ht & Hf & Hr).
    rewrite Ht, Hf, Hr, !countOf_cons.
    unfold tallyFlight. cbn [Tally.transportCount Tally.fighterCount
                             Tally.reconCount].
    destruct (classifyFlight f); cbn [sameClass]; lia.
Qed.

Lemma countOf_total flights :
  countOf transport flights + countOf fighter_class flights
  + countOf recon flights + countOf other flights
  = Z.of_nat (List.length flights).
Proof.
  induction flights as [|f flights IH].
  - reflexivity.
  - rewrite !countOf_cons. cbn [List.length]. rewrite Nat2Z.inj_succ.
    destruct (classifyFlight f); cbn [sameClass]; lia.
Qed.

(** X6: the three counters of a theater's tally are the numbers of its
    flights classified transport, fighter and recon; together with the
    flights classified other they add up to the number of flights, so a
    flight is counted in at most one category and none is counted twice. *)
Theorem tallyFlights_counts (flights : list MilitaryFlight.t) :
  let t := tallyFlights flights in
  Tally.transportCount t = countOf transport flights /\
  Tally.fighterCount t = countOf fighter_class flights /\
  Tally.reconCount t = countOf recon flights /\
  Tally.transportCount t + Tally.fighterCount t + Tally.reconCount t
  + countOf other flights = Z.of_nat (List.length flights) /\
  0 <= Tally.transportCount t /\ 0 <= Tally.fighterCount t /\
  0 <= Tally.reconCount t.
Proof.
  intros t. subst t. unfold tallyFlights.
  destruct (tally_fold_counts flights Tally.zero) as (Ht & Hf & Hr).
  cbv zeta in Ht, Hf, Hr. simpl in Ht, Hf, Hr.
  rewrite Ht, Hf, Hr.
  repeat split; auto using countOf_total; unfold countOf; lia.
Qed.

Lemma tallyFlight_histogram_get acc f k :
  JSMap.get k (Tally.aircraftTypes (tallyFlight acc f))
  = if String.eqb (typeKeyOf f) k
    then Some (match JSMap.get k (Tally.aircraftTypes acc) with
               | Some n => n
               | None => 0
               end + 1)
    else JSMap.get k (Tally.aircraftTypes acc).
Proof.
  unfold tallyFlight. cbn [Tally.aircraftTypes].
  destruct (String.eqb_spec (typeKeyOf f) k) as [->|Hne].
  - apply JSMap_get_set_eq.
  - now apply JSMap_get_set_neq.
Qed.

Lemma tally_fold_histogram_get flights acc k :
  JSMap.get k (Tally.aircraftTypes (fold_left tallyFlight flights acc))
  = match JSMap.get k (Tally.aircraftTypes acc) with
    | Some n => Some (n + countKey k flights)
    | None => if countKey k flights =? 0 then None
              else Some (countKey k flights)
    end.
Proof.
  revert acc. induction flights as [|f flights IH]; intros acc.
  - simpl. destruct (JSMap.get k _); auto. unfold countKey. simpl.
    f_equal; lia.
  - cbn [fold_left]. rewrite IH, tallyFlight_histogram_get, countKey_cons.
    assert (Hpos : 0 <= countKey k flights) by (unfold countKey; lia).
    destruct (String.eqb (typeKeyOf f) k).
    + destruct (JSMap.get k (Tally.aircraftTypes acc)) as [n|].
      * f_equal; lia.
      * destruct (1 + countKey k flights =? 0) eqn:E.
        -- apply Z.eqb_eq in E. lia.
        -- f_equal; lia.
    + rewrite Z.add_0_l. reflexivity.
Qed.

Lemma histogramTotal_set k (m : JSMap.t Z) :
  histogramTotal
    (JSMap.set k (match JSMap.get k m with Some n => n | None => 0 end + 1) m)
  = histogramTotal m + 1.
Proof.
  unfold histogramTotal, JSMap.values.
  induction m as [|[k0 v0] m IH]; simpl.
  - reflexivity.
  - destruct (String.eqb k k0); simpl; [lia|]. rewrite IH. lia.
Qed.

Lemma tally_fold_histogram_total flights acc :
  histogramTotal (Tally.aircraftTypes (fold_left tallyFlight flights acc))
  = histogramTotal (Tally.aircraftTypes acc) + Z.of_nat (List.length flights).
Proof.
  revert acc. induction flights as [|f flights IH]; intros acc.
  - simpl. lia.
  - cbn [fold_left List.length]. rewrite IH, Nat2Z.inj_succ.
    unfold tallyFlight at 1. cbn [Tally.aircraftTypes].
    rewrite histogramTotal_set. lia.
Qed.

Lemma tally_fold_histogram_wf flights acc :
  JSMap.wf (Tally.aircraftTypes acc) ->
  JSMap.wf (Tally.aircraftTypes (fold_left tallyFlight flights acc)).
Proof.
  revert acc. induction flights as [|f flights IH]; intros acc Hwf; auto.
  cbn [fold_left]. apply IH. unfold tallyFlight. cbn [Tally.aircraftTypes].
  now apply JSMap_wf_set.
Qed.

(** X7: the aircraft histogram of a theater has one entry per histogram
    key that occurs among its flights, holding the number of flights with
    that key, and no entry for a key that does not occur; its counts add
    up to the number of flights. *)
Theorem tallyFlights_histogram (flights : list MilitaryFlight.t)
  (typeKey : string) :
  let histogram := Tally.aircraftTypes (tallyFlights flights) in
  JSMap.wf histogram /\
  JSMap.get typeKey histogram
  = (if countKey typeKey flights =? 0 then None
     else Some (countKey typeKey flights)) /\
  histogramTotal histogram = Z.of_nat (List.length flights).
Proof.
  intros histogram. subst histogram. unfold tallyFlights. split; [|split].
  - apply tally_fold_histogram_wf. constructor.
  - now rewrite tally_fold_histogram_get.
  - now rewrite tally_fold_histogram_total.
Qed.

Lemma set_add_NoDup x s : NoDup s -> NoDup (set_add x s).
Proof.
  intros Hnd. unfold set_add. destruct (existsb (String.eqb x) s) eqn:E; auto.
  apply NoDup_rev in Hnd.
  rewrite <- (rev_involutive (s ++ [x])). apply NoDup_rev.
  rewrite rev_app_distr. simpl. constructor; auto.
  rewrite <- in_rev. intros Hin.
  assert (existsb (String.eqb x) s = true).
  { apply existsb_exists. exists x. split; auto. apply String.eqb_refl. }
  congruence.
Qed.

Lemma set_add_In x s y : In y (set_add x s) <-> y = x \/ In y s.
Proof.
  unfold set_add. destruct (existsb (String.eqb x) s) eqn:E.
  - apply existsb_exists in E. destruct E as (z & Hz & Heq).
    apply String.eqb_eq in Heq. subst z. intuition (subst; auto).
  - rewrite in_app_iff. simpl. intuition.
Qed.

Lemma set_add_length x s :
  (List.length (set_add x s) <= S (List.length s))%nat.
Proof.
  unfold set_add. destruct (existsb _ s); [lia|].
  rewrite length_app. simpl. lia.
Qed.

Lemma add_names_spec (nbs : list NearbyBase.t) (s : list string) :
  let s' := fold_left (fun s nb => set_add (NearbyBase.baseName nb) s) nbs s in
  (NoDup s -> NoDup s') /\
  (forall y, In y s' <->
             In y s \/ exists nb, In nb nbs /\ NearbyBase.baseName nb = y) /\
  (List.length s' <= List.length s + List.length nbs)%nat.
Proof.
  revert s. induction nbs as [|nb nbs IH]; intros s; simpl.
  - repeat split; auto; try lia. intros [H|(nb & [] & _)]; auto.
  - destruct (IH (set_add (NearbyBase.baseName nb) s)) as (Hnd & Hin & Hlen).
    cbv zeta in Hnd, Hin, Hlen. split; [|split].
    + intros H. now apply Hnd, set_add_NoDup.
    + intros y. rewrite Hin, set_add_In. split.
      * intros [[->|H]|(nb' & Hnb' & Hy)]; eauto.
      * intros [H|(nb' & [<-|Hnb'] & Hy)]; eauto.
    + pose proof (set_add_length (NearbyBase.baseName nb) s). lia.
Qed.

Lemma tallyFlight_nearbyBasesSet acc f :
  Tally.nearbyBasesSet (tallyFlight acc f)
  = fold_left (fun s nb => set_add (NearbyBase.baseName nb) s)
      (firstn 3 (findNearbyBases (MilitaryFlight.lat f)
                   (MilitaryFlight.lon f)))
      (Tally.nearbyBasesSet acc).
Proof. reflexivity. Qed.

Lemma tally_fold_nearbyBases flights acc :
  let set := Tally.nearbyBasesSet (fold_left tallyFlight flights acc) in
  (NoDup (Tally.nearbyBasesSet acc) -> NoDup set) /\
  (forall y, In y set <->
     In y (Tally.nearbyBasesSet acc)
     \/ exists flight nb,
          In flight flights
          /\ In nb (firstn 3 (findNearbyBases (MilitaryFlight.lat flight)
                                (MilitaryFlight.lon flight)))
          /\ NearbyBase.baseName nb = y) /\
  (List.length set
   <= List.length (Tally.nearbyBasesSet acc) + 3 * List.length flights)%nat.
Proof.
  revert acc. induction flights as [|f flights IH]; intros acc.
  - simpl. repeat split; auto; try lia.
    intros [H|(fl & nb & [] & _)]; auto.
  - cbn [fold_left]. destruct (IH (tallyFlight acc f)) as (Hnd & Hin & Hlen).
    cbv zeta in Hnd, Hin, Hlen |- *.
    rewrite tallyFlight_nearbyBasesSet in Hnd, Hin, Hlen.
    destruct (add_names_spec
                (firstn 3 (findNearbyBases (MilitaryFlight.lat f)
                             (MilitaryFlight.lon f)))
                (Tally.nearbyBasesSet acc)) as (And & Ain & Alen).
    cbv zeta in And, Ain, Alen. split; [|split].
    + intros H. apply Hnd, And, H.
    + intros y. rewrite Hin, Ain. split.
      * intros [[H|(nb & Hnb & Hy)]|(fl & nb & Hfl & Hnb & Hy)].
        -- now left.
        -- right. exists f, nb. simpl. auto.
        -- right. exists fl, nb. simpl. auto.
      * intros [H|(fl & nb & [<-|Hfl] & Hnb & Hy)].
        -- left. now left.
        -- left. right. eauto.
        -- right. eauto.
    + assert (List.length (firstn 3 (findNearbyBases (MilitaryFlight.lat f)
                                       (MilitaryFlight.lon f))) <= 3)%nat
        by apply firstn_le_length.
      cbn [List.length]. lia.
Qed.

Lemma In_firstn {A} (n : nat) (l : list A) (x : A) :
  In x (firstn n l) -> In x l.
Proof.
  revert l. induction n as [|n IH]; intros [|a l]; simpl; try tauto.
  intros [->|H]; auto.
Qed.

(** X8: the nearby-bases list of a theater holds no name twice; it holds
    exactly the names of the three closest catalog bases within 150 km of
    each of the theater's flights (fewer when fewer are in range), every
    name being that of a catalog base within 150 km of some flight of the
    theater; it has at most three names per flight. *)
Theorem tallyFlights_nearbyBases (flights : list MilitaryFlight.t) :
  let set := Tally.nearbyBasesSet (tallyFlights flights) in
  NoDup set /\
  (forall name, In name set <->
     exists flight nb,
       In flight flights
       /\ In nb (firstn 3 (findNearbyBases (MilitaryFlight.lat flight)
                             (MilitaryFlight.lon flight)))
       /\ NearbyBase.baseName nb = name) /\
  (forall name, In name set ->
     exists flight base,
       In flight flights /\ nearBase flight base
       /\ MilitaryBase.name base = name) /\
  (List.length set <= 3 * List.length flights)%nat.
Proof.
  intros set. subst set. unfold tallyFlights.
  destruct (tally_fold_nearbyBases flights Tally.zero) as (Hnd & Hin & Hlen).
  cbv zeta in Hnd, Hin, Hlen. simpl in Hnd, Hin, Hlen.
  assert (Hiff : forall name,
            In name (Tally.nearbyBasesSet
                       (fold_left tallyFlight flights Tally.zero)) <->
            exists flight nb,
              In flight flights
              /\ In nb (firstn 3 (findNearbyBases (MilitaryFlight.lat flight)
                                    (MilitaryFlight.lon flight)))
              /\ NearbyBase.baseName nb = name).
  { intros name. rewrite Hin. split; [intros [[]|H]; auto | auto]. }
  split; [apply Hnd; constructor|]. split; [exact Hiff|]. split; [|exact Hlen].
  intros name Hname. apply Hiff in Hname.
  destruct Hname as (flight & nb & Hfl & Hnb & Hy).
  apply In_firstn in Hnb. apply findNearbyBases_In in Hnb.
  destruct Hnb as (base & Hbase & -> & Hd). simpl in *.
  exists flight, base. repeat split; auto.
Qed.

(** ** The formatter beyond its tiers *)

(** X9: the confidence of a signal never exceeds 0.95, reaches 0.95
    exactly from a multiple of 5.5 on, is at least 0.6 for a multiple of at
    least 2, and neither the confidence nor the severity tier decreases
    when the multiple grows; the formatter never assigns the tier low. *)
Theorem confidence_severity_monotone (m1 m2 : Q) :
  (confidenceOf m1 <= 0.95)%Q /\
  ((5.5 <= m1)%Q <-> (confidenceOf m1 == 0.95)%Q) /\
  ((2 <= m1)%Q -> (0.6 <= confidenceOf m1)%Q) /\
  ((m1 <= m2)%Q -> (confidenceOf m1 <= confidenceOf m2)%Q) /\
  ((m1 <= m2)%Q -> severityRank (severityOf m1) <= severityRank (severityOf m2)) /\
  severityOf m1 <> low.
Proof.
  assert (Hc : forall m, (confidenceOf m == Qmin 0.95 (0.6 + (m - 2) * 0.1))%Q)
    by (intros m; apply Math_min_Qmin).
  assert (Hcases : forall m,
            ((m <= 5.5)%Q /\ (confidenceOf m == 0.6 + (m - 2) * 0.1)%Q)
            \/ ((5.5 <= m)%Q /\ (confidenceOf m == 0.95)%Q)).
  { intros m. destruct (Qlt_le_dec m 5.5) as [Hlt|Hge].
    - left. split; [lra|]. rewrite Hc. apply Q.min_r. lra.
    - right. split; auto. rewrite Hc. apply Q.min_l. lra. }
  assert (Hsev : forall m,
            ((m < 3)%Q /\ severityOf m = medium)
            \/ ((3 <= m)%Q /\ (m < 4)%Q /\ severityOf m = high)
            \/ ((4 <= m)%Q /\ severityOf m = critical)).
  { intros m. unfold severityOf.
    destruct (Qle_bool 4 m) eqn:E4.
    - apply Qle_bool_iff in E4. auto.
    - assert (m < 4)%Q
        by (apply Qnot_le_lt; intros H; apply Qle_bool_iff in H; congruence).
      destruct (Qle_bool 3 m) eqn:E3.
      + apply Qle_bool_iff in E3. auto.
      + left. split; auto.
        apply Qnot_le_lt. intros H'. apply Qle_bool_iff in H'. congruence. }
  split; [|split; [|split; [|split; [|split]]]].
  - destruct (Hcases m1) as [[H1 H2]|[H1 H2]]; rewrite H2; lra.
  - split.
    + intros H. destruct (Hcases m1) as [[H1 H2]|[H1 H2]]; auto.
      rewrite H2. lra.
    + intros H. destruct (Hcases m1) as [[H1 H2]|[H1 H2]]; auto.
      rewrite H2 in H. lra.
  - intros H. destruct (Hcases m1) as [[H1 H2]|[H1 H2]]; rewrite H2; lra.
  - intros H.
    destruct (Hcases m1) as [[H1 H2]|[H1 H2]];
      destruct (Hcases m2) as [[H3 H4]|[H3 H4]]; rewrite H2, H4; lra.
  - intros H.
    destruct (Hsev m1) as [[A1 ->]|[(A1 & A2 & ->)|[A1 ->]]];
      destruct (Hsev m2) as [[B1 ->]|[(B1 & B2 & ->)|[B1 ->]]];
      simpl; try lia; lra.
  - destruct (Hsev m1) as [[_ ->]|[(_ & _ & ->)|[_ ->]]]; discriminate.
Qed.

Lemma hasChar_app c a b : hasChar c (a ++ String c b)%string = true.
Proof.
  induction a as [|x a IH]; simpl.
  - now rewrite Ascii.eqb_refl.
  - rewrite IH. apply orb_true_r.
Qed.

Lemma split_at_last_dash a1 a2 d1 d2 :
  hasChar "-" d1 = false -> hasChar "-" d2 = false ->
  (a1 ++ "-" ++ d1 = a2 ++ "-" ++ d2)%string ->
  a1 = a2 /\ d1 = d2.
Proof.
  intros H1 H2. revert a2.
  induction a1 as [|c a1 IH]; intros [|c' a2]; simpl; intros Heq.
  - injection Heq as ->. auto.
  - injection Heq as <- ->.
    pose proof (hasChar_app "-" a2 d2) as H. simpl in H1. congruence.
  - injection Heq as -> <-.
    pose proof (hasChar_app "-" a1 d1) as H. simpl in H2. congruence.
  - injection Heq as <- Heq. destruct (IH _ Heq) as [-> ->]. auto.
Qed.

Lemma string_of_uint_digits d :
  hasChar "-" (NilEmpty.string_of_uint d) = false.
Proof. induction d; simpl; auto. Qed.

Lemma decimal_no_dash z : 0 <= z -> hasChar "-" (decimal z) = false.
Proof.
  intros Hz. unfold decimal, NilZero.string_of_int.
  destruct z as [|p|p]; try lia; simpl.
  - reflexivity.
  - unfold NilZero.string_of_uint.
    destruct (Pos.to_uint p); try reflexivity; apply string_of_uint_digits.
Qed.

Lemma decimal_inj z1 z2 : decimal z1 = decimal z2 -> z1 = z2.
Proof.
  unfold decimal. intros H.
  apply DecimalZ.to_int_inj.
  assert (Hs : forall z,
            NilZero.int_of_string (NilZero.string_of_int (Z.to_int z))
            = Some (Z.to_int z)).
  { intros z. apply NilZero.isi; destruct z; simpl; try discriminate.
    - intros [= H']. now apply DecimalPos.Unsigned.to_uint_nonnil in H'.
    - intros [= H']. now apply DecimalPos.Unsigned.to_uint_nonnil in H'. }
  pose proof (Hs z1) as E1. pose proof (Hs z2) as E2.
  rewrite H in E1. congruence.
Qed.

(** X10: the synthetic id of a signal determines the alert it was made
    from: two alerts first detected at non-negative times whose signals
    carry the same id have the same alert id and the same first-detected
    time. *)
Theorem signal_id_determines_alert (a1 a2 : SurgeAlert.t) :
  0 <= SurgeAlert.firstDetected a1 ->
  0 <= SurgeAlert.firstDetected a2 ->
  Signal.id (surgeAlertToSignal a1) = Signal.id (surgeAlertToSignal a2) ->
  SurgeAlert.id a1 = SurgeAlert.id a2 /\
  SurgeAlert.firstDetected a1 = SurgeAlert.firstDetected a2.
Proof.
  intros H1 H2 Heq. simpl in Heq. injection Heq as Heq.
  apply split_at_last_dash in Heq; auto using decimal_no_dash.
  destruct Heq as [Hid Hdec]. split; auto. now apply decimal_inj.
Qed.

(** ** Baseline, thresholds and pruning *)

Lemma baselineOf_default now history :
  (List.length (inBaselineWindow now history) < 6)%nat ->
  baselineOf now history = Baseline.mk 3 2 1.
Proof.
  intros H. unfold baselineOf, inBaselineWindow in *.
  apply Nat.ltb_lt in H. unfold BASELINE_MIN_SAMPLES.
  change (now - BASELINE_WINDOW_HOURS * 60 * 60 * 1000)
    with (now - 172800000).
  now rewrite H.
Qed.

(** X11: while a theater has fewer than 6 samples in the 48-hour window,
    an airlift surge is detected exactly from 6 transports on, so the
    floor of 5 alone does not trigger it, and a fighter surge exactly from
    4 fighters on.  Whatever the history, no airlift surge is detected
    below 5 transports and no fighter surge below 4 fighters. *)
Theorem cold_start_thresholds (now : Z) (history : list TheaterActivity.t)
  (transportCount fighterCount : Z) :
  ((List.length (inBaselineWindow now history) < 6)%nat ->
     (airliftTriggers transportCount (baselineOf now history) = true
      <-> 6 <= transportCount) /\
     (fighterTriggers fighterCount (baselineOf now history) = true
      <-> 4 <= fighterCount)) /\
  (airliftTriggers transportCount (baselineOf now history) = true ->
     5 <= transportCount) /\
  (fighterTriggers fighterCount (baselineOf now history) = true ->
     4 <= fighterCount).
Proof.
  split; [|split].
  - intros Hcold. rewrite (baselineOf_default _ _ Hcold).
    rewrite airliftTriggers_iff, fighterTriggers_iff. simpl.
    split; split.
    + intros [Hq _]. unfold Qle in Hq. simpl in Hq. lia.
    + intros H. split; [|lia]. unfold Qle. simpl. lia.
    + intros [_ H]. exact H.
    + intros H. split; auto. unfold Qle. simpl. lia.
  - intros H. apply airliftTriggers_iff in H. tauto.
  - intros H. apply fighterTriggers_iff in H. tauto.
Qed.

Lemma filter_absorb {A} (f g : A -> bool) (l : list A) :
  (forall x, f x = true -> g x = true) ->
  filter f (filter g l) = filter f l.
Proof.
  intros Himp. induction l as [|x l IH]; simpl; auto.
  destruct (g x) eqn:G; simpl.
  - now rewrite IH.
  - destruct (f x) eqn:F; auto. apply Himp in F. congruence.
Qed.

Lemma baselineOf_pruned nowC nowB history :
  nowC <= nowB + 86400000 ->
  baselineOf nowB
    (filter (fun h => nowC - 259200000 <=? TheaterActivity.timestamp h)
       history)
  = baselineOf nowB history.
Proof.
  intros H. unfold baselineOf. rewrite filter_absorb; auto.
  intros x Hx. apply Z.leb_le in Hx. apply Z.leb_le.
  unfold BASELINE_WINDOW_HOURS in Hx. lia.
Qed.

(** X12: pruning is invisible to the baseline estimator: when the clock
    has not gone back by more than a day between the cleanup and the
    baseline computation, the baseline computed after a cleanup is the
    baseline the unpruned history gives at the same clock reading. *)
Theorem pruning_invisible_to_baseline (s : State.t) (theaterId : string) :
  JSMap.wf (State.activityHistory s) ->
  let s' := snd (cleanupOldHistory s) in
  let nowC := wallClock (State.clockReads s) in
  let nowB := wallClock (State.clockReads s') in
  nowC <= nowB + 86400000 ->
  fst (calculateBaseline theaterId s')
  = baselineOf nowB (getTheaterActivity theaterId s).
Proof.
  intros Hwf s' nowC nowB Hclock. rewrite calculateBaseline_run. simpl fst.
  fold nowB. unfold getTheaterActivity.
  destruct (Z.lt_ge_cases (wallClock (State.clockReads s)
                           - State.lastCleanup s) CLEANUP_INTERVAL)
    as [Hskip|Hgo].
  - subst s'. rewrite cleanupOldHistory_skip by auto. reflexivity.
  - assert (Hh : historyOf theaterId s'
                 = filter (fun h => nowC - 259200000
                                    <=? TheaterActivity.timestamp h)
                     (historyOf theaterId s)).
    { subst s'. rewrite cleanupOldHistory_go by auto.
      unfold historyOf. simpl. rewrite pruneHistory_get by auto.
      destruct (JSMap.get theaterId (State.activityHistory s)) as [h|];
        auto.
      cbv zeta.
      change (wallClock (State.clockReads s) - MAX_HISTORY_HOURS * 60 * 60 * 1000)
        with (nowC - 259200000).
      destruct (filter _ h) eqn:E; reflexivity. }
    rewrite Hh. now apply baselineOf_pruned.
Qed.

(** ** What every alert object satisfies *)

Lemma Forall_store_update (P : SurgeAlert.t -> Prop) l f store :
  (forall a, P a -> P (f a)) ->
  Forall P store -> Forall P (store_update l f store).
Proof.
  intros Hf. revert l. induction store as [|a store IH]; intros [|l] H;
    simpl; auto; inversion H; subst; constructor; auto.
Qed.

Lemma surgeMultiple_at_least_2 (count : Z) (b : Q) :
  (0 < b)%Q -> (b * 2 <= inject_Z count)%Q -> (2 <= inject_Z count / b)%Q.
Proof.
  intros Hb H. apply Qle_shift_div_l; auto. lra.
Qed.

Lemma Math_round_lower (n : Z) (x : Q) :
  (inject_Z n <= x)%Q -> n <= Math_round x.
Proof.
  intros H. unfold Math_round.
  rewrite <- (Qfloor_Z n). apply Qfloor_resp_le. lra.
Qed.

Lemma KeepsSound_refl x : KeepsSound x x.
Proof. unfold KeepsSound. auto. Qed.

Lemma KeepsSound_trans x y z :
  KeepsSound x y -> KeepsSound y z -> KeepsSound x z.
Proof. unfold KeepsSound. auto. Qed.

Lemma airliftSurge_KeepsSound theater theaterId tally baseline a s :
  In theater THEATERS -> MilitaryTheater.id theater = theaterId ->
  (2 <= Baseline.transport baseline)%Q ->
  KeepsSound (a, s) (airliftSurge theater theaterId tally baseline a s).
Proof.
  intros Hin Hid Hb.
  destruct (airliftTriggers (Tally.transportCount tally) baseline) eqn:Htrig.
  - pose proof Htrig as Hcond. apply airliftTriggers_iff in Hcond.
    destruct Hcond as [Hq Hfloor].
    assert (Hmult : (2 <= inject_Z (Tally.transportCount tally)
                          / Baseline.transport baseline)%Q)
      by (apply surgeMultiple_at_least_2; auto; lra).
    destruct (JSMap.get ("airlift-" ++ theaterId)%string
                (State.activeSurges s)) as [existing|] eqn:Hget.
    + rewrite (airliftSurge_refresh _ _ _ _ _ _ existing Htrig Hget).
      unfold KeepsSound, StoreSound. simpl.
      apply Forall_store_update.
      intros old (Hth & _ & Hkind). unfold AlertSound. simpl.
      repeat split; auto.
      destruct Hkind as [(H1 & H2 & _ & H4)|(H1 & H2 & _ & H4)];
        [left | right]; repeat split; auto; lia.
    + rewrite (airliftSurge_create _ _ _ _ _ _ Htrig Hget).
      unfold KeepsSound, StoreSound. simpl. intros H.
      apply Forall_app. split; auto. constructor; [|constructor].
      unfold AlertSound. simpl. repeat split; auto.
      left. repeat split; auto; [now rewrite Hid|].
      now apply Math_round_lower.
  - rewrite airliftSurge_idle by auto. apply KeepsSound_refl.
Qed.

Lemma fighterSurge_KeepsSound theater theaterId tally baseline a s :
  In theater THEATERS -> MilitaryTheater.id theater = theaterId ->
  (1 <= Baseline.fighter baseline)%Q ->
  KeepsSound (a, s) (fighterSurge theater theaterId tally baseline a s).
Proof.
  intros Hin Hid Hb.
  destruct (JSMap.get ("fighter-" ++ theaterId)%string
              (State.activeSurges s)) as [existing|] eqn:Hget.
  - rewrite (fighterSurge_present _ _ _ _ _ _ existing Hget).
    apply KeepsSound_refl.
  - destruct (fighterTriggers (Tally.fighterCount tally) baseline) eqn:Htrig.
    + pose proof Htrig as Hcond. apply fighterTriggers_iff in Hcond.
      destruct Hcond as [Hq Hfloor].
      rewrite (fighterSurge_create _ _ _ _ _ _ Htrig Hget).
      unfold KeepsSound, StoreSound. simpl. intros H.
      apply Forall_app. split; auto. constructor; [|constructor].
      unfold AlertSound. simpl. repeat split; auto.
      * apply surgeMultiple_at_least_2; auto; lra.
      * right. repeat split; auto; [now rewrite Hid|].
        now apply Math_round_lower.
    + rewrite fighterSurge_idle by auto. apply KeepsSound_refl.
Qed.

Lemma analyzeTheater_KeepsSound now a entry s :
  KeepsSound (a, s) (analyzeTheater now a entry s).
Proof.
  destruct entry as [theaterId theaterFlightList].
  destruct (find (fun t => String.eqb (MilitaryTheater.id t) theaterId)
              THEATERS) as [theater|] eqn:Hfind.
  - pose proof (find_theater_id _ _ Hfind) as Hid.
    pose proof (find_some _ _ Hfind) as [Hin _].
    rewrite (analyzeTheater_run _ _ _ _ _ _ Hfind).
    cbv zeta. rewrite calculateBaseline_run. simpl fst. simpl snd.
    match goal with
    | |- KeepsSound _ (fighterSurge _ _ _ ?b (fst ?r) (snd ?r)) =>
        destruct (baselineOf_floor
                    (wallClock (State.clockReads
                       (snd (recordActivity theaterId
                               (activityOf now theaterId theaterFlightList)
                               s))))
                    (historyOf theaterId
                       (snd (recordActivity theaterId
                               (activityOf now theaterId theaterFlightList)
                               s)))) as (Bt & Bf & _);
        apply KeepsSound_trans with (y := r);
        [ | rewrite (surjective_pairing r) at 1;
            now apply fighterSurge_KeepsSound ]
    end.
    match goal with
    | |- KeepsSound _ (airliftSurge _ _ _ _ _ ?s2) =>
        apply KeepsSound_trans with (y := (a, s2));
        [ | now apply airliftSurge_KeepsSound ]
    end.
    unfold KeepsSound, StoreSound. simpl. auto.
  - unfold analyzeTheater. rewrite Hfind. apply KeepsSound_refl.
Qed.

Lemma Reachable_StoreSound s : Reachable s -> StoreSound s.
Proof.
  induction 1 as [|s flights _ IH|s _ IH].
  - constructor.
  - assert (H0 : StoreSound
                   (State.with_clockReads
                      (S (State.clockReads (snd (cleanupOldHistory s))))
                      (snd (cleanupOldHistory s)))).
    { unfold StoreSound. simpl. now rewrite cleanupOldHistory_alertStore. }
    revert H0. rewrite analyzeFlightsForSurge_run. cbv zeta.
    apply (foldM_rel (analyzeTheater _) KeepsSound).
    + apply KeepsSound_refl.
    + apply KeepsSound_trans.
    + intros a b s0 _. apply analyzeTheater_KeepsSound.
  - unfold StoreSound. now rewrite cleanupOldHistory_alertStore.
Qed.

(** X13: every alert object the detector has created, in any reachable
    state, is an airlift or a fighter alert, never a reconnaissance
    alert; it belongs to a theater of the registry, its id is its type
    followed by the id of its theater, its surge multiple is at least 2,
    and its count and baseline count are at least 5 and 2 (airlift) or
    4 and 1 (fighter). *)
Theorem reachable_alerts_sound (s : State.t) (l : loc) (a : SurgeAlert.t) :
  Reachable s -> deref s l = Some a ->
  SurgeAlert.type a <> reconnaissance /\
  In (SurgeAlert.theater a) THEATERS /\
  (2 <= SurgeAlert.surgeMultiple a)%Q /\
  (SurgeAlert.type a = airlift ->
     SurgeAlert.id a
     = ("airlift-" ++ MilitaryTheater.id (SurgeAlert.theater a))%string /\
     5 <= SurgeAlert.currentCount a /\ 2 <= SurgeAlert.baselineCount a) /\
  (SurgeAlert.type a = fighter ->
     SurgeAlert.id a
     = ("fighter-" ++ MilitaryTheater.id (SurgeAlert.theater a))%string /\
     4 <= SurgeAlert.currentCount a /\ 1 <= SurgeAlert.baselineCount a).
Proof.
  intros Hreach Hderef.
  pose proof (Reachable_StoreSound s Hreach) as Hs.
  unfold StoreSound in Hs. rewrite Forall_forall in Hs.
  destruct (Hs a (nth_error_In _ _ Hderef)) as (Hth & Hm & Hkind).
  destruct Hkind as [(H1 & H2 & H3 & H4)|(H1 & H2 & H3 & H4)];
    rewrite H1; repeat split; auto; try discriminate.
Qed.

Lemma JSMap_values_NoDup (m : JSMap.t loc) :
  JSMap.wf m ->
  (forall k1 k2 l, JSMap.get k1 m = Some l -> JSMap.get k2 m = Some l ->
                   k1 = k2) ->
  NoDup (JSMap.values m).
Proof.
  unfold JSMap.wf, JSMap.values, JSMap.keys.
  induction m as [|[k v] m IH]; simpl; intros Hwf Hinj; [constructor|].
  inversion Hwf as [|? ? Hnotin Hwf']; subst.
  assert (Hlater : forall k' l, In (k', l) m ->
                     JSMap.get k' ((k, v) :: m) = Some l).
  { intros k' l Hin. apply JSMap_In_get; [exact Hwf | now right]. }
  constructor.
  - intros Hin. apply in_map_iff in Hin.
    destruct Hin as ([k' v'] & Hv & Hin). simpl in Hv. subst v'.
    assert (k = k').
    { apply (Hinj k k' v); [simpl; now rewrite String.eqb_refl|].
      now apply Hlater. }
    subst k'. apply Hnotin.
    change k with (fst (k, v)). now apply in_map.
  - apply IH; auto.
    intros k1 k2 l H1 H2.
    apply (Hinj k1 k2 l); apply Hlater; now apply JSMap_get_Some_In.
Qed.

(** X14: in every reachable state the active-alert query returns each
    alert object once, every returned reference is a live object that is
    registered under its own id, and the signal made from it has a
    confidence between 0.6 and 0.95. *)
Theorem active_alerts_well_formed (s : State.t) :
  Reachable s ->
  NoDup (getActiveSurges s) /\
  forall l, In l (getActiveSurges s) ->
    exists a,
      deref s l = Some a /\
      JSMap.get (SurgeAlert.id a) (State.activeSurges s) = Some l /\
      (0.6 <= Signal.confidence (surgeAlertToSignal a))%Q /\
      (Signal.confidence (surgeAlertToSignal a) <= 0.95)%Q.
Proof.
  intros Hreach.
  pose proof (Reachable_Inv s Hreach) as (Hwf & _ & Hreg).
  split.
  - apply JSMap_values_NoDup; auto.
    intros k1 k2 l H1 H2.
    destruct (Hreg _ _ H1) as (a1 & Ha1 & _ & Hid1).
    destruct (Hreg _ _ H2) as (a2 & Ha2 & _ & Hid2).
    congruence.
  - intros l Hin.
    destruct (In_values_get _ _ Hwf Hin) as [k Hk].
    destruct (Hreg _ _ Hk) as (a & Ha & _ & Hid).
    exists a. split; auto. split; [now rewrite Hid|].
    pose proof (Reachable_StoreSound s Hreach) as Hs.
    unfold StoreSound in Hs. rewrite Forall_forall in Hs.
    destruct (Hs a (nth_error_In _ _ Ha)) as (_ & Hm & _).
    simpl.
    assert (Hc : (confidenceOf (SurgeAlert.surgeMultiple a)
                  == Qmin 0.95
                       (0.6 + (SurgeAlert.surgeMultiple a - 2) * 0.1))%Q)
      by apply Math_min_Qmin.
    rewrite Hc. split.
    + apply Q.min_glb; lra.
    + apply Q.le_min_l.
Qed.

(** ** Time stamps *)

Lemma AlertTimed_weaken n n' a :
  (n <= n')%nat -> AlertTimed n a -> AlertTimed n' a.
Proof.
  intros Hn (i & j & Hij & Hj & H1 & H2). exists i, j. repeat split; auto.
  lia.
Qed.

Lemma StoreTimed_refl x : StoreTimed x x.
Proof. unfold StoreTimed. auto. Qed.

Lemma StoreTimed_trans x y z :
  StoreTimed x y -> StoreTimed y z -> StoreTimed x z.
Proof. unfold StoreTimed. intros [H1 H2] [H3 H4]. split; auto. lia. Qed.

(* A step that leaves the alert objects alone and only reads the clock. *)
Lemma StoreTimed_frame a a' s s' :
  State.alertStore s' = State.alertStore s ->
  (State.clockReads s <= State.clockReads s')%nat ->
  StoreTimed (a, s) (a', s').
Proof.
  intros Hs Hn. unfold StoreTimed. simpl. rewrite Hs. split; auto.
  apply Forall_impl. intros x. now apply AlertTimed_weaken.
Qed.

Lemma StoreTimed_create a a' s k alert m h :
  SurgeAlert.firstDetected alert = wallClock (State.clockReads s) ->
  SurgeAlert.lastUpdated alert = wallClock (S (State.clockReads s)) ->
  StoreTimed (a, s)
    (a', State.mk h m (State.alertStore s ++ [alert]) k
           (S (S (State.clockReads s)))).
Proof.
  intros H1 H2. unfold StoreTimed. simpl. split; [lia|]. intros H.
  apply Forall_app. split.
  - eapply Forall_impl; [|exact H]. intros x. apply AlertTimed_weaken. lia.
  - constructor; [|constructor].
    exists (State.clockReads s), (S (State.clockReads s)).
    repeat split; auto.
Qed.

Lemma airliftSurge_StoreTimed theater theaterId tally baseline a s :
  StoreTimed (a, s) (airliftSurge theater theaterId tally baseline a s).
Proof.
  destruct (airliftTriggers (Tally.transportCount tally) baseline) eqn:Htrig.
  - destruct (JSMap.get ("airlift-" ++ theaterId)%string
                (State.activeSurges s)) as [existing|] eqn:Hget.
    + rewrite (airliftSurge_refresh _ _ _ _ _ _ existing Htrig Hget).
      unfold StoreTimed. simpl. split; [lia|]. intros H.
      apply Forall_store_update.
      * intros old (i & j & Hij & Hj & H1 & H2).
        exists i, (State.clockReads s). simpl. repeat split; auto; lia.
      * eapply Forall_impl; [|exact H]. intros x. apply AlertTimed_weaken.
        lia.
    + rewrite (airliftSurge_create _ _ _ _ _ _ Htrig Hget).
      now apply StoreTimed_create.
  - rewrite airliftSurge_idle by auto. apply StoreTimed_refl.
Qed.

Lemma fighterSurge_StoreTimed theater theaterId tally baseline a s :
  StoreTimed (a, s) (fighterSurge theater theaterId tally baseline a s).
Proof.
  destruct (JSMap.get ("fighter-" ++ theaterId)%string
              (State.activeSurges s)) as [existing|] eqn:Hget.
  - rewrite (fighterSurge_present _ _ _ _ _ _ existing Hget).
    apply StoreTimed_refl.
  - destruct (fighterTriggers (Tally.fighterCount tally) baseline) eqn:Htrig.
    + rewrite (fighterSurge_create _ _ _ _ _ _ Htrig Hget).
      now apply StoreTimed_create.
    + rewrite fighterSurge_idle by auto. apply StoreTimed_refl.
Qed.

Lemma analyzeTheater_StoreTimed now a entry s :
  StoreTimed (a, s) (analyzeTheater now a entry s).
Proof.
  destruct entry as [theaterId theaterFlightList].
  destruct (find (fun t => String.eqb (MilitaryTheater.id t) theaterId)
              THEATERS) as [theater|] eqn:Hfind.
  - rewrite (analyzeTheater_run _ _ _ _ _ _ Hfind).
    cbv zeta.
    match goal with
    | |- StoreTimed _ (fighterSurge _ _ _ ?b (fst ?r) (snd ?r)) =>
        apply StoreTimed_trans with (y := r);
        [ | rewrite (surjective_pairing r) at 1;
            apply fighterSurge_StoreTimed ]
    end.
    match goal with
    | |- StoreTimed _ (airliftSurge _ _ _ _ _ ?s2) =>
        apply StoreTimed_trans with (y := (a, s2));
        [ | apply airliftSurge_StoreTimed ]
    end.
    apply StoreTimed_frame; simpl; auto.
  - unfold analyzeTheater. rewrite Hfind. apply StoreTimed_refl.
Qed.

Lemma cleanupOldHistory_clockReads s :
  State.clockReads (snd (cleanupOldHistory s)) = S (State.clockReads s).
Proof.
  unfold cleanupOldHistory, bind, Date_now, gets, modify, ret. simpl.
  now destruct (_ <? _).
Qed.

Lemma analyzeFlightsForSurge_StoreTimed flights s :
  StoreTimed ([], s) (analyzeFlightsForSurge flights s).
Proof.
  apply StoreTimed_trans
    with (y := ([], State.with_clockReads
                      (S (State.clockReads (snd (cleanupOldHistory s))))
                      (snd (cleanupOldHistory s)))).
  - apply StoreTimed_frame; simpl.
    + apply cleanupOldHistory_alertStore.
    + rewrite cleanupOldHistory_clockReads. lia.
  - rewrite analyzeFlightsForSurge_run. cbv zeta.
    apply foldM_rel.
    + apply StoreTimed_refl.
    + apply StoreTimed_trans.
    + intros a b s0 _. apply analyzeTheater_StoreTimed.
Qed.

Lemma Reachable_StoreTimed s :
  Reachable s -> Forall (AlertTimed (State.clockReads s)) (State.alertStore s).
Proof.
  induction 1 as [|s flights _ IH|s _ IH].
  - constructor.
  - now apply (analyzeFlightsForSurge_StoreTimed flights s).
  - rewrite cleanupOldHistory_alertStore, cleanupOldHistory_clockReads.
    eapply Forall_impl; [|exact IH]. intros x. apply AlertTimed_weaken. lia.
Qed.

(** X15: when the wall clock never goes back, every alert object of a
    reachable state was first detected no later than it was last updated,
    and neither time lies after the next reading of the clock; the age a
    cleanup computes for an alert is therefore never negative. *)
Theorem alert_times_ordered (s : State.t) (l : loc) (a : SurgeAlert.t) :
  monotoneClock ->
  Reachable s -> deref s l = Some a ->
  SurgeAlert.firstDetected a <= SurgeAlert.lastUpdated a /\
  SurgeAlert.lastUpdated a <= wallClock (State.clockReads s) /\
  0 <= wallClock (State.clockReads s) - SurgeAlert.lastUpdated a.
Proof.
  intros Hmono Hreach Hderef.
  pose proof (Reachable_StoreTimed s Hreach) as H.
  rewrite Forall_forall in H.
  destruct (H a (nth_error_In _ _ Hderef)) as (i & j & Hij & Hj & H1 & H2).
  rewrite H1, H2.
  assert (wallClock i <= wallClock j) by (apply Hmono; lia).
  assert (wallClock j <= wallClock (State.clockReads s))
    by (apply Hmono; lia).
  lia.
Qed.

Lemma HistTimed_weaken n n' s :
  (n <= n')%nat -> HistTimed n s -> HistTimed n' s.
Proof.
  intros Hn H theaterId. destruct (H theaterId) as [Hs Hf]. split; auto.
  eapply Forall_impl; [|exact Hf].
  intros h (i & Hi & Ht). exists i. split; auto. lia.
Qed.

Lemma HistTimed_same_history n s s' :
  State.activityHistory s' = State.activityHistory s ->
  HistTimed n s -> HistTimed n s'.
Proof.
  intros Heq H theaterId. unfold historyOf. rewrite Heq. apply H.
Qed.

Lemma StronglySorted_filter {A} (R : A -> A -> Prop) (f : A -> bool) l :
  StronglySorted R l -> StronglySorted R (filter f l).
Proof.
  induction 1 as [|a l Hs IH Hall]; simpl; [constructor|].
  destruct (f a); auto. constructor; auto.
  rewrite Forall_forall in *. intros x Hx. apply filter_In in Hx.
  apply Hall. tauto.
Qed.

Lemma StronglySorted_snoc {A} (R : A -> A -> Prop) l x :
  StronglySorted R l -> Forall (fun y => R y x) l ->
  StronglySorted R (l ++ [x]).
Proof.
  induction 1 as [|a l Hs IH Hall]; simpl; intros Hx.
  - constructor; constructor.
  - inversion Hx; subst. constructor; auto.
    apply Forall_app. split; auto.
Qed.

Lemma StronglySorted_tl {A} (R : A -> A -> Prop) l :
  StronglySorted R l -> StronglySorted R (tl l).
Proof. destruct 1; simpl; [constructor | auto]. Qed.

Lemma Forall_tl {A} (P : A -> Prop) l : Forall P l -> Forall P (tl l).
Proof. destruct 1; simpl; auto. Qed.

Lemma pushCapped_timed (r : nat) history activity :
  monotoneClock ->
  TheaterActivity.timestamp activity = wallClock r ->
  StronglySorted byTimestamp history ->
  Forall (fun h => readBefore (S r) (TheaterActivity.timestamp h)) history ->
  StronglySorted byTimestamp (pushCapped history activity) /\
  Forall (fun h => readBefore (S r) (TheaterActivity.timestamp h))
         (pushCapped history activity).
Proof.
  intros Hmono Hstamp Hs Hf.
  assert (Hs' : StronglySorted byTimestamp (history ++ [activity])).
  { apply StronglySorted_snoc; auto.
    eapply Forall_impl; [|exact Hf].
    intros h (i & Hi & Ht). unfold byTimestamp. rewrite Ht, Hstamp.
    apply Hmono. lia. }
  assert (Hf' : Forall (fun h => readBefore (S r) (TheaterActivity.timestamp h))
                       (history ++ [activity])).
  { apply Forall_app. split; auto. constructor; [|constructor].
    exists r. split; auto. }
  unfold pushCapped. destruct (200 <? _)%nat; auto.
  split; [now apply StronglySorted_tl | now apply Forall_tl].
Qed.

Lemma analyzeTheater_HistTimed (r : nat) a entry s :
  monotoneClock ->
  HistTimed (S r) s ->
  HistTimed (S r) (snd (analyzeTheater (wallClock r) a entry s)).
Proof.
  intros Hmono H. destruct entry as [theaterId theaterFlightList].
  pose proof (analyzeTheater_activityHistory (wallClock r) a theaterId
                theaterFlightList s) as Hh.
  destruct (find _ THEATERS) as [theater|].
  - intros k. rewrite (historyOf_set _ _ _ _ k Hh).
    destruct (String.eqb k theaterId).
    + destruct (H theaterId) as [Hs Hf]. now apply pushCapped_timed.
    + apply (H k).
  - now apply (HistTimed_same_history _ s).
Qed.

Lemma cleanupOldHistory_HistTimed n s :
  JSMap.wf (State.activityHistory s) ->
  HistTimed n s -> HistTimed n (snd (cleanupOldHistory s)).
Proof.
  intros Hwf H.
  destruct (Z.lt_ge_cases (wallClock (State.clockReads s)
                           - State.lastCleanup s) CLEANUP_INTERVAL)
    as [Hskip|Hgo].
  - rewrite cleanupOldHistory_skip by auto.
    now apply (HistTimed_same_history _ s).
  - rewrite cleanupOldHistory_go by auto. intros k.
    unfold historyOf. simpl. rewrite pruneHistory_get by auto.
    destruct (H k) as [Hs Hf]. unfold historyOf in Hs, Hf.
    destruct (JSMap.get k (State.activityHistory s)) as [h|].
    + cbv zeta. destruct (_ =? _)%nat.
      * split; constructor.
      * split; [now apply StronglySorted_filter|].
        rewrite Forall_forall in *. intros x Hx. apply filter_In in Hx.
        apply Hf. tauto.
    + split; constructor.
Qed.

Lemma loop_HistTimed (r : nat) es :
  monotoneClock ->
  forall a s, HistTimed (S r) s ->
              HistTimed (S r) (snd (foldM (analyzeTheater (wallClock r)) es a s)).
Proof.
  intros Hmono. induction es as [|e es IH]; intros a s H; cbn [foldM].
  - exact H.
  - unfold bind.
    destruct (analyzeTheater (wallClock r) a e s) as [a1 s1] eqn:E.
    apply IH.
    replace s1 with (snd (analyzeTheater (wallClock r) a e s))
      by now rewrite E.
    now apply analyzeTheater_HistTimed.
Qed.

Lemma Reachable_HistTimed s :
  monotoneClock -> Reachable s -> HistTimed (State.clockReads s) s.
Proof.
  intros Hmono. induction 1 as [|s flights Hreach IH|s Hreach IH].
  - intros k. split; constructor.
  - pose proof (Reachable_Inv s Hreach) as (_ & Hwfh & _).
    pose proof (analyzeFlightsForSurge_StoreTimed flights s) as [Hn _].
    simpl in Hn.
    assert (Hloop : HistTimed
                      (S (State.clockReads (snd (cleanupOldHistory s))))
                      (snd (analyzeFlightsForSurge flights s))).
    { rewrite analyzeFlightsForSurge_run. cbv zeta.
      apply loop_HistTimed; auto.
      apply (HistTimed_same_history _ (snd (cleanupOldHistory s)));
        [reflexivity|].
      apply cleanupOldHistory_HistTimed; auto.
      eapply HistTimed_weaken; [|exact IH].
      rewrite cleanupOldHistory_clockReads. lia. }
    eapply HistTimed_weaken; [|exact Hloop].
    pose proof (foldM_rel (analyzeTheater
                             (wallClock (State.clockReads
                                           (snd (cleanupOldHistory s)))))
                  StoreTimed (groupFlights flights)
                  StoreTimed_refl StoreTimed_trans
                  (fun a b s0 _ => analyzeTheater_StoreTimed _ a b s0)
                  []
                  (State.with_clockReads
                     (S (State.clockReads (snd (cleanupOldHistory s))))
                     (snd (cleanupOldHistory s)))) as [Hticks _].
    rewrite analyzeFlightsForSurge_run. cbv zeta. exact Hticks.
  - pose proof (Reachable_Inv s Hreach) as (_ & Hwfh & _).
    apply cleanupOldHistory_HistTimed; auto.
    eapply HistTimed_weaken; [|exact IH].
    rewrite cleanupOldHistory_clockReads. lia.
Qed.

(** X16: when the wall clock never goes back, the activity history of
    every theater is, in every reachable state, in non-decreasing
    timestamp order, and no entry is stamped later than the next reading
    of the clock. *)
Theorem history_in_time_order (s : State.t) (theaterId : string) :
  monotoneClock ->
  Reachable s ->
  StronglySorted byTimestamp (getTheaterActivity theaterId s) /\
  forall h, In h (getTheaterActivity theaterId s) ->
            TheaterActivity.timestamp h <= wallClock (State.clockReads s).
Proof.
  intros Hmono Hreach.
  destruct (Reachable_HistTimed s Hmono Hreach theaterId) as [Hs Hf].
  split; auto.
  intros h Hin. rewrite Forall_forall in Hf.
  destruct (Hf h Hin) as (i & Hi & ->). apply Hmono. lia.
Qed.

(** ** Cycles without activity, evicted alerts, and the size of the state *)

Lemma groupFlights_unresolved flights :
  (forall flight, In flight flights -> getTheaterForFlight flight = None) ->
  groupFlights flights = [].
Proof.
  intros H. unfold groupFlights.
  assert (Hfold : forall m, fold_left groupFlight flights m = m).
  { induction flights as [|f flights IH]; intros m; cbn [fold_left].
    - reflexivity.
    - unfold groupFlight at 2. rewrite (H f) by now left.
      apply IH. intros flight Hin. apply H. now right. }
  apply Hfold.
Qed.

(** X17: a cycle in which no flight resolves to a theater, in particular
    a cycle with no flight at all, returns no alert, records no snapshot
    and touches no alert: apart from the cleanup at its start and two
    readings of the clock, it leaves the state as it is. *)
Theorem analyze_without_activity (flights : list MilitaryFlight.t)
  (s : State.t) :
  (forall flight, In flight flights -> getTheaterForFlight flight = None) ->
  let s0 := snd (cleanupOldHistory s) in
  analyzeFlightsForSurge flights s
  = ([], State.with_clockReads (S (S (State.clockReads s))) s0).
Proof.
  intros H s0. rewrite analyzeFlightsForSurge_run. cbv zeta.
  rewrite (groupFlights_unresolved _ H). cbn [foldM]. unfold ret.
  now rewrite cleanupOldHistory_clockReads.
Qed.

Lemma Frozen_refl x : Frozen x x.
Proof. unfold Frozen. auto. Qed.

Lemma Frozen_trans x y z : Frozen x y -> Frozen y z -> Frozen x z.
Proof.
  unfold Frozen. intros Hxy Hyz l a Ha Hu.
  destruct (Hxy l a Ha Hu) as [Ha' Hu']. now apply Hyz.
Qed.

Lemma Frozen_frame a a' s s' :
  State.activeSurges s' = State.activeSurges s ->
  State.alertStore s' = State.alertStore s ->
  Frozen (a, s) (a', s').
Proof.
  intros Hs Ha. unfold Frozen, unregistered, deref. simpl.
  rewrite Hs, Ha. auto.
Qed.

Lemma Frozen_register a a' s k alert n h c :
  Frozen (a, s)
    (a', State.mk h
           (JSMap.set k (List.length (State.alertStore s)) (State.activeSurges s))
           (State.alertStore s ++ [alert]) c n).
Proof.
  unfold Frozen, unregistered, deref. simpl. intros l x Hx Hu.
  assert (Hl : (l < List.length (State.alertStore s))%nat)
    by (apply nth_error_Some; congruence).
  split.
  - rewrite nth_error_snoc_old; auto.
  - intros k' Hk'. destruct (String.eqb_spec k k') as [<-|Hne].
    + rewrite JSMap_get_set_eq in Hk'. injection Hk' as Hk'. lia.
    + rewrite JSMap_get_set_neq in Hk' by auto. now apply (Hu k').
Qed.

Lemma airliftSurge_Frozen theater theaterId tally baseline a s :
  Frozen (a, s) (airliftSurge theater theaterId tally baseline a s).
Proof.
  destruct (airliftTriggers (Tally.transportCount tally) baseline) eqn:Htrig.
  - destruct (JSMap.get ("airlift-" ++ theaterId)%string
                (State.activeSurges s)) as [existing|] eqn:Hget.
    + rewrite (airliftSurge_refresh _ _ _ _ _ _ existing Htrig Hget).
      unfold Frozen, unregistered, deref. simpl. intros l x Hx Hu.
      split; auto. rewrite store_update_other; auto.
      intros <-. now apply (Hu _ Hget).
    + rewrite (airliftSurge_create _ _ _ _ _ _ Htrig Hget).
      apply Frozen_register.
  - rewrite airliftSurge_idle by auto. apply Frozen_refl.
Qed.

Lemma fighterSurge_Frozen theater theaterId tally baseline a s :
  Frozen (a, s) (fighterSurge theater theaterId tally baseline a s).
Proof.
  destruct (JSMap.get ("fighter-" ++ theaterId)%string
              (State.activeSurges s)) as [existing|] eqn:Hget.
  - rewrite (fighterSurge_present _ _ _ _ _ _ existing Hget).
    apply Frozen_refl.
  - destruct (fighterTriggers (Tally.fighterCount tally) baseline) eqn:Htrig.
    + rewrite (fighterSurge_create _ _ _ _ _ _ Htrig Hget).
      apply Frozen_register.
    + rewrite fighterSurge_idle by auto. apply Frozen_refl.
Qed.

Lemma analyzeTheater_Frozen now a entry s :
  Frozen (a, s) (analyzeTheater now a entry s).
Proof.
  destruct entry as [theaterId theaterFlightList].
  destruct (find (fun t => String.eqb (MilitaryTheater.id t) theaterId)
              THEATERS) as [theater|] eqn:Hfind.
  - rewrite (analyzeTheater_run _ _ _ _ _ _ Hfind).
    cbv zeta.
    match goal with
    | |- Frozen _ (fighterSurge _ _ _ ?b (fst ?r) (snd ?r)) =>
        apply Frozen_trans with (y := r);
        [ | rewrite (surjective_pairing r) at 1; apply fighterSurge_Frozen ]
    end.
    match goal with
    | |- Frozen _ (airliftSurge _ _ _ _ _ ?s2) =>
        apply Frozen_trans with (y := (a, s2));
        [ | apply airliftSurge_Frozen ]
    end.
    apply Frozen_frame; reflexivity.
  - unfold analyzeTheater. rewrite Hfind. apply Frozen_refl.
Qed.

(** X18: an alert object that is registered under no key once the
    cleanup of a cycle has run, such as an alert the cleanup has just
    evicted, is left field for field as it is by the cycle and is not
    registered again; a surge that persists gets a new alert object. *)
Theorem evicted_alerts_are_frozen (flights : list MilitaryFlight.t)
  (s : State.t) (l : loc) (a : SurgeAlert.t) :
  let s0 := snd (cleanupOldHistory s) in
  let s' := snd (analyzeFlightsForSurge flights s) in
  deref s0 l = Some a ->
  (forall k, JSMap.get k (State.activeSurges s0) <> Some l) ->
  deref s' l = Some a /\
  (forall k, JSMap.get k (State.activeSurges s') <> Some l) /\
  ~ In l (fst (analyzeFlightsForSurge flights s)).
Proof.
  intros s0 s' Ha Hu.
  assert (F : Frozen ([], State.with_clockReads (S (State.clockReads s0)) s0)
                     (analyzeFlightsForSurge flights s)).
  { rewrite analyzeFlightsForSurge_run. cbv zeta. fold s0.
    apply foldM_rel.
    - apply Frozen_refl.
    - apply Frozen_trans.
    - intros a0 b s1 _. apply analyzeTheater_Frozen. }
  destruct (F l a Ha Hu) as [Ha' Hu']. repeat split; auto.
  pose proof (analyzeFlightsForSurge_Grows flights s) as G.
  unfold Grows in G. simpl in G. fold s0 in G.
  destruct G as (_ & _ & Hout & _). rewrite Hout. simpl. rewrite in_seq.
  assert (l < List.length (State.alertStore s0))%nat
    by (apply nth_error_Some; unfold deref in Ha; congruence).
  lia.
Qed.

Lemma KeepsHistKeys_refl x : KeepsHistKeys x x.
Proof. unfold KeepsHistKeys. auto. Qed.

Lemma KeepsHistKeys_trans x y z :
  KeepsHistKeys x y -> KeepsHistKeys y z -> KeepsHistKeys x z.
Proof. unfold KeepsHistKeys. auto. Qed.

Lemma analyzeTheater_KeepsHistKeys now a entry s :
  KeepsHistKeys (a, s) (analyzeTheater now a entry s).
Proof.
  destruct entry as [theaterId theaterFlightList].
  unfold KeepsHistKeys, HistKeys. cbn [snd].
  rewrite analyzeTheater_activityHistory.
  destruct (find _ THEATERS) as [theater|] eqn:Hfind; auto.
  intros H k. rewrite JSMap_keys_set.
  destruct (JSMap.has theaterId (State.activityHistory s)); auto.
  rewrite in_app_iff. intros [Hk|[<-|[]]]; auto.
  pose proof (find_theater_id _ _ Hfind) as Hid.
  pose proof (find_some _ _ Hfind) as [Hin _].
  rewrite <- Hid. now apply in_map.
Qed.

Lemma prune_fold_keys cutoff es m k :
  In k (JSMap.keys (fold_left (pruneStep cutoff) es m)) ->
  In k (JSMap.keys m) \/ In k (JSMap.keys es).
Proof.
  revert m. induction es as [|[k0 h0] es IH]; intros m; cbn [fold_left].
  - auto.
  - intros H. apply IH in H. destruct H as [H|H]; [|right; now right].
    unfold pruneStep in H. destruct (_ =? _)%nat.
    + left. eapply JSMap_keys_delete_incl; eauto.
    + rewrite JSMap_keys_set in H.
      destruct (JSMap.has k0 m); auto.
      apply in_app_iff in H. destruct H as [H|[<-|[]]]; auto.
      right. now left.
Qed.

Lemma cleanupOldHistory_HistKeys s :
  HistKeys s -> HistKeys (snd (cleanupOldHistory s)).
Proof.
  intros H.
  destruct (Z.lt_ge_cases (wallClock (State.clockReads s)
                           - State.lastCleanup s) CLEANUP_INTERVAL)
    as [Hskip|Hgo].
  - now rewrite cleanupOldHistory_skip.
  - rewrite cleanupOldHistory_go by auto. unfold HistKeys. simpl.
    intros k Hk. rewrite pruneHistory_fold in Hk.
    apply prune_fold_keys in Hk. destruct Hk as [Hk|Hk]; now apply H.
Qed.

Lemma Reachable_HistKeys s : Reachable s -> HistKeys s.
Proof.
  induction 1 as [|s flights _ IH|s _ IH].
  - intros k [].
  - apply cleanupOldHistory_HistKeys in IH.
    rewrite analyzeFlightsForSurge_run. cbv zeta.
    refine (foldM_rel (analyzeTheater _) KeepsHistKeys _
              KeepsHistKeys_refl KeepsHistKeys_trans
              (fun a b s0 _ => analyzeTheater_KeepsHistKeys _ a b s0)
              _ _ _).
    exact IH.
  - now apply cleanupOldHistory_HistKeys.
Qed.

(** X19: the state stays small: in every reachable state at most 10
    alerts are active, one per surge type and theater of the registry,
    and at most 5 theaters have a history, each a theater of the
    registry. *)
Theorem state_is_bounded (s : State.t) :
  Reachable s ->
  (List.length (getActiveSurges s) <= 10)%nat /\
  (forall k, In k (JSMap.keys (State.activeSurges s)) -> In k alertKeys) /\
  (List.length (State.activityHistory s) <= 5)%nat /\
  (forall k, In k (JSMap.keys (State.activityHistory s)) ->
             In k (map MilitaryTheater.id THEATERS)).
Proof.
  intros Hreach.
  pose proof (Reachable_Inv s Hreach) as (Hwf & Hwfh & Hreg).
  pose proof (Reachable_StoreSound s Hreach) as Hs.
  pose proof (Reachable_HistKeys s Hreach) as Hk.
  unfold StoreSound in Hs. rewrite Forall_forall in Hs.
  assert (Hkeys : forall k, In k (JSMap.keys (State.activeSurges s)) ->
                            In k alertKeys).
  { intros k Hin. unfold JSMap.keys in Hin. apply in_map_iff in Hin.
    destruct Hin as ([k' l] & <- & Hin). cbn [fst].
    apply JSMap_In_get in Hin; auto.
    destruct (Hreg _ _ Hin) as (a & Ha & _ & Hid).
    destruct (Hs a (nth_error_In _ _ Ha)) as (Hth & _ & Hkind).
    unfold alertKeys. rewrite in_app_iff, !in_map_iff.
    destruct Hkind as [(_ & H2 & _)|(_ & H2 & _)]; [left | right];
      exists (SurgeAlert.theater a); split; auto; congruence. }
  repeat split; auto.
  - unfold getActiveSurges, JSMap.values. rewrite length_map.
    rewrite <- (length_map fst).
    change 10%nat with (List.length alertKeys).
    apply NoDup_incl_length; auto.
  - rewrite <- (length_map fst).
    change 5%nat with (List.length (map MilitaryTheater.id THEATERS)).
    apply NoDup_incl_length; auto.
Qed.

End Detector.

(** * Worked examples *)

(** C9 at the two scenarios of the specification: a multiple of 2 and a
    multiple of 4. *)
Lemma surgeAlertToSignal_severity_confidence_witness :
  (Signal.severity (surgeAlertToSignal sampleAlert) = medium /\
   (Signal.confidence (surgeAlertToSignal sampleAlert) == 0.6)%Q) /\
  (Signal.severity (surgeAlertToSignal criticalAlert) = critical /\
   (Signal.confidence (surgeAlertToSignal criticalAlert) == 0.8)%Q).
Proof.
  split.
  - destruct (surgeAlertToSignal_severity_confidence sampleAlert)
      as (_ & _ & _ & _ & H2 & _).
    apply H2. reflexivity.
  - destruct (surgeAlertToSignal_severity_confidence criticalAlert)
      as (_ & _ & _ & _ & _ & H4).
    apply H4. reflexivity.
Defined.

(* The two scenarios in binary64: 6 transports against a baseline of 3,
   and 12 against 3. *)
Module Binary64Scenarios.
Import PrimFloat.
Local Open Scope float_scope.

Lemma formatter_scenarios_binary64 :
  Binary64.severityOf (6 / 3) = medium /\
  Binary64.confidenceOf (6 / 3) = 0x1.3333333333333p-1 /\
  Binary64.severityOf (12 / 3) = critical /\
  Binary64.confidenceOf (12 / 3) = 0x1.999999999999ap-1.
Proof. repeat split; vm_compute; reflexivity. Qed.
End Binary64Scenarios.

(** C2 on a theater with six recent samples of four transports each. *)
Lemma calculateBaseline_spec_witness :
  (Baseline.transport
     (fst (calculateBaseline sampleClock "europe-east" busyState)) == 4)%Q /\
  fst (calculateBaseline sampleClock "europe-east" sampleState)
  = Baseline.mk 3 2 1.
Proof.
  split.
  - destruct (calculateBaseline_spec sampleClock "europe-east" busyState)
      as (_ & Hmean & _).
    destruct Hmean as (Ht & _); [vm_compute; lia|].
    rewrite Ht. reflexivity.
  - destruct (calculateBaseline_spec sampleClock "europe-east" sampleState)
      as (Hdefault & _).
    apply Hdefault. vm_compute. lia.
Defined.


(** C10 on the alert of [sampleState], created against a baseline of 3
    and refreshed in a cycle whose baseline is 2: the multiple becomes
    6 / 2 while baselineCount stays 3. *)
Lemma airlift_refresh_frame_witness :
  exists new,
    deref (snd (airliftSurge sampleClock europeEast "europe-east"
                  sixTransportsTally floorBaseline [] sampleState)) 0%nat
      = Some new /\
    SurgeAlert.id new = "airlift-europe-east" /\
    SurgeAlert.firstDetected new = 1700000120000 /\
    SurgeAlert.baselineCount new = 3 /\
    (SurgeAlert.surgeMultiple new == 3)%Q /\
    SurgeAlert.lastUpdated new = 1700000240000.
Proof.
  destruct (airlift_refresh_frame sampleClock europeEast "europe-east"
              sixTransportsTally floorBaseline [] sampleState 0%nat
              sampleAlert eq_refl eq_refl eq_refl)
    as (new & Hnew & Hid & _ & _ & Hfirst & Hbase & _ & Hmult & _ & _ & Hlast).
  exists new. repeat split; auto.
  rewrite Hmult. reflexivity.
Defined.


Ltac solve_wf :=
  unfold JSMap.wf; simpl;
  repeat (constructor; [simpl; intuition discriminate|]); constructor.

(** C6 on [laterState], a day after its last cleanup: the cleanup runs,
    records the time, drops the four-day-old history entry together with
    the theater's map entry, and evicts the alert. *)
Lemma cleanupOldHistory_spec_witness :
  let s' := snd (cleanupOldHistory sampleClock laterState) in
  State.lastCleanup s' = sampleClock 1440 /\
  JSMap.get "europe-east" (State.activityHistory s') = None /\
  JSMap.get "airlift-europe-east" (State.activeSurges s') = None.
Proof.
  intros s'.
  destruct (cleanupOldHistory_spec quietBases sampleDistanceKm sampleClock
      asciiToUpperCase
              laterState sixTransports)
    as (_ & Hgo & _); [solve_wf | solve_wf |].
  destruct Hgo as (Hlast & Hhist & _ & Hsurges & _); [vm_compute; discriminate|].
  split; [exact Hlast|]. split.
  - rewrite Hhist. reflexivity.
  - assert (Hgone : forall l, JSMap.get "airlift-europe-east"
                                 (State.activeSurges s') <> Some l).
    { intros l E. apply Hsurges in E. destruct E as [E Hage].
      injection E as <-. specialize (Hage sampleAlert eq_refl).
      vm_compute in Hage. apply Hage. reflexivity. }
    destruct (JSMap.get "airlift-europe-east" (State.activeSurges s'))
      as [l|]; [exfalso; now apply (Hgone l) | reflexivity].
Defined.

(** C7 on the state after one cycle that created an airlift alert: a
    second cycle keeps the one alert, and the airlift block run on that
    state writes the new count into the registered object. *)
Lemma one_alert_per_key_witness :
  AtMostOnePerKey
    (snd (analyzeFlightsForSurge quietBases sampleDistanceKm sampleClock
        asciiToUpperCase
            sixTransports (initialState sampleClock))) /\
  getActiveSurges
    (snd (analyzeFlightsForSurge quietBases sampleDistanceKm sampleClock
        asciiToUpperCase
            sixTransports
            (snd (analyzeFlightsForSurge quietBases sampleDistanceKm
                    sampleClock
                  asciiToUpperCase sixTransports (initialState sampleClock)))))
  = [0%nat] /\
  option_map SurgeAlert.currentCount
    (deref
       (snd (airliftSurge sampleClock europeEast "europe-east"
               sixTransportsTally defaultBaseline []
               (snd (analyzeFlightsForSurge quietBases sampleDistanceKm
                       sampleClock asciiToUpperCase sixTransports
                       (initialState sampleClock)))))
       0%nat)
  = Some (Tally.transportCount sixTransportsTally).
Proof.
  destruct (one_alert_per_key quietBases sampleDistanceKm sampleClock
      asciiToUpperCase
              (snd (analyzeFlightsForSurge quietBases sampleDistanceKm
                      sampleClock
                    asciiToUpperCase sixTransports (initialState sampleClock)))
              (reach_analyze _ _ _ _ _ _ (reach_init _ _ _ _)))
    as (Hone & _ & _ & Hrefresh & _).
  split; [exact Hone | split; [reflexivity|]].
  destruct (Hrefresh europeEast "europe-east" sixTransportsTally
              defaultBaseline [] 0%nat eq_refl eq_refl)
    as ((old & _ & _ & Hnew) & _).
  rewrite Hnew. reflexivity.
Defined.

(** C8 on the first cycle: the theater with activity gets exactly one
    snapshot, stamped with the time of the cycle. *)
Lemma history_capped_witness :
  map TheaterActivity.timestamp
    (getTheaterActivity "europe-east"
       (snd (analyzeFlightsForSurge quietBases sampleDistanceKm sampleClock
           asciiToUpperCase
               sixTransports (initialState sampleClock))))
  = [ sampleClock 2 ].
Proof.
  pose proof (history_capped quietBases sampleDistanceKm sampleClock
      asciiToUpperCase
                (initialState sampleClock) sixTransports "europe-east"
                (reach_init _ _ _ _)) as H.
  cbv zeta in H. destruct H as (_ & _ & H).
  change (JSMap.get "europe-east"
            (groupFlights quietBases sampleDistanceKm sixTransports))
    with (Some sixTransports) in H.
  destruct H as (_ & _ & H). rewrite H. reflexivity.
Defined.

(** ** Theater resolution on the sample catalogs *)

(** C3, as stated, fails on a catalog in which bases of two theaters are
    both within 150 km of a flight: the flight over Kosovo is 67 km from a
    base of the western-european theater, and resolves to the
    eastern-european theater, whose base is 44 km away. *)
Lemma base_of_T_does_not_force_T :
  ~ (forall flight base theater,
       nearBase overlapBases sampleDistanceKm flight base ->
       belongsTo base theater ->
       getTheaterForFlight overlapBases sampleDistanceKm flight
       = Some theater).
Proof.
  intros claim.
  specialize (claim flightOverKosovo
                (MilitaryBase.mk "aviano" "Aviano Air Base" 43 21)
                europeWest).
  assert (H : getTheaterForFlight overlapBases sampleDistanceKm
                flightOverKosovo = Some europeWest).
  { apply claim.
    - split; [simpl; auto | vm_compute; discriminate].
    - split; simpl; auto 10. }
  vm_compute in H. discriminate.
Qed.

(** C3 (amended) on the same flight. *)
Lemma getTheaterForFlight_nearest_owned_base_witness :
  getTheaterForFlight overlapBases sampleDistanceKm flightOverKosovo
  = Some europeEast.
Proof.
  destruct (getTheaterForFlight_nearest_owned_base overlapBases
              sampleDistanceKm flightOverKosovo)
    as (base & theater & Hres & _).
  - exists (MilitaryBase.mk "camp_bondsteel" "Camp Bondsteel" 42 21),
           europeEast.
    split; split; simpl; auto; vm_compute; discriminate.
  - reflexivity.
Defined.

(** C4, as stated, fails where the ranges of two theater centers overlap:
    no base near the flight over Bavaria belongs to a theater, the
    western-european center is 309 km away and the eastern-european
    center 1080 km, and the flight resolves to the eastern-european
    theater, which comes first in the registry. *)
Lemma fallback_is_not_the_nearest_center :
  ~ (forall flight theater,
       (forall base t,
          nearBase quietBases sampleDistanceKm flight base ->
          ~ belongsTo base t) ->
       getTheaterForFlight quietBases sampleDistanceKm flight
       = Some theater ->
       forall other,
         In other THEATERS ->
         (centerDistance sampleDistanceKm flight other < 1500)%Q ->
         (centerDistance sampleDistanceKm flight theater
          <= centerDistance sampleDistanceKm flight other)%Q).
Proof.
  intros claim.
  specialize (claim (transportOverBavaria "f1") europeEast).
  assert (H : (centerDistance sampleDistanceKm (transportOverBavaria "f1")
                 europeEast
               <= centerDistance sampleDistanceKm (transportOverBavaria "f1")
                    europeWest)%Q).
  { apply claim.
    - intros base t [Hin _] Hown.
      destruct Hin as [<-|[]].
      apply getTheaterForBase_belongsTo in Hown. vm_compute in Hown.
      discriminate.
    - reflexivity.
    - simpl. auto.
    - vm_compute. reflexivity. }
  vm_compute in H. apply H. reflexivity.
Qed.

(** C4 (amended) on the flight over Bavaria, which falls back to the first
    theater of the registry in range, and on a flight far from every
    center, which is dropped. *)
Lemma getTheaterForFlight_center_fallback_witness :
  getTheaterForFlight quietBases sampleDistanceKm (transportOverBavaria "f1")
  = find (centerInRange sampleDistanceKm (transportOverBavaria "f1")) THEATERS
  /\ getTheaterForFlight quietBases sampleDistanceKm flightOverSouthPacific
     = None.
Proof.
  assert (Hquiet : forall flight base t,
            nearBase quietBases sampleDistanceKm flight base ->
            ~ belongsTo base t).
  { intros flight base t [Hin _] Hown.
    destruct Hin as [<-|[]].
    apply getTheaterForBase_belongsTo in Hown. vm_compute in Hown.
    discriminate. }
  split.
  - apply (getTheaterForFlight_center_fallback quietBases sampleDistanceKm
             (transportOverBavaria "f1") (Hquiet _)).
  - destruct (getTheaterForFlight_center_fallback quietBases sampleDistanceKm
                flightOverSouthPacific (Hquiet _)) as (_ & _ & _ & Hfar).
    apply Hfar.
    intros theater Hin. unfold THEATERS in Hin. simpl in Hin.
    repeat (destruct Hin as [<-|Hin]); try (vm_compute; discriminate).
    destruct Hin.
Defined.

(** * The EIA proxy *)

Section EiaProxyFacts.

Variable Json : Type.
Variable jsonTruthy : Json -> bool.
Variable fetchSeries : string -> FetchOutcome Json.

Lemma dropChars_app p r : dropChars (String.length p) (p ++ r)%string = r.
Proof. induction p as [|c p IH]; simpl; auto. Qed.

Lemma removeFirst_prefix p r : removeFirst p (p ++ r)%string = r.
Proof.
  destruct p as [|c p]; destruct r as [|d r]; simpl;
    try (destruct (ascii_dec c c); [|congruence]);
    try rewrite !prefix_app; try rewrite dropChars_app; try reflexivity.
Qed.

Lemma Promise_all_rejected {A} (promises : list (Settled A)) :
  Promise_all promises = Rejected <-> In Rejected promises.
Proof.
  induction promises as [|[a|] rest IH]; simpl.
  - split; [discriminate | tauto].
  - destruct (Promise_all rest).
    + split; [discriminate|]. intros [H|H]; [discriminate|].
      now apply IH in H.
    + split; auto. intros _. right. now apply IH.
  - split; auto.
Qed.

Lemma fetchOne_rejected key name seriesId :
  fetchOne Json jsonTruthy fetchSeries key (name, seriesId) = Rejected <->
  fetchSeries (seriesUrl key seriesId) = FetchThrew Json Nullish.
Proof.
  unfold fetchOne.
  destruct (fetchSeries (seriesUrl key seriesId)) as [[|]| |[|v0 rest]];
    split; intros H; try discriminate; reflexivity.
Qed.

Lemma fetchOne_fulfilled key name seriesId :
  fetchSeries (seriesUrl key seriesId) <> FetchThrew Json Nullish ->
  fetchOne Json jsonTruthy fetchSeries key (name, seriesId)
  = Fulfilled
      (entryOf Json jsonTruthy name (fetchSeries (seriesUrl key seriesId))).
Proof.
  unfold fetchOne, entryOf.
  destruct (fetchSeries (seriesUrl key seriesId)) as [[|]| |[|v0 rest]];
    intros H; try reflexivity.
  now contradiction H.
Qed.

Lemma petroleum_rejected key :
  Promise_all (map (fetchOne Json jsonTruthy fetchSeries key) PETROLEUM_SERIES)
  = Rejected <->
  exists name seriesId,
    In (name, seriesId) PETROLEUM_SERIES /\
    fetchSeries (seriesUrl key seriesId) = FetchThrew Json Nullish.
Proof.
  rewrite Promise_all_rejected, in_map_iff. split.
  - intros ([name seriesId] & H & Hin). exists name, seriesId.
    split; auto. now apply fetchOne_rejected in H.
  - intros (name & seriesId & Hin & H). exists (name, seriesId).
    split; auto. now apply fetchOne_rejected.
Qed.

(** X20: without an API key in the environment, or with an empty one, the
    proxy answers every request with status 503, whatever its method and
    path: the CORS preflight and the health check are refused too, and the
    answer does not depend on the upstream service. *)
Theorem eia_unconfigured_is_always_503
  (apiKey : option string) (method pathname : string) :
  apiKey = None \/ apiKey = Some "" ->
  eiaHandler Json jsonTruthy fetchSeries apiKey method pathname
  = mkEiaResponse Json 503 [ ("Access-Control-Allow-Origin", "*") ]
      (NotConfiguredBody Json).
Proof. intros [->| ->]; reflexivity. Qed.

(** X21: with an API key, a request with method OPTIONS is answered 204
    whatever its path; any other request to /api/eia followed by [rest]
    is routed on [rest] alone: the empty rest and /health give the health
    answer, /petroleum the petroleum answer or the status 500 error
    answer, everything else 404.  Every answer carries the header
    Access-Control-Allow-Origin: *, and its status is 200, 204, 404, 500
    or 503.  The status is 500 only for a request with a key, a method
    other than OPTIONS and the petroleum path, in which the fetch of one
    of the four series failed with [null] or [undefined]. *)
Theorem eia_routing (key method pathname rest : string) (apiKey : option string) :
  let answer p := eiaHandler Json jsonTruthy fetchSeries (Some key) method p in
  let any := eiaHandler Json jsonTruthy fetchSeries apiKey method pathname in
  (key <> "" ->
   (method = "OPTIONS" ->
      status Json (answer pathname) = 204
      /\ body Json (answer pathname) = NoBody Json) /\
   (method <> "OPTIONS" ->
      let r := answer ("/api/eia" ++ rest)%string in
      (rest = "" \/ rest = "/health" ->
         status Json r = 200 /\ body Json r = HealthBody Json) /\
      (rest = "/petroleum" ->
         (status Json r = 200 /\ exists results,
            body Json r = PetroleumBody Json results)
         \/ (status Json r = 500 /\ body Json r = FetchErrorBody Json)) /\
      (rest <> "" -> rest <> "/health" -> rest <> "/petroleum" ->
         status Json r = 404 /\ body Json r = NotFoundBody Json))) /\
  In ("Access-Control-Allow-Origin", "*") (headers Json any) /\
  In (status Json any) [200; 204; 404; 500; 503] /\
  (status Json any = 500 ->
     method <> "OPTIONS" /\
     removeFirst "/api/eia" pathname = "/petroleum" /\
     exists k name seriesId,
       apiKey = Some k /\ k <> "" /\
       In (name, seriesId) PETROLEUM_SERIES /\
       fetchSeries (seriesUrl k seriesId) = FetchThrew Json Nullish).
Proof.
  intros answer any. split; [|split; [|split]].
  - intros Hkey.
    assert (Ht : truthy key = true).
    { unfold truthy. apply negb_true_iff. now apply String.eqb_neq. }
    split.
    + intros ->. subst answer. unfold eiaHandler. rewrite Ht. simpl. auto.
    + intros Hm r. subst r answer. unfold eiaHandler.
      rewrite Ht, removeFirst_prefix.
      assert (Hmb : String.eqb method "OPTIONS" = false)
        by now apply String.eqb_neq.
      rewrite Hmb. split; [|split].
      * intros [->| ->]; simpl; auto.
      * intros ->. cbn [String.eqb Ascii.eqb Bool.eqb orb].
        destruct (Promise_all _); simpl; eauto.
      * intros H1 H2 H3.
        apply String.eqb_neq in H1, H2, H3. rewrite H1, H2, H3. simpl. auto.
  - subst any. unfold eiaHandler.
    destruct apiKey as [k|]; [destruct (truthy k)|];
      [destruct (String.eqb method "OPTIONS");
       [|destruct (_ || _);
         [|destruct (String.eqb _ "/petroleum");
           [destruct (Promise_all _)|]]]| |];
      simpl; auto 10.
  - subst any. unfold eiaHandler.
    destruct apiKey as [k|]; [destruct (truthy k)|];
      [destruct (String.eqb method "OPTIONS");
       [|destruct (_ || _);
         [|destruct (String.eqb _ "/petroleum");
           [destruct (Promise_all _)|]]]| |];
      simpl; auto 10.
  - subst any. unfold eiaHandler.
    destruct apiKey as [k|]; [|simpl; discriminate].
    destruct (truthy k) eqn:Ht; [|simpl; discriminate].
    destruct (String.eqb method "OPTIONS") eqn:Hm; [simpl; discriminate|].
    destruct (_ || _); [simpl; discriminate|].
    destruct (String.eqb _ "/petroleum") eqn:Hp; [|simpl; discriminate].
    destruct (Promise_all _) eqn:Hall; [simpl; discriminate|].
    intros _. apply String.eqb_neq in Hm. apply String.eqb_eq in Hp.
    apply petroleum_rejected in Hall.
    destruct Hall as (name & seriesId & Hin & Hout).
    split; [exact Hm|]. split; [exact Hp|].
    exists k, name, seriesId. repeat split; auto.
    intros ->. discriminate.
Qed.

Lemma collect_four (o1 o2 o3 o4 : FetchOutcome Json) (name : string)
  (o : FetchOutcome Json) :
  (name, o) = ("wti", o1) \/ (name, o) = ("brent", o2)
  \/ (name, o) = ("production", o3) \/ (name, o) = ("inventory", o4) ->
  let results :=
    collectResults Json
      [ entryOf Json jsonTruthy "wti" o1;
        entryOf Json jsonTruthy "brent" o2;
        entryOf Json jsonTruthy "production" o3;
        entryOf Json jsonTruthy "inventory" o4 ] in
  JSMap.wf results /\
  (List.length results <= 4)%nat /\
  (forall k, In k (JSMap.keys results) -> In k (map fst PETROLEUM_SERIES)) /\
  JSMap.get name results = option_map snd (entryOf Json jsonTruthy name o).
Proof.
  intros H results. subst results. unfold collectResults.
  destruct (entryOf Json jsonTruthy "wti" o1) as [[k1 d1]|] eqn:E1;
    [assert (k1 = "wti")
       by (unfold entryOf in E1; destruct o1 as [?| |[|? ?]];
           congruence); subst k1|];
  (destruct (entryOf Json jsonTruthy "brent" o2) as [[k2 d2]|] eqn:E2;
    [assert (k2 = "brent")
       by (unfold entryOf in E2; destruct o2 as [?| |[|? ?]];
           congruence); subst k2|]);
  (destruct (entryOf Json jsonTruthy "production" o3) as [[k3 d3]|] eqn:E3;
    [assert (k3 = "production")
       by (unfold entryOf in E3; destruct o3 as [?| |[|? ?]];
           congruence); subst k3|]);
  (destruct (entryOf Json jsonTruthy "inventory" o4) as [[k4 d4]|] eqn:E4;
    [assert (k4 = "inventory")
       by (unfold entryOf in E4; destruct o4 as [?| |[|? ?]];
           congruence); subst k4|]);
  (split;
   [unfold JSMap.wf; cbn;
    repeat (constructor; [cbn; intuition discriminate|]); constructor
   |split; [cbn; lia|split; [cbn; intuition|]]]);
  destruct H as [H|[H|[H|H]]]; injection H as -> ->;
    rewrite ?E1, ?E2, ?E3, ?E4; reflexivity.
Qed.

(** X22: a request for the petroleum data is answered with status 500
    exactly when the fetch of one of the four series fails with [null] or
    [undefined].  Otherwise it is answered with status 200 and a results
    object that holds, under the key of each of the four series, the data
    of that series exactly when its fetch succeeded with at least one data
    point, and nothing under that key otherwise, so a series that is not
    ok, has no data point or fails with an error object only makes the
    answer one key shorter.  The current value, the date and the unit come
    from the first data point; the previous value is that of the second
    data point when there is one and it is truthy, and the current value
    otherwise. *)
Theorem eia_petroleum_results (key method name seriesId : string) :
  key <> "" -> method <> "OPTIONS" ->
  In (name, seriesId) PETROLEUM_SERIES ->
  let outcome id := fetchSeries (seriesUrl key id) in
  let answer :=
    eiaHandler Json jsonTruthy fetchSeries (Some key) method
      "/api/eia/petroleum" in
  (status Json answer = 500 <->
     exists n id, In (n, id) PETROLEUM_SERIES
                  /\ outcome id = FetchThrew Json Nullish) /\
  ((exists n id, In (n, id) PETROLEUM_SERIES
                 /\ outcome id = FetchThrew Json Nullish) ->
     answer = mkEiaResponse Json 500 [ ("Access-Control-Allow-Origin", "*") ]
                (FetchErrorBody Json)) /\
  ((forall n id, In (n, id) PETROLEUM_SERIES ->
                 outcome id <> FetchThrew Json Nullish) ->
     status Json answer = 200 /\
     exists results,
       body Json answer = PetroleumBody Json results /\
       JSMap.wf results /\
       (List.length results <= 4)%nat /\
       (forall k, In k (JSMap.keys results) ->
                  In k (map fst PETROLEUM_SERIES)) /\
       match outcome seriesId with
       | FetchOk _ (v0 :: rest) =>
           exists data,
             JSMap.get name results = Some data /\
             current Json data = datumValue Json v0 /\
             date Json data = datumPeriod Json v0 /\
             unitOf Json data = datumUnit Json v0 /\
             previous Json data
             = match rest with
               | v1 :: _ =>
                   if jsonTruthy (datumValue Json v1) then datumValue Json v1
                   else datumValue Json v0
               | [] => datumValue Json v0
               end
       | _ => JSMap.get name results = None
       end).
Proof.
  intros Hkey Hm Hin outcome answer.
  assert (Ht : truthy key = true).
  { unfold truthy. apply negb_true_iff. now apply String.eqb_neq. }
  assert (Hmb : String.eqb method "OPTIONS" = false)
    by now apply String.eqb_neq.
  assert (Hans : answer
    = match Promise_all (map (fetchOne Json jsonTruthy fetchSeries key)
                           PETROLEUM_SERIES) with
      | Fulfilled fetchResults =>
          mkEiaResponse Json 200
            [ ("Access-Control-Allow-Origin", "*");
              ("Cache-Control", "public, max-age=1800") ]
            (PetroleumBody Json (collectResults Json fetchResults))
      | Rejected =>
          mkEiaResponse Json 500 [ ("Access-Control-Allow-Origin", "*") ]
            (FetchErrorBody Json)
      end).
  { subst answer. unfold eiaHandler. rewrite Ht, Hmb.
    change "/api/eia/petroleum" with ("/api/eia" ++ "/petroleum")%string.
    rewrite removeFirst_prefix. reflexivity. }
  rewrite Hans. clear Hans answer. subst outcome. cbv beta.
  split; [|split].
  - rewrite <- petroleum_rejected.
    destruct (Promise_all _); simpl; split; congruence.
  - intros H. apply petroleum_rejected in H. now rewrite H.
  - intros Hno.
    assert (Hall :
      Promise_all (map (fetchOne Json jsonTruthy fetchSeries key)
                     PETROLEUM_SERIES)
      = Fulfilled
          [ entryOf Json jsonTruthy "wti"
              (fetchSeries (seriesUrl key "PET.RWTC.W"));
            entryOf Json jsonTruthy "brent"
              (fetchSeries (seriesUrl key "PET.RBRTE.W"));
            entryOf Json jsonTruthy "production"
              (fetchSeries (seriesUrl key "PET.WCRFPUS2.W"));
            entryOf Json jsonTruthy "inventory"
              (fetchSeries (seriesUrl key "PET.WCESTUS1.W")) ]).
    { unfold PETROLEUM_SERIES. cbn [map].
      rewrite !fetchOne_fulfilled by (eapply Hno; cbn; eauto 6).
      reflexivity. }
    rewrite Hall. cbn [status body]. split; [reflexivity|].
    eexists. split; [reflexivity|].
    destruct (collect_four
                (fetchSeries (seriesUrl key "PET.RWTC.W"))
                (fetchSeries (seriesUrl key "PET.RBRTE.W"))
                (fetchSeries (seriesUrl key "PET.WCRFPUS2.W"))
                (fetchSeries (seriesUrl key "PET.WCESTUS1.W"))
                name (fetchSeries (seriesUrl key seriesId)))
      as (Hwf & Hlen & Hkeys & Hget).
    { unfold PETROLEUM_SERIES in Hin. cbn [In] in Hin.
      destruct Hin as [H|[H|[H|[H|[]]]]]; injection H as <- <-; auto. }
    split; [exact Hwf|]. split; [exact Hlen|]. split; [exact Hkeys|].
    rewrite Hget. unfold entryOf.
    destruct (fetchSeries (seriesUrl key seriesId)) as [e| |[|v0 rest]];
      try reflexivity.
    eexists. cbn. repeat split; reflexivity.
Qed.

End EiaProxyFacts.

(** * Worked examples of the further properties *)

Lemma sampleClock_monotone : monotoneClock sampleClock.
Proof. intros i j H. unfold sampleClock. lia. Qed.

(** X4 on the six transports over Bavaria. *)
Lemma grouped_theater_is_found_witness :
  exists theater,
    In theater THEATERS /\
    MilitaryTheater.id theater = "europe-east" /\
    find (fun t => String.eqb (MilitaryTheater.id t) "europe-east") THEATERS
      = Some theater /\
    forall flight, In flight sixTransports ->
      getTheaterForFlight quietBases sampleDistanceKm flight = Some theater.
Proof.
  apply (grouped_theater_is_found quietBases sampleDistanceKm sixTransports
           "europe-east" sixTransports).
  reflexivity.
Defined.

(** X5 on a declared fighter with the callsign rch471. *)
Lemma classifyFlight_callsign_witness :
  classifyFlight asciiToUpperCase fighterWithAirliftCallsign = transport.
Proof.
  destruct (classifyFlight_callsign asciiToUpperCase
              fighterWithAirliftCallsign) as (_ & _ & _ & H).
  apply (H eq_refl "RCH" "rch" "471"); simpl; auto.
Defined.

(** X10 on two alerts of the same theater first detected at the same
    time. *)
Lemma signal_id_determines_alert_witness :
  SurgeAlert.id sampleAlert = SurgeAlert.id criticalAlert /\
  SurgeAlert.firstDetected sampleAlert = SurgeAlert.firstDetected criticalAlert.
Proof.
  apply (signal_id_determines_alert sampleAlert criticalAlert).
  - vm_compute. discriminate.
  - vm_compute. discriminate.
  - reflexivity.
Defined.

(** X12 on [laterState], whose cleanup prunes the four-day-old entry. *)
Lemma pruning_invisible_to_baseline_witness :
  fst (calculateBaseline sampleClock "europe-east"
         (snd (cleanupOldHistory sampleClock laterState)))
  = baselineOf (sampleClock 1441) (getTheaterActivity "europe-east" laterState).
Proof.
  apply (pruning_invisible_to_baseline sampleClock laterState "europe-east").
  - solve_wf.
  - vm_compute. discriminate.
Defined.

(** X13 and X15 on the alert the first cycle creates. *)
Lemma reachable_alerts_sound_witness :
  exists a,
    deref (snd (analyzeFlightsForSurge quietBases sampleDistanceKm
                  sampleClock
                    asciiToUpperCase sixTransports (initialState sampleClock)))
          0%nat = Some a /\
    SurgeAlert.type a <> reconnaissance /\
    (2 <= SurgeAlert.surgeMultiple a)%Q.
Proof.
  destruct (deref (snd (analyzeFlightsForSurge quietBases sampleDistanceKm
                          sampleClock asciiToUpperCase sixTransports
                          (initialState sampleClock))) 0%nat)
    as [a|] eqn:E; [|vm_compute in E; discriminate].
  exists a. split; auto.
  destruct (reachable_alerts_sound quietBases sampleDistanceKm sampleClock
      asciiToUpperCase
              _ 0%nat a (reach_analyze _ _ _ _ _ _ (reach_init _ _ _ _)) E)
    as (H1 & _ & H3 & _).
  auto.
Defined.

Lemma alert_times_ordered_witness :
  exists a,
    deref (snd (analyzeFlightsForSurge quietBases sampleDistanceKm
                  sampleClock
                    asciiToUpperCase sixTransports (initialState sampleClock)))
          0%nat = Some a /\
    SurgeAlert.firstDetected a <= SurgeAlert.lastUpdated a.
Proof.
  destruct (deref (snd (analyzeFlightsForSurge quietBases sampleDistanceKm
                          sampleClock asciiToUpperCase sixTransports
                          (initialState sampleClock))) 0%nat)
    as [a|] eqn:E; [|vm_compute in E; discriminate].
  exists a. split; auto.
  destruct (alert_times_ordered quietBases sampleDistanceKm sampleClock
      asciiToUpperCase
              _ 0%nat a sampleClock_monotone
              (reach_analyze _ _ _ _ _ _ (reach_init _ _ _ _)) E)
    as (H1 & _).
  exact H1.
Defined.

(** X14, X16 and X19 on the state after the first cycle. *)
Lemma active_alerts_well_formed_witness :
  NoDup
    (getActiveSurges
       (snd (analyzeFlightsForSurge quietBases sampleDistanceKm sampleClock
           asciiToUpperCase
               sixTransports (initialState sampleClock)))).
Proof.
  apply (active_alerts_well_formed quietBases sampleDistanceKm sampleClock
      asciiToUpperCase
           _ (reach_analyze _ _ _ _ _ _ (reach_init _ _ _ _))).
Defined.

Lemma history_in_time_order_witness :
  StronglySorted byTimestamp
    (getTheaterActivity "europe-east"
       (snd (analyzeFlightsForSurge quietBases sampleDistanceKm sampleClock
           asciiToUpperCase
               sixTransports
               (snd (analyzeFlightsForSurge quietBases sampleDistanceKm
                       sampleClock asciiToUpperCase sixTransports
                       (initialState sampleClock)))))).
Proof.
  apply (history_in_time_order quietBases sampleDistanceKm sampleClock
      asciiToUpperCase
           _ "europe-east" sampleClock_monotone
           (reach_analyze _ _ _ _ _ _
              (reach_analyze _ _ _ _ _ _ (reach_init _ _ _ _)))).
Defined.

Lemma state_is_bounded_witness :
  (List.length
     (getActiveSurges
        (snd (analyzeFlightsForSurge quietBases sampleDistanceKm sampleClock
            asciiToUpperCase
                sixTransports (initialState sampleClock)))) <= 10)%nat.
Proof.
  apply (state_is_bounded quietBases sampleDistanceKm sampleClock
      asciiToUpperCase
           _ (reach_analyze _ _ _ _ _ _ (reach_init _ _ _ _))).
Defined.

(** X17 on a cycle whose only flight is far from every theater. *)
Lemma analyze_without_activity_witness :
  analyzeFlightsForSurge quietBases sampleDistanceKm sampleClock
      asciiToUpperCase
    [ flightOverSouthPacific ] sampleState
  = ([], State.with_clockReads 6
           (snd (cleanupOldHistory sampleClock sampleState))).
Proof.
  apply (analyze_without_activity quietBases sampleDistanceKm sampleClock
      asciiToUpperCase
           [ flightOverSouthPacific ] sampleState).
  intros flight [<-|[]]. reflexivity.
Defined.

(** X18 on [laterState]: the cleanup evicts the alert, the surge persists,
    and the evicted object stays as it was. *)
Lemma evicted_alerts_are_frozen_witness :
  deref (snd (analyzeFlightsForSurge quietBases sampleDistanceKm sampleClock
      asciiToUpperCase
                sixTransports laterState)) 0%nat
  = Some sampleAlert /\
  fst (analyzeFlightsForSurge quietBases sampleDistanceKm sampleClock
      asciiToUpperCase
         sixTransports laterState) = [ 1%nat ].
Proof.
  destruct (evicted_alerts_are_frozen quietBases sampleDistanceKm sampleClock
      asciiToUpperCase
              sixTransports laterState 0%nat sampleAlert)
    as (H & _).
  - reflexivity.
  - intros k. vm_compute. discriminate.
  - split; [exact H | reflexivity].
Defined.

(** X20 on a preflight request to an unconfigured proxy. *)
Lemma eia_unconfigured_is_always_503_witness :
  status Z (eiaHandler Z nonZero sampleUpstream None "OPTIONS"
              "/api/eia/health") = 503.
Proof.
  rewrite (eia_unconfigured_is_always_503 Z nonZero sampleUpstream None
             "OPTIONS" "/api/eia/health"); auto.
Defined.

(** X22 on the sample upstream, where only the crude-oil series is
    present and its previous value, reported as 0, falls back to the
    current one, and on an upstream one of whose fetches fails with
    [undefined]. *)
Lemma eia_petroleum_results_witness :
  (exists results data,
     body Z (eiaHandler Z nonZero sampleUpstream (Some "k") "GET"
               "/api/eia/petroleum") = PetroleumBody Z results /\
     JSMap.get "wti" results = Some data /\
     current Z data = 71 /\ previous Z data = 71) /\
  status Z (eiaHandler Z nonZero brokenUpstream (Some "k") "GET"
              "/api/eia/petroleum") = 500.
Proof.
  split.
  - destruct (eia_petroleum_results Z nonZero sampleUpstream "k" "GET" "wti"
                "PET.RWTC.W") as (_ & _ & H);
      [discriminate | discriminate | simpl; auto |].
    destruct H as (_ & results & Hbody & _ & _ & _ & H).
    { intros n id Hin. cbn [PETROLEUM_SERIES In] in Hin.
      destruct Hin as [E|[E|[E|[E|[]]]]]; injection E as <- <-;
        vm_compute; discriminate. }
    change (sampleUpstream (seriesUrl "k" "PET.RWTC.W"))
      with (FetchOk Z [ mkDatum Z 71 20240105 1; mkDatum Z 0 20231229 1 ])
      in H.
    destruct H as (data & Hget & Hc & _ & _ & Hp).
    exists results, data. repeat split; auto.
  - apply (eia_petroleum_results Z nonZero brokenUpstream "k" "GET" "wti"
             "PET.RWTC.W");
      [discriminate | discriminate | simpl; auto |].
    exists "brent", "PET.RBRTE.W". split; [simpl; auto | reflexivity].
Defined.
